(** * RedShow: a shallow embedding of the trace-analysis engine

    The development follows [src/redshow.cpp] (cubin registry, memory
    snapshots, PC translation, the per-record trace analyzer, the
    [redshow_analyze] entry point and [redshow_flush]), [instruction.h]
    (symbols, access kinds, the instruction graph), [common_lib.h]
    (thread ids and the trace accumulators) and [operation/memcpy.cpp].

    Unsigned machine integers are values of [Z]; every place where the
    C++ arithmetic wraps is written with [wrap32] or [wrap64].  Every
    [std::map] is a [gmap]; the ordered look-ups the code performs with
    [upper_bound] are defined on top of it. *)

From Stdlib Require Import ZArith Lia List Bool Ascii String.
From Stdlib.Strings Require Import Byte.
From stdpp Require Import base decidable option list sorting gmap fin_maps strings.

Local Open Scope Z_scope.

(** ** Machine integers *)

Definition wrap32 (z : Z) : Z := z mod 2 ^ 32.
Definition wrap64 (z : Z) : Z := z mod 2 ^ 64.

(** [MIN2] and [MAX2] are macros; they are used on unsigned operands. *)
Definition MIN2 (x y : Z) : Z := if x >? y then y else x.
Definition MAX2 (x y : Z) : Z := if x >? y then x else y.

(** [x & y] used as a condition. *)
Definition flag_set (x y : Z) : bool := negb (Z.land x y =? 0).

(** ** Result codes ([redshow_result_t]) *)

Inductive redshow_result_t : Set :=
  | REDSHOW_SUCCESS
  | REDSHOW_ERROR_NO_SUCH_FILE
  | REDSHOW_ERROR_FAILED_ANALYZE_CUBIN
  | REDSHOW_ERROR_NOT_EXIST_ENTRY
  | REDSHOW_ERROR_DUPLICATE_ENTRY
  | REDSHOW_ERROR_NO_SUCH_APPROX
  | REDSHOW_ERROR_NOT_REGISTER_CALLBACK.

Global Instance redshow_result_eq_dec : EqDecision redshow_result_t.
Proof. solve_decision. Defined.

Global Instance byte_eq_decision : EqDecision Byte.byte := Byte.byte_eq_dec.

(** ** Symbols and PC translation *)

Record Symbol : Set := mkSymbol {
  index : Z;           (* uint32_t *)
  cubin_offset : Z;    (* uint64_t *)
  pc : Z               (* uint64_t *)
}.

(** [Symbol(uint64_t pc)] and [Symbol()]. *)
Definition Symbol_of_pc (p : Z) : Symbol := mkSymbol 0 0 p.
Definition Symbol_default : Symbol := mkSymbol 0 0 0.

(** [Symbol::operator<]. *)
Definition Symbol_lt (a b : Symbol) : bool := pc a <? pc b.

(** [std::upper_bound(first, last, val)] on a vector: the binary search
    of the standard library, on positions.  [len] strictly decreases, so
    [length] of the vector is enough fuel. *)
Fixpoint upper_bound_loop (fuel : nat) (v : list Symbol) (val : Symbol)
    (first len : nat) : nat :=
  match fuel with
  | O => first
  | S fuel' =>
      if (0 <? len)%nat then
        let half := Nat.div2 len in
        let middle := (first + half)%nat in
        match v !! middle with
        | Some s =>
            if Symbol_lt val s
            then upper_bound_loop fuel' v val first half
            else upper_bound_loop fuel' v val (middle + 1)%nat (len - half - 1)%nat
        | None => first
        end
      else first
  end.

Definition upper_bound (v : list Symbol) (val : Symbol) : nat :=
  upper_bound_loop (length v) v val 0%nat (length v).

(** The three reference parameters of [transform_pc]: the function gets
    their current values and gives back the values they hold afterwards. *)
Record pc_out : Set := mkPcOut {
  out_function_index : Z;   (* uint32_t & *)
  out_cubin_offset : Z;     (* uint64_t & *)
  out_pc_offset : Z         (* uint64_t & *)
}.

(** [transform_pc] (lines 175-193).  [upper_bound] stays within the
    vector, so the look-up before a non-zero position always finds a
    symbol. *)
Definition transform_pc (symbols : list Symbol) (p : Z) (out : pc_out)
    : redshow_result_t * pc_out :=
  let symbol := Symbol_of_pc p in
  let symbols_iter := upper_bound symbols symbol in
  if (symbols_iter =? 0)%nat then (REDSHOW_ERROR_NOT_EXIST_ENTRY, out)
  else
    match symbols !! (symbols_iter - 1)%nat with
    | Some s =>
        let pc_offset := wrap64 (p - pc s) in
        let cubin_offset' := wrap64 (pc_offset + cubin_offset s) in
        (REDSHOW_SUCCESS, mkPcOut (index s) cubin_offset' pc_offset)
    | None => (REDSHOW_ERROR_NOT_EXIST_ENTRY, out)
    end.

(** Strictly increasing by [pc], the state of a symbol vector after the
    registry has sorted it when the PCs are distinct. *)
Definition symbols_sorted (v : list Symbol) : Prop :=
  forall i j si sj, (i < j)%nat -> v !! i = Some si -> v !! j = Some sj -> pc si < pc sj.

(** [std::sort(symbols.begin(), symbols.end())] with [Symbol::operator<].
    The library sort is not stable; insertion sort stands for it.  The two
    agree whenever no two symbols with the same [pc] differ in another
    field, which covers distinct PCs and default-constructed symbols. *)
Fixpoint sort_insert (s : Symbol) (v : list Symbol) : list Symbol :=
  match v with
  | [] => [s]
  | t :: v' => if Symbol_lt t s then t :: sort_insert s v' else s :: v
  end.

Definition sort_symbols (v : list Symbol) : list Symbol :=
  foldr sort_insert [] v.

(** ** Access kinds and the instruction graph ([instruction.h]) *)

Inductive DataType : Set := UNKNOWN | INTEGER | FLOAT.

Global Instance DataType_eq_dec : EqDecision DataType.
Proof. solve_decision. Defined.

Definition DataType_to_Z (t : DataType) : Z :=
  match t with UNKNOWN => 0 | INTEGER => 1 | FLOAT => 2 end.

Definition DataType_of_Z (z : Z) : DataType :=
  match z with 1 => INTEGER | 2 => FLOAT | _ => UNKNOWN end.

Global Instance DataType_countable : Countable DataType.
Proof.
  refine (inj_countable' DataType_to_Z DataType_of_Z _).
  intros []; reflexivity.
Defined.

(** [redshow.cpp] still calls this struct [AccessType]. *)
Record AccessKind : Set := mkAccessKind {
  vec_size : Z;     (* uint32_t: 8, 16, 32, 64, 128 *)
  unit_size : Z;    (* uint32_t: 8, 16, 32, 64 *)
  type : DataType
}.

(** [AccessKind()]. *)
Definition AccessKind_default : AccessKind := mkAccessKind 0 0 UNKNOWN.

Record Instruction : Type := mkInstruction {
  inst_op : string;
  inst_pc : Z;                       (* unsigned int *)
  inst_predicate : Z;
  inst_dsts : list Z;
  inst_srcs : list Z;
  inst_assign_pcs : gmap Z (list Z);
  inst_access_kind : option AccessKind
}.

Record InstructionGraph : Type := mkInstructionGraph {
  _incoming_nodes : gmap Z (gset Z);
  _outgoing_nodes : gmap Z (gset Z);
  _nodes : gmap Z Instruction
}.

(** [InstructionGraph()]. *)
Definition InstructionGraph_empty : InstructionGraph :=
  mkInstructionGraph ∅ ∅ ∅.

(** [InstructionGraph::size]. *)
Definition graph_size (g : InstructionGraph) : Z := Z.of_nat (size (_nodes g)).

(** [InstructionGraph::has_node]. *)
Definition has_node (g : InstructionGraph) (p : Z) : bool :=
  bool_decide (is_Some (_nodes g !! p)).

(** [InstructionGraph::node] is [_nodes.at(pc)]: [None] stands for the
    [std::out_of_range] that [std::map::at] throws on an absent key. *)
Definition node (g : InstructionGraph) (p : Z) : option Instruction :=
  _nodes g !! p.

(** [InstructionGraph::add_node]. *)
Definition add_node (p : Z) (inst : Instruction) (g : InstructionGraph)
    : InstructionGraph :=
  mkInstructionGraph (_incoming_nodes g) (_outgoing_nodes g) (<[p := inst]> (_nodes g)).

(** ** Thread ids and trace accumulators ([common_lib.h]) *)

Record ThreadId : Set := mkThreadId {
  flat_block_id : Z;     (* u32 *)
  flat_thread_id : Z     (* u32 *)
}.

Global Instance ThreadId_eq_dec : EqDecision ThreadId.
Proof. solve_decision. Defined.

Global Instance ThreadId_countable : Countable ThreadId.
Proof.
  refine (inj_countable' (fun t => (flat_block_id t, flat_thread_id t))
                         (fun p => mkThreadId p.1 p.2) _).
  intros []; reflexivity.
Defined.

(** [{<memory_op_id, DataType> : {pc : {value : count}}}] *)
Abbreviation SpatialTrace := (gmap (Z * DataType) (gmap Z (gmap Z Z))).
(** [{ThreadId : {address : <pc, value>}}] *)
Abbreviation TemporalTrace := (gmap ThreadId (gmap Z (Z * Z))).
(** [{pc1 : {pc2 : {<value, DataType> : count}}}] *)
Abbreviation PCPairs := (gmap Z (gmap Z (gmap (Z * DataType) Z))).

(** ** Global data structures of [redshow.cpp] *)

Record Cubin : Type := mkCubin {
  cubin_id : Z;                 (* uint32_t *)
  path : string;
  symbols : list Symbol;
  inst_graph : InstructionGraph
}.

Record CubinCache : Type := mkCubinCache {
  cache_cubin_id : Z;
  cache_nsymbols : Z;
  cache_symbol_pcs : list Z;    (* uint64_t *, [nsymbols] entries *)
  cache_path : string
}.

Record MemoryRange : Set := mkMemoryRange {
  start : Z;
  end_ : Z
}.

(** [MemoryRange::operator<] compares the starts only. *)
Definition MemoryRange_lt (a b : MemoryRange) : bool := start a <? start b.

Record Memory : Set := mkMemory {
  memory_range : MemoryRange;
  memory_op_id : Z;
  memory_id : Z
}.

(** [Memory()], value-initialised by [std::map::operator[]]. *)
Definition Memory_default : Memory := mkMemory (mkMemoryRange 0 0) 0 0.

(** [std::map<MemoryRange, Memory>].  Two keys are equivalent for this map
    exactly when their starts are equal, so an entry lives under the start
    of its key; the stored key keeps the [end_] it was inserted with. *)
Abbreviation MemoryMap := (gmap Z (MemoryRange * Memory)).

Record Kernel : Type := mkKernel {
  kernel_id : Z;                (* uint64_t *)
  kernel_cubin_id : Z;          (* uint32_t cubin_id *)
  func_index : Z;
  func_addr : Z;
  read_spatial_trace : SpatialTrace;
  write_spatial_trace : SpatialTrace;
  read_temporal_trace : TemporalTrace;
  read_pc_pairs : PCPairs;
  write_temporal_trace : TemporalTrace;
  write_pc_pairs : PCPairs
}.

(** [Kernel()], value-initialised by [std::map::operator[]]. *)
Definition Kernel_default : Kernel := mkKernel 0 0 0 0 ∅ ∅ ∅ ∅ ∅ ∅.

Inductive redshow_analysis_type_t : Set :=
  | REDSHOW_ANALYSIS_SPATIAL_REDUNDANCY
  | REDSHOW_ANALYSIS_TEMPORAL_REDUNDANCY.

Global Instance redshow_analysis_type_eq_dec : EqDecision redshow_analysis_type_t.
Proof. solve_decision. Defined.

Global Instance redshow_analysis_type_countable : Countable redshow_analysis_type_t.
Proof.
  refine (inj_countable'
            (fun a => match a with
                      | REDSHOW_ANALYSIS_SPATIAL_REDUNDANCY => false
                      | REDSHOW_ANALYSIS_TEMPORAL_REDUNDANCY => true
                      end)
            (fun b : bool => if b then REDSHOW_ANALYSIS_TEMPORAL_REDUNDANCY
                             else REDSHOW_ANALYSIS_SPATIAL_REDUNDANCY) _).
  intros []; reflexivity.
Defined.

(** ** The instrumentation buffer ([gpu-patch.h], consumed) *)

Record gpu_patch_record_t : Set := mkRecord {
  r_pc : Z;                      (* uint64_t pc *)
  r_size : Z;                    (* uint32_t size *)
  r_active : Z;                  (* uint32_t active *)
  r_flat_block_id : Z;           (* uint32_t flat_block_id *)
  r_flat_thread_id : Z;          (* uint32_t flat_thread_id *)
  r_flags : Z;                   (* uint32_t flags *)
  r_address : list Z;            (* uint64_t address[WARP_SIZE] *)
  r_value : list (list Byte.byte)     (* uint8_t value[WARP_SIZE][MAX_ACCESS_SIZE] *)
}.

Record gpu_patch_buffer_t : Set := mkBuffer {
  head_index : Z;
  records : list gpu_patch_record_t
}.

(** The constants of [gpu-patch.h]: the warp size and the flag bits. *)
Record patch_constants : Set := mkPatchConstants {
  GPU_PATCH_WARP_SIZE : Z;
  GPU_PATCH_READ : Z;
  GPU_PATCH_WRITE : Z;
  GPU_PATCH_LOCAL : Z;
  GPU_PATCH_SHARED : Z;
  GPU_PATCH_BLOCK_ENTER_FLAG : Z;
  GPU_PATCH_BLOCK_EXIT_FLAG : Z
}.

(** The values the instrumentation layer ships with. *)
Definition gpu_patch : patch_constants :=
  mkPatchConstants 32 0x1 0x2 0x4 0x8 0x10 0x20.

Definition MEMORY_ID_SHARED : Z := 1.
Definition MEMORY_ID_LOCAL : Z := 2.

Definition VALID_FLOAT_DIGITS : Z := 23.
Definition VALID_DOUBLE_DIGITS : Z := 52.

(** ** The process-wide state *)

Record State : Type := mkState {
  cubin_map : gmap Z Cubin;
  cubin_cache_map : gmap Z CubinCache;
  memory_snapshot : gmap Z MemoryMap;
  kernel_map : gmap Z (gmap Z Kernel);
  analysis_enabled : gset redshow_analysis_type_t;
  log_data_callback : bool;                 (* false: NULL *)
  log_data_calls : list (Z * gpu_patch_buffer_t);
  record_data_callback : bool;
  mini_host_op_id : Z;
  pc_views_limit : Z;
  mem_views_limit : Z;
  decimal_degree_f32 : Z;
  decimal_degree_f64 : Z
}.

Definition initial_state : State :=
  mkState ∅ ∅ ∅ ∅ ∅ false [] false 0 0 0 VALID_FLOAT_DIGITS VALID_DOUBLE_DIGITS.

Definition with_cubin_map (m : gmap Z Cubin) (st : State) : State :=
  mkState m (cubin_cache_map st) (memory_snapshot st) (kernel_map st)
    (analysis_enabled st) (log_data_callback st) (log_data_calls st)
    (record_data_callback st) (mini_host_op_id st) (pc_views_limit st)
    (mem_views_limit st) (decimal_degree_f32 st) (decimal_degree_f64 st).

Definition with_cubin_cache_map (m : gmap Z CubinCache) (st : State) : State :=
  mkState (cubin_map st) m (memory_snapshot st) (kernel_map st)
    (analysis_enabled st) (log_data_callback st) (log_data_calls st)
    (record_data_callback st) (mini_host_op_id st) (pc_views_limit st)
    (mem_views_limit st) (decimal_degree_f32 st) (decimal_degree_f64 st).

Definition with_memory_snapshot (m : gmap Z MemoryMap) (st : State) : State :=
  mkState (cubin_map st) (cubin_cache_map st) m (kernel_map st)
    (analysis_enabled st) (log_data_callback st) (log_data_calls st)
    (record_data_callback st) (mini_host_op_id st) (pc_views_limit st)
    (mem_views_limit st) (decimal_degree_f32 st) (decimal_degree_f64 st).

Definition with_kernel_map (m : gmap Z (gmap Z Kernel)) (st : State) : State :=
  mkState (cubin_map st) (cubin_cache_map st) (memory_snapshot st) m
    (analysis_enabled st) (log_data_callback st) (log_data_calls st)
    (record_data_callback st) (mini_host_op_id st) (pc_views_limit st)
    (mem_views_limit st) (decimal_degree_f32 st) (decimal_degree_f64 st).

Definition with_analysis_enabled (s : gset redshow_analysis_type_t) (st : State) : State :=
  mkState (cubin_map st) (cubin_cache_map st) (memory_snapshot st) (kernel_map st)
    s (log_data_callback st) (log_data_calls st)
    (record_data_callback st) (mini_host_op_id st) (pc_views_limit st)
    (mem_views_limit st) (decimal_degree_f32 st) (decimal_degree_f64 st).

Definition with_log_data (cb : bool) (calls : list (Z * gpu_patch_buffer_t))
    (st : State) : State :=
  mkState (cubin_map st) (cubin_cache_map st) (memory_snapshot st) (kernel_map st)
    (analysis_enabled st) cb calls
    (record_data_callback st) (mini_host_op_id st) (pc_views_limit st)
    (mem_views_limit st) (decimal_degree_f32 st) (decimal_degree_f64 st).

Definition with_record_data (cb : bool) (pc_views mem_views : Z) (st : State) : State :=
  mkState (cubin_map st) (cubin_cache_map st) (memory_snapshot st) (kernel_map st)
    (analysis_enabled st) (log_data_callback st) (log_data_calls st)
    cb (mini_host_op_id st) pc_views mem_views
    (decimal_degree_f32 st) (decimal_degree_f64 st).

Definition with_mini_host_op_id (h : Z) (st : State) : State :=
  mkState (cubin_map st) (cubin_cache_map st) (memory_snapshot st) (kernel_map st)
    (analysis_enabled st) (log_data_callback st) (log_data_calls st)
    (record_data_callback st) h (pc_views_limit st)
    (mem_views_limit st) (decimal_degree_f32 st) (decimal_degree_f64 st).

Definition with_decimal_degrees (f32 f64 : Z) (st : State) : State :=
  mkState (cubin_map st) (cubin_cache_map st) (memory_snapshot st) (kernel_map st)
    (analysis_enabled st) (log_data_callback st) (log_data_calls st)
    (record_data_callback st) (mini_host_op_id st) (pc_views_limit st)
    (mem_views_limit st) f32 f64.

(** ** Ordered look-up in a [std::map]

    [map_prev m k] is the entry reached by
    [it = m.upper_bound(k); if (it != m.begin()) --it;], that is the entry
    with the greatest key not above [k]; [None] stands for
    [it == m.begin()]. *)
Definition pick_prev {V : Type} (k : Z) (kv : Z * V) (acc : option (Z * V))
    : option (Z * V) :=
  if kv.1 <=? k then
    match acc with
    | Some best => if best.1 <? kv.1 then Some kv else acc
    | None => Some kv
    end
  else acc.

Definition map_prev {V : Type} (m : gmap Z V) (k : Z) : option (Z * V) :=
  foldr (pick_prev k) None (map_to_list m).

(** ** [std::string] operations used by [cubin_analyze] *)

Definition npos : Z := 2 ^ 64 - 1.

Definition string_size (s : string) : Z := Z.of_nat (String.length s).

Fixpoint rfind_aux (c : ascii) (s : string) (i pos acc : Z) : Z :=
  match s with
  | EmptyString => acc
  | String a s' =>
      rfind_aux c s' (i + 1) pos (if (i <=? pos) && Ascii.eqb a c then i else acc)
  end.

(** [s.rfind(c, pos)]: the last position not after [pos] that holds [c],
    [npos] when there is none. *)
Definition rfind (s : string) (c : ascii) (pos : Z) : Z :=
  rfind_aux c s 0 pos npos.

(** [s.substr(pos, n)] for [pos <= s.size()], the only way it is called. *)
Definition substr (s : string) (pos n : Z) : string :=
  substring (Z.to_nat pos) (Z.to_nat (Z.min n (string_size s - pos))) s.

(** The [.inst] path that [cubin_analyze] derives from a cubin path whose
    last slash is at [iter]. *)
Definition inst_path_of (cubin_path : string) (iter : Z) : string :=
  let cubin_name := substr cubin_path (iter + 1) (string_size cubin_path - iter) in
  let iter' := rfind cubin_path "/"%char (wrap64 (iter - 1)) in
  let dir_name := substr cubin_path 0 iter' in
  String.append dir_name
    (String.append "/structs/nvidia/" (String.append cubin_name ".inst")).

(** ** Collaborators that live outside these sources

    The instruction parser and the type inference ([instruction.cpp]),
    the value canonicalizer and the accumulator updates ([common_lib.cpp])
    are only declared here, and the file system is external: they are
    parameters of the analyzer. *)
Record collaborators : Type := mkCollaborators {
  inst_file_good : string -> bool;
  parse_instructions :
    string -> list Symbol -> InstructionGraph -> bool * list Symbol * InstructionGraph;
  load_data_type : Z -> InstructionGraph -> AccessKind;
  store_data_type : Z -> InstructionGraph -> AccessKind;
  store2basictype : Z -> AccessKind -> Z -> Z -> Z;
  get_spatial_trace : Z -> Z -> Z -> AccessKind -> SpatialTrace -> SpatialTrace;
  get_temporal_trace :
    Z -> ThreadId -> Z -> Z -> AccessKind -> TemporalTrace -> PCPairs ->
    TemporalTrace * PCPairs
}.

(** ** How a call can end *)

Inductive failure : Set :=
  | std_out_of_range            (* exception leaving [std::map::at] *)
  | integer_division_by_zero    (* undefined behaviour *)
  | null_function_call.         (* call through a NULL callback *)

Inductive completion (A : Type) : Type :=
  | Returns (a : A)
  | Aborts (f : failure).
Arguments Returns {A} a.
Arguments Aborts {A} f.

(** The kernel is analysed in place: when a record aborts the call, the
    updates made so far stay. *)
Inductive progress : Type :=
  | Proceed (k : Kernel)
  | Abort (f : failure) (k : Kernel).

Definition progress_bind (p : progress) (f : Kernel -> progress) : progress :=
  match p with
  | Proceed k => f k
  | Abort e k => Abort e k
  end.

Definition with_read_spatial_trace (t : SpatialTrace) (k : Kernel) : Kernel :=
  mkKernel (kernel_id k) (kernel_cubin_id k) (func_index k) (func_addr k)
    t (write_spatial_trace k) (read_temporal_trace k) (read_pc_pairs k)
    (write_temporal_trace k) (write_pc_pairs k).

Definition with_write_spatial_trace (t : SpatialTrace) (k : Kernel) : Kernel :=
  mkKernel (kernel_id k) (kernel_cubin_id k) (func_index k) (func_addr k)
    (read_spatial_trace k) t (read_temporal_trace k) (read_pc_pairs k)
    (write_temporal_trace k) (write_pc_pairs k).

Definition with_read_temporal (t : TemporalTrace) (p : PCPairs) (k : Kernel) : Kernel :=
  mkKernel (kernel_id k) (kernel_cubin_id k) (func_index k) (func_addr k)
    (read_spatial_trace k) (write_spatial_trace k) t p
    (write_temporal_trace k) (write_pc_pairs k).

Definition with_write_temporal (t : TemporalTrace) (p : PCPairs) (k : Kernel) : Kernel :=
  mkKernel (kernel_id k) (kernel_cubin_id k) (func_index k) (func_addr k)
    (read_spatial_trace k) (write_spatial_trace k) (read_temporal_trace k)
    (read_pc_pairs k) t p.

Definition with_kernel_ids (kid cid : Z) (k : Kernel) : Kernel :=
  mkKernel kid cid (func_index k) (func_addr k)
    (read_spatial_trace k) (write_spatial_trace k) (read_temporal_trace k)
    (read_pc_pairs k) (write_temporal_trace k) (write_pc_pairs k).

(** Little-endian value of a byte string ([memcpy] into a [uint64_t]). *)
Definition le_value (bs : list Byte.byte) : Z :=
  foldr (fun b acc => Z.of_N (Byte.to_N b) + 256 * acc) 0 bs.

(** ** The cubin registry *)

Section Registry.
Variable E : collaborators.

(** [cubin_analyze] (lines 141-172). *)
Definition cubin_analyze (path_ : string) (symbols_ : list Symbol)
    (graph : InstructionGraph)
    : redshow_result_t * list Symbol * InstructionGraph :=
  let iter := rfind path_ "/"%char npos in
  if iter =? npos then (REDSHOW_ERROR_NO_SUCH_FILE, symbols_, graph)
  else
    let inst_path := inst_path_of path_ iter in
    if negb (inst_file_good E inst_path)
    then (REDSHOW_ERROR_NO_SUCH_FILE, symbols_, graph)
    else
      let '(ok, symbols', graph') := parse_instructions E inst_path symbols_ graph in
      if ok then (REDSHOW_SUCCESS, symbols', graph')
      else (REDSHOW_ERROR_FAILED_ANALYZE_CUBIN, symbols', graph').

(** [for (i = 0; i < nsymbols; ++i) symbols[i].pc = symbol_pcs[i];] *)
Definition assign_symbol_pc (symbol_pcs : list Z) (v : list Symbol) (i : nat)
    : list Symbol :=
  alter (fun s => mkSymbol (index s) (cubin_offset s) (default 0 (symbol_pcs !! i))) i v.

Definition assign_symbol_pcs (nsymbols : Z) (symbol_pcs : list Z) (v : list Symbol)
    : list Symbol :=
  foldl (assign_symbol_pc symbol_pcs) v (seq 0 (Z.to_nat nsymbols)).

(** [redshow_cubin_register] (lines 471-503).  The four assignments
    through [cubin_map[cubin_id]] are one insertion of the new entry. *)
Definition redshow_cubin_register (cubin_id_ nsymbols : Z) (symbol_pcs : list Z)
    (path_ : string) (st : State) : redshow_result_t * State :=
  let inst_graph0 := InstructionGraph_empty in
  let symbols0 := replicate (Z.to_nat nsymbols) Symbol_default in
  let '(result, symbols1, inst_graph1) := cubin_analyze path_ symbols0 inst_graph0 in
  if bool_decide (result = REDSHOW_SUCCESS) ||
     bool_decide (result = REDSHOW_ERROR_NO_SUCH_FILE)
  then
    let symbols2 := sort_symbols (assign_symbol_pcs nsymbols symbol_pcs symbols1) in
    match cubin_map st !! cubin_id_ with
    | None =>
        (result,
         with_cubin_map
           (<[cubin_id_ := mkCubin cubin_id_ path_ symbols2 inst_graph1]> (cubin_map st))
           st)
    | Some _ => (REDSHOW_ERROR_DUPLICATE_ENTRY, st)
    end
  else (result, st).

(** [redshow_cubin_cache_register] (lines 506-528). *)
Definition redshow_cubin_cache_register (cubin_id_ nsymbols : Z)
    (symbol_pcs : list Z) (path_ : string) (st : State) : redshow_result_t * State :=
  match cubin_cache_map st !! cubin_id_ with
  | None =>
      (REDSHOW_SUCCESS,
       with_cubin_cache_map
         (<[cubin_id_ := mkCubinCache cubin_id_ nsymbols
                           (take (Z.to_nat nsymbols) symbol_pcs) path_]>
            (cubin_cache_map st))
         st)
  | Some _ => (REDSHOW_ERROR_DUPLICATE_ENTRY, st)
  end.

(** [redshow_cubin_unregister] (lines 531-546). *)
Definition redshow_cubin_unregister (cubin_id_ : Z) (st : State)
    : redshow_result_t * State :=
  match cubin_map st !! cubin_id_ with
  | Some _ => (REDSHOW_SUCCESS, with_cubin_map (delete cubin_id_ (cubin_map st)) st)
  | None => (REDSHOW_ERROR_NOT_EXIST_ENTRY, st)
  end.
End Registry.

(** ** The memory snapshot registry *)

(** [memory_map[memory_range].field = ...]: [operator[]] inserts a
    value-initialised [Memory] under the key when no equivalent key is
    there, then the field is assigned. *)
Definition memory_map_assign (r : MemoryRange) (f : Memory -> Memory)
    (m : MemoryMap) : MemoryMap :=
  match m !! start r with
  | Some (key, mem) => <[start r := (key, f mem)]> m
  | None => <[start r := (r, f Memory_default)]> m
  end.

Definition set_memory_range (r : MemoryRange) (mem : Memory) : Memory :=
  mkMemory r (memory_op_id mem) (memory_id mem).
Definition set_memory_id (i : Z) (mem : Memory) : Memory :=
  mkMemory (memory_range mem) (memory_op_id mem) i.
Definition set_memory_op_id (i : Z) (mem : Memory) : Memory :=
  mkMemory (memory_range mem) i (memory_id mem).

Definition add_memory (r : MemoryRange) (host_op_id memory_id_ : Z) (m : MemoryMap)
    : MemoryMap :=
  memory_map_assign r (set_memory_op_id host_op_id)
    (memory_map_assign r (set_memory_id memory_id_)
       (memory_map_assign r (set_memory_range r) m)).

(** [redshow_memory_register] (lines 549-588). *)
Definition redshow_memory_register (start_ end__ host_op_id memory_id_ : Z) (st : State)
    : redshow_result_t * State :=
  let memory_range_ := mkMemoryRange start_ end__ in
  if (size (memory_snapshot st) =? 0)%nat then
    let memory_map := add_memory memory_range_ host_op_id memory_id_ ∅ in
    (REDSHOW_SUCCESS,
     with_memory_snapshot (<[host_op_id := memory_map]> (memory_snapshot st)) st)
  else
    match map_prev (memory_snapshot st) host_op_id with
    | Some (_, memory_map) =>
        match memory_map !! start memory_range_ with
        | None =>
            let memory_map' := add_memory memory_range_ host_op_id memory_id_ memory_map in
            (REDSHOW_SUCCESS,
             with_memory_snapshot (<[host_op_id := memory_map']> (memory_snapshot st)) st)
        | Some _ => (REDSHOW_ERROR_DUPLICATE_ENTRY, st)
        end
    | None => (REDSHOW_ERROR_NOT_EXIST_ENTRY, st)
    end.

(** [redshow_memory_unregister] (lines 591-618). *)
Definition redshow_memory_unregister (start_ end__ host_op_id : Z) (st : State)
    : redshow_result_t * State :=
  let memory_range_ := mkMemoryRange start_ end__ in
  match map_prev (memory_snapshot st) host_op_id with
  | Some (_, memory_map) =>
      match memory_map !! start memory_range_ with
      | Some _ =>
          (REDSHOW_SUCCESS,
           with_memory_snapshot
             (<[host_op_id := delete (start memory_range_) memory_map]> (memory_snapshot st))
             st)
      | None => (REDSHOW_ERROR_NOT_EXIST_ENTRY, st)
      end
  | None => (REDSHOW_ERROR_NOT_EXIST_ENTRY, st)
  end.

(** ** Configuration entry points *)

Definition redshow_analysis_enable (a : redshow_analysis_type_t) (st : State)
    : redshow_result_t * State :=
  (REDSHOW_SUCCESS, with_analysis_enabled ({[a]} ∪ analysis_enabled st) st).

Definition redshow_analysis_disable (a : redshow_analysis_type_t) (st : State)
    : redshow_result_t * State :=
  (REDSHOW_SUCCESS, with_analysis_enabled (analysis_enabled st ∖ {[a]}) st).

(** The two callback setters have no [return] statement: they only
    change the state.  [func] is [true] for a callable argument. *)
Definition redshow_log_data_callback_register (func : bool) (st : State) : State :=
  with_log_data func (log_data_calls st) st.

Definition redshow_record_data_callback_register (func : bool) (pc_views mem_views : Z)
    (st : State) : State :=
  with_record_data func pc_views mem_views st.

Definition redshow_analysis_begin (st : State) : redshow_result_t * State :=
  (REDSHOW_SUCCESS, with_mini_host_op_id 0 st).

(** ** The trace analyzer *)

Section Analyzer.
Variable C : patch_constants.
Variable E : collaborators.

(** [record->active & (0x1u << j)] *)
Definition lane_active (record : gpu_patch_record_t) (j : Z) : bool :=
  flag_set (r_active record) (wrap32 (Z.shiftl 1 j)).

(** [record->flat_thread_id / WARP_SIZE * WARP_SIZE + j], stored in a
    [uint32_t]. *)
Definition lane_thread_id (record : gpu_patch_record_t) (j : Z) : ThreadId :=
  mkThreadId (r_flat_block_id record)
             (wrap32 (r_flat_thread_id record / GPU_PATCH_WARP_SIZE C * GPU_PATCH_WARP_SIZE C + j)).

(** The body of the [BLOCK_EXIT] loop for lane [j]. *)
Definition block_exit_lane (record : gpu_patch_record_t) (k : Kernel) (j : Z) : Kernel :=
  if lane_active record j then
    let thread_id := lane_thread_id record j in
    let k1 := with_read_temporal (delete thread_id (read_temporal_trace k))
                (read_pc_pairs k) k in
    with_write_temporal (delete thread_id (write_temporal_trace k1))
      (write_pc_pairs k1) k1
  else k.

Definition block_exit (record : gpu_patch_record_t) (k : Kernel) : Kernel :=
  foldl (block_exit_lane record) k (seqZ 0 (GPU_PATCH_WARP_SIZE C)).

(** Lines 343-349: the range before [upper_bound(address)] supplies the
    [memory_op_id]. *)
Definition lookup_memory_op_id (memory_map : MemoryMap) (address : Z) : Z :=
  match map_prev memory_map address with
  | Some (_, (_, mem)) => memory_op_id mem
  | None => 0
  end.

(** Lines 343-360. *)
Definition resolve_memory_op_id (memory_map : MemoryMap)
    (record : gpu_patch_record_t) (address : Z) : Z :=
  let memory_op_id_ := lookup_memory_op_id memory_map address in
  if memory_op_id_ =? 0 then
    if flag_set (r_flags record) (GPU_PATCH_LOCAL C) then MEMORY_ID_LOCAL
    else if flag_set (r_flags record) (GPU_PATCH_SHARED C) then MEMORY_ID_SHARED
    else 0
  else memory_op_id_.

(** The access kind of lines 313-332 before the default is applied:
    [None] when [inst_graph->node] throws. *)
Definition graph_access_kind (graph : InstructionGraph)
    (record : gpu_patch_record_t) (cubin_offset_ : Z) : option AccessKind :=
  let access_type := AccessKind_default in
  if negb (graph_size graph =? 0) then
    match node graph (wrap32 cubin_offset_) with
    | Some inst =>
        if flag_set (r_flags record) (GPU_PATCH_READ C)
        then Some (load_data_type E (inst_pc inst) graph)
        else if flag_set (r_flags record) (GPU_PATCH_WRITE C)
        then Some (store_data_type E (inst_pc inst) graph)
        else Some access_type
    | None => None
    end
  else Some access_type.

(** Lines 327-332. *)
Definition default_mode (record : gpu_patch_record_t) (access_type : AccessKind)
    : AccessKind :=
  if bool_decide (type access_type = UNKNOWN) then
    let vec_size_ := wrap32 (r_size record * 8) in
    mkAccessKind vec_size_ (MIN2 (GPU_PATCH_WARP_SIZE C) (wrap32 (vec_size_ * 8))) FLOAT
  else access_type.

Definition record_access_kind (graph : InstructionGraph)
    (record : gpu_patch_record_t) (cubin_offset_ : Z) : option AccessKind :=
  default_mode record <$> graph_access_kind graph record cubin_offset_.

(** The [for (auto analysis : analysis_enabled)] body. *)
Definition apply_analysis (record : gpu_patch_record_t) (thread_id : ThreadId)
    (address value memory_op_id_ : Z) (unit_access_type : AccessKind)
    (k : Kernel) (analysis : redshow_analysis_type_t) : Kernel :=
  match analysis with
  | REDSHOW_ANALYSIS_SPATIAL_REDUNDANCY =>
      if flag_set (r_flags record) (GPU_PATCH_READ C) then
        with_read_spatial_trace
          (get_spatial_trace E (r_pc record) value memory_op_id_ unit_access_type
             (read_spatial_trace k)) k
      else
        with_write_spatial_trace
          (get_spatial_trace E (r_pc record) value memory_op_id_ unit_access_type
             (write_spatial_trace k)) k
  | REDSHOW_ANALYSIS_TEMPORAL_REDUNDANCY =>
      if flag_set (r_flags record) (GPU_PATCH_READ C) then
        let '(t, p) := get_temporal_trace E (r_pc record) thread_id address value
                         unit_access_type (read_temporal_trace k) (read_pc_pairs k) in
        with_read_temporal t p k
      else
        let '(t, p) := get_temporal_trace E (r_pc record) thread_id address value
                         unit_access_type (write_temporal_trace k) (write_pc_pairs k) in
        with_write_temporal t p k
  end.

(** A [std::set] is walked in increasing order. *)
Definition analysis_order (s : gset redshow_analysis_type_t)
    : list redshow_analysis_type_t :=
  filter (fun a => a ∈ s)
    [REDSHOW_ANALYSIS_SPATIAL_REDUNDANCY; REDSHOW_ANALYSIS_TEMPORAL_REDUNDANCY].

(** The body of the loop over the units [m] of one lane. *)
Definition analyze_unit (st : State) (record : gpu_patch_record_t) (j : Z)
    (thread_id : ThreadId) (memory_op_id_ : Z) (unit_access_type : AccessKind)
    (k : Kernel) (m : Z) : Kernel :=
  let byte_size := Z.shiftr (unit_size unit_access_type) 3 in
  let row := default [] (r_value record !! Z.to_nat j) in
  let value0 :=
    wrap64 (le_value (take (Z.to_nat byte_size) (drop (Z.to_nat (m * byte_size)) row))) in
  let value := store2basictype E value0 unit_access_type
                 (decimal_degree_f32 st) (decimal_degree_f64 st) in
  foldl (apply_analysis record thread_id (default 0 (r_address record !! Z.to_nat j))
           value memory_op_id_ unit_access_type)
        k (analysis_order (analysis_enabled st)).

(** The body of the loop over the lanes [j] (lines 335-398). *)
Definition analyze_lane (st : State) (memory_map : MemoryMap)
    (record : gpu_patch_record_t) (access_type : AccessKind)
    (k : Kernel) (j : Z) : progress :=
  if negb (lane_active record j) then Proceed k
  else
    let thread_id := lane_thread_id record j in
    let address := default 0 (r_address record !! Z.to_nat j) in
    let memory_op_id_ := resolve_memory_op_id memory_map record address in
    if memory_op_id_ =? 0 then Proceed k
    else if unit_size access_type =? 0 then Abort integer_division_by_zero k
    else
      let num_units := vec_size access_type / unit_size access_type in
      let unit_access_type :=
        mkAccessKind (unit_size access_type) (unit_size access_type)
                     (type access_type) in
      Proceed (foldl (analyze_unit st record j thread_id memory_op_id_ unit_access_type)
                     k (seqZ 0 num_units)).

Definition analyze_lanes (st : State) (memory_map : MemoryMap)
    (record : gpu_patch_record_t) (access_type : AccessKind) (k : Kernel) : progress :=
  foldl (fun p j => progress_bind p (fun k' => analyze_lane st memory_map record access_type k' j))
        (Proceed k) (seqZ 0 (GPU_PATCH_WARP_SIZE C)).

(** The body of the loop over the records (lines 285-400). *)
Definition analyze_record (st : State) (symbols_ : list Symbol)
    (graph : InstructionGraph) (memory_map : MemoryMap)
    (k : Kernel) (record : gpu_patch_record_t) : progress :=
  if r_size record =? 0 then Proceed k
  else if flag_set (r_flags record) (GPU_PATCH_BLOCK_ENTER_FLAG C) then Proceed k
  else if flag_set (r_flags record) (GPU_PATCH_BLOCK_EXIT_FLAG C)
  then Proceed (block_exit record k)
  else
    let out := (transform_pc symbols_ (r_pc record) (mkPcOut 0 0 0)).2 in
    match record_access_kind graph record (out_cubin_offset out) with
    | None => Abort std_out_of_range k
    | Some access_type => analyze_lanes st memory_map record access_type k
    end.

Definition analyze_records (st : State) (symbols_ : list Symbol)
    (graph : InstructionGraph) (memory_map : MemoryMap)
    (k : Kernel) (rs : list gpu_patch_record_t) : progress :=
  foldl (fun p r => progress_bind p (fun k' => analyze_record st symbols_ graph memory_map k' r))
        (Proceed k) rs.

(** Lines 212-256: the cubin is fetched from the active map, or promoted
    from the cache and fetched again. *)
Definition fetch_cubin (cubin_id_ : Z) (st : State)
    : redshow_result_t * option Cubin * State :=
  match cubin_map st !! cubin_id_ with
  | Some c => (REDSHOW_SUCCESS, Some c, st)
  | None =>
      match cubin_cache_map st !! cubin_id_ with
      | None => (REDSHOW_ERROR_NOT_EXIST_ENTRY, None, st)
      | Some cache =>
          let '(result, st1) :=
            redshow_cubin_register E cubin_id_ (cache_nsymbols cache)
              (cache_symbol_pcs cache) (cache_path cache) st in
          if bool_decide (result = REDSHOW_SUCCESS) then
            match cubin_map st1 !! cubin_id_ with
            | Some c => (REDSHOW_SUCCESS, Some c, st1)
            | None => (REDSHOW_ERROR_NOT_EXIST_ENTRY, None, st1)
            end
          else (result, None, st1)
      end
  end.

(** [trace_analyze] (lines 196-403): the records [0 .. head_index) of the
    buffer are analysed; the buffer holds at least that many.  The two
    counters printed at the end do not reach the state and are left out. *)
Definition trace_analyze (kernel : Kernel) (host_op_id : Z)
    (trace_data : gpu_patch_buffer_t) (st : State)
    : completion redshow_result_t * Kernel * State :=
  let '(result, cubin, st1) := fetch_cubin (kernel_cubin_id kernel) st in
  match cubin with
  | None => (Returns result, kernel, st1)
  | Some c =>
      match map_prev (memory_snapshot st1) host_op_id with
      | None => (Returns REDSHOW_ERROR_NOT_EXIST_ENTRY, kernel, st1)
      | Some (_, memory_map) =>
          match analyze_records st1 (symbols c) (inst_graph c) memory_map kernel
                  (take (Z.to_nat (head_index trace_data)) (records trace_data)) with
          | Proceed k' => (Returns result, k', st1)
          | Abort f k' => (Aborts f, k', st1)
          end
      end
  end.

(** [kernel_map[thread_id][kernel_id]] as an lvalue. *)
Definition kernel_slot (thread_id kernel_id_ : Z) (st : State) : Kernel :=
  default Kernel_default (default ∅ (kernel_map st !! thread_id) !! kernel_id_).

Definition store_kernel (thread_id kernel_id_ : Z) (k : Kernel) (st : State) : State :=
  with_kernel_map
    (<[thread_id := <[kernel_id_ := k]> (default ∅ (kernel_map st !! thread_id))]>
       (kernel_map st))
    st.

(** [redshow_analyze] (lines 633-668).  [mini_host_op_id] is
    thread-local in the source; the model follows one CPU thread. *)
Definition redshow_analyze (thread_id cubin_id_ kernel_id_ host_op_id : Z)
    (trace_data : gpu_patch_buffer_t) (st : State)
    : completion redshow_result_t * State :=
  let kernel := with_kernel_ids kernel_id_ cubin_id_ (kernel_slot thread_id kernel_id_ st) in
  let st0 := store_kernel thread_id kernel_id_ kernel st in
  let '(c, kernel', st1) := trace_analyze kernel host_op_id trace_data st0 in
  let st2 := store_kernel thread_id kernel_id_ kernel' st1 in
  match c with
  | Returns REDSHOW_SUCCESS =>
      if log_data_callback st2 then
        let st3 := with_log_data true
                     (log_data_calls st2 ++ [(kernel_id_, trace_data)]) st2 in
        let st4 :=
          if mini_host_op_id st3 =? 0 then with_mini_host_op_id host_op_id st3
          else with_mini_host_op_id (MIN2 (mini_host_op_id st3) host_op_id) st3 in
        (Returns REDSHOW_SUCCESS, st4)
      else (Returns REDSHOW_ERROR_NOT_REGISTER_CALLBACK, st2)
  | _ => (c, st2)
  end.
End Analyzer.

(** [redshow_analysis_end]: snapshots older than [mini_host_op_id] are
    dropped, except the newest of them. *)
Definition redshow_analysis_end (st : State) : redshow_result_t * State :=
  if negb (mini_host_op_id st =? 0) then
    let ids := filter (fun id => id < mini_host_op_id st)
                 (map fst (map_to_list (memory_snapshot st))) in
    let max_min_host_op_id := foldl (fun acc id => MAX2 id acc) 0 ids in
    let snapshot' :=
      foldl (fun m id => if id =? max_min_host_op_id then m else delete id m)
            (memory_snapshot st) ids in
    (REDSHOW_SUCCESS, with_memory_snapshot snapshot' st)
  else (REDSHOW_ERROR_FAILED_ANALYZE_CUBIN, st).

(** ** The flush ([redshow_flush], lines 715-844)

    What the runtime gets at a flush: [redshow_record_data_t] with its
    views, as far as [redshow.cpp] and [common_lib.h] name their
    fields. *)
Inductive redshow_access_type_t : Set :=
  | REDSHOW_ACCESS_READ
  | REDSHOW_ACCESS_WRITE.

Record redshow_record_view_t : Set := mkRecordView {
  view_function_index : Z;      (* uint32_t *)
  view_pc_offset : Z;           (* uint64_t *)
  view_count : Z
}.

Record redshow_record_data_t : Set := mkRecordData {
  num_views : Z;
  record_analysis_type : redshow_analysis_type_t;
  record_access_type : redshow_access_type_t;
  views : list redshow_record_view_t
}.

Definition with_record_types (a : redshow_analysis_type_t) (d : redshow_access_type_t)
    (record_data : redshow_record_data_t) : redshow_record_data_t :=
  mkRecordData (num_views record_data) a d (views record_data).

Definition with_views (vs : list redshow_record_view_t)
    (record_data : redshow_record_data_t) : redshow_record_data_t :=
  mkRecordData (num_views record_data) (record_analysis_type record_data)
    (record_access_type record_data) vs.

(** The reporters of [common_lib.cpp] turn an accumulator into views;
    they are only declared in these sources.  [redshow_flush] hands the
    spatial one a statistic that it carries from kernel to kernel. *)
Record reporters : Type := mkReporters {
  SpatialStatistic : Type;
  SpatialStatistic_empty : SpatialStatistic;
  record_spatial_trace :
    SpatialTrace -> redshow_record_data_t -> Z -> SpatialStatistic ->
    redshow_record_data_t * SpatialStatistic;
  record_temporal_trace :
    PCPairs -> redshow_record_data_t -> Z -> redshow_record_data_t
}.

(** One invocation of [record_data_callback(cubin_id, kernel_id,
    &record_data)], with the contents of [record_data] at that time. *)
Record record_data_call : Set := mkRecordDataCall {
  call_cubin_id : Z;
  call_kernel_id : Z;
  call_data : redshow_record_data_t
}.

(** [Cubin()], value-initialised by [cubin_map[cubin_id]]. *)
Definition Cubin_default : Cubin := mkCubin 0 "" [] InstructionGraph_empty.

(** The "Transform pcs" loop: the first [num_views] views get the
    function index and the offset that [transform_pc] finds for their
    [pc_offset], and 0 for both when it fails. *)
Definition transform_view (symbols_ : list Symbol) (v : redshow_record_view_t)
    : redshow_record_view_t :=
  let out := (transform_pc symbols_ (view_pc_offset v) (mkPcOut 0 0 0)).2 in
  mkRecordView (out_function_index out) (out_pc_offset out) (view_count v).

Definition transform_views (symbols_ : list Symbol) (record_data : redshow_record_data_t)
    : redshow_record_data_t :=
  with_views
    (foldl (fun vs i => alter (transform_view symbols_) i vs) (views record_data)
       (seq 0 (Z.to_nat (num_views record_data))))
    record_data.

(** A [std::map] is walked in increasing order of its keys. *)
Definition kernel_key_le (a b : Z * Kernel) : Prop := a.1 <= b.1.

Global Instance kernel_key_le_dec : RelDecision kernel_key_le.
Proof. intros a b. unfold kernel_key_le. apply _. Defined.

Definition kernels_in_order (m : gmap Z Kernel) : list (Z * Kernel) :=
  merge_sort kernel_key_le (map_to_list m).

Section Flush.
Variable F : reporters.

(** The locals of [redshow_flush] while it runs, the calls made so far
    and the failure that ended it, if any. *)
Record flush_progress : Type := mkFlushProgress {
  fp_record_data : redshow_record_data_t;
  fp_spatial_read_statistic : SpatialStatistic F;
  fp_spatial_write_statistic : SpatialStatistic F;
  fp_calls : list record_data_call;
  fp_failure : option failure
}.

Definition unless_failed (step : flush_progress -> flush_progress) (p : flush_progress)
    : flush_progress :=
  match fp_failure p with
  | Some _ => p
  | None => step p
  end.

(** [record_data_callback(cubin_id, kernel_id, &record_data)]. *)
Definition call_record_data (st : State) (cubin_id_ kernel_id_ : Z) (p : flush_progress)
    : flush_progress :=
  if record_data_callback st
  then mkFlushProgress (fp_record_data p) (fp_spatial_read_statistic p)
         (fp_spatial_write_statistic p)
         (fp_calls p ++ [mkRecordDataCall cubin_id_ kernel_id_ (fp_record_data p)])
         None
  else mkFlushProgress (fp_record_data p) (fp_spatial_read_statistic p)
         (fp_spatial_write_statistic p) (fp_calls p) (Some null_function_call).

Definition report_spatial_read (st : State) (symbols_ : list Symbol)
    (cubin_id_ kernel_id_ : Z) (kernel : Kernel) (p : flush_progress) : flush_progress :=
  let record_data :=
    with_record_types REDSHOW_ANALYSIS_SPATIAL_REDUNDANCY REDSHOW_ACCESS_READ
      (fp_record_data p) in
  let '(record_data', statistic) :=
    record_spatial_trace F (read_spatial_trace kernel) record_data (pc_views_limit st)
      (fp_spatial_read_statistic p) in
  call_record_data st cubin_id_ kernel_id_
    (mkFlushProgress (transform_views symbols_ record_data') statistic
       (fp_spatial_write_statistic p) (fp_calls p) None).

Definition report_spatial_write (st : State) (symbols_ : list Symbol)
    (cubin_id_ kernel_id_ : Z) (kernel : Kernel) (p : flush_progress) : flush_progress :=
  let record_data :=
    with_record_types REDSHOW_ANALYSIS_SPATIAL_REDUNDANCY REDSHOW_ACCESS_WRITE
      (fp_record_data p) in
  let '(record_data', statistic) :=
    record_spatial_trace F (write_spatial_trace kernel) record_data (pc_views_limit st)
      (fp_spatial_write_statistic p) in
  call_record_data st cubin_id_ kernel_id_
    (mkFlushProgress (transform_views symbols_ record_data')
       (fp_spatial_read_statistic p) statistic (fp_calls p) None).

Definition report_temporal (access : redshow_access_type_t) (pc_pairs : PCPairs)
    (st : State) (symbols_ : list Symbol) (cubin_id_ kernel_id_ : Z) (p : flush_progress)
    : flush_progress :=
  let record_data :=
    with_record_types REDSHOW_ANALYSIS_TEMPORAL_REDUNDANCY access (fp_record_data p) in
  let record_data' := record_temporal_trace F pc_pairs record_data (pc_views_limit st) in
  call_record_data st cubin_id_ kernel_id_
    (mkFlushProgress (transform_views symbols_ record_data')
       (fp_spatial_read_statistic p) (fp_spatial_write_statistic p) (fp_calls p) None).

(** The body of [for (auto analysis : analysis_enabled)]: the read
    report, then the write report.  The two sums printed in the temporal
    branch do not reach the state and are left out. *)
Definition flush_analysis (st : State) (symbols_ : list Symbol) (cubin_id_ kernel_id_ : Z)
    (kernel : Kernel) (p : flush_progress) (analysis : redshow_analysis_type_t)
    : flush_progress :=
  match analysis with
  | REDSHOW_ANALYSIS_SPATIAL_REDUNDANCY =>
      unless_failed (report_spatial_write st symbols_ cubin_id_ kernel_id_ kernel)
        (unless_failed (report_spatial_read st symbols_ cubin_id_ kernel_id_ kernel) p)
  | REDSHOW_ANALYSIS_TEMPORAL_REDUNDANCY =>
      unless_failed
        (report_temporal REDSHOW_ACCESS_WRITE (write_pc_pairs kernel) st symbols_
           cubin_id_ kernel_id_)
        (unless_failed
           (report_temporal REDSHOW_ACCESS_READ (read_pc_pairs kernel) st symbols_
              cubin_id_ kernel_id_) p)
  end.

(** The body of [for (auto &kernel_iter : thread_kernel_map)].
    [cubin_map[cubin_id]] creates an entry for a cubin that is not
    active. *)
Definition flush_kernel (st : State) (acc : gmap Z Cubin * flush_progress)
    (kernel_iter : Z * Kernel) : gmap Z Cubin * flush_progress :=
  let '(cubins, p) := acc in
  match fp_failure p with
  | Some _ => acc
  | None =>
      let kernel_id_ := kernel_iter.1 in
      let kernel := kernel_iter.2 in
      let cubin_id_ := kernel_cubin_id kernel in
      let cubins' :=
        match cubins !! cubin_id_ with
        | Some _ => cubins
        | None => <[cubin_id_ := Cubin_default]> cubins
        end in
      let symbols_ := symbols (default Cubin_default (cubins !! cubin_id_)) in
      (cubins',
       foldl (flush_analysis st symbols_ cubin_id_ kernel_id_ kernel) p
         (analysis_order (analysis_enabled st)))
  end.

(** [redshow_flush(thread_id)].  [record_data] is not initialised and its
    [views] array is fresh: [fresh] stands for those indeterminate
    contents.  The function has no [return] statement: the model gives
    how it ends, the callback invocations in their order and the state
    it leaves.  The two calls of [show_spatial_trace] (debug output) are
    left out. *)
Definition redshow_flush (fresh : redshow_record_data_t) (thread_id : Z) (st : State)
    : completion unit * list record_data_call * State :=
  let thread_kernel_map := default ∅ (kernel_map st !! thread_id) in
  let p0 :=
    mkFlushProgress fresh (SpatialStatistic_empty F) (SpatialStatistic_empty F) [] None in
  let '(cubins, p) :=
    foldl (flush_kernel st) (cubin_map st, p0) (kernels_in_order thread_kernel_map) in
  match fp_failure p with
  | Some f =>
      (Aborts f, fp_calls p,
       with_kernel_map (<[thread_id := thread_kernel_map]> (kernel_map st))
         (with_cubin_map cubins st))
  | None =>
      (Returns tt, fp_calls p,
       with_kernel_map (delete thread_id (kernel_map st)) (with_cubin_map cubins st))
  end.
End Flush.

(** ** [compute_memcpy_redundancy<true>] ([operation/memcpy.cpp]) *)

(** [same += 1] on the [double] counter.  The counter only holds
    integers; binary64 represents every integer up to [2 ^ 53], and
    [2 ^ 53 + 1] rounds back to [2 ^ 53] (ties go to the even mantissa). *)
Definition double_add_one (same : Z) : Z :=
  if same <? 2 ^ 53 then same + 1 else same.

(** The loop from index [i], with [n] iterations left. *)
Fixpoint memcpy_redundancy_loop (n i : nat) (dst src : list Byte.byte) (same : Z)
    : Z * list Byte.byte :=
  match n with
  | O => (same, dst)
  | S n' =>
      match dst !! i, src !! i with
      | Some d, Some s =>
          if Byte.eqb d s
          then memcpy_redundancy_loop n' (S i) dst src (double_add_one same)
          else memcpy_redundancy_loop n' (S i) (<[i := s]> dst) src same
      | _, _ => (same, dst)
      end
  end.

(** [dst] and [src] are the two buffers; the result is the returned count
    (the [double] converted to [u64]) and the final [dst]. *)
Definition compute_memcpy_redundancy_true (dst src : list Byte.byte) (len : nat)
    : Z * list Byte.byte :=
  memcpy_redundancy_loop len 0 dst src 0.

(** ** Collaborators for the examples

    No [.inst] file can be opened, type inference answers [UNKNOWN],
    values are kept as they are and the accumulator updates do nothing. *)
Definition absent_inst_files : collaborators :=
  mkCollaborators
    (fun _ => false)
    (fun _ v g => (false, v, g))
    (fun _ _ => AccessKind_default)
    (fun _ _ => AccessKind_default)
    (fun value _ _ _ => value)
    (fun _ _ _ _ t => t)
    (fun _ _ _ _ _ t p => (t, p)).

(** ** Vocabulary of the statements *)

(** [kb] is the greatest key of [m] that is not above [k]. *)
Definition greatest_key_le {V : Type} (m : gmap Z V) (k kb : Z) (v : V) : Prop :=
  m !! kb = Some v /\ kb <= k /\
  forall k', is_Some (m !! k') -> k' <= k -> k' <= kb.

Definition same_but_temporal (k k' : Kernel) : Prop :=
  kernel_id k' = kernel_id k /\ kernel_cubin_id k' = kernel_cubin_id k /\
  func_index k' = func_index k /\ func_addr k' = func_addr k /\
  read_spatial_trace k' = read_spatial_trace k /\
  write_spatial_trace k' = write_spatial_trace k /\
  read_pc_pairs k' = read_pc_pairs k /\
  write_pc_pairs k' = write_pc_pairs k.

Definition kernel_ids (k : Kernel) : Z * Z := (kernel_id k, kernel_cubin_id k).

Definition progress_kernel (p : progress) : Kernel :=
  match p with Proceed k => k | Abort _ k => k end.

Definition same_accumulators (k k' : Kernel) : Prop :=
  read_spatial_trace k' = read_spatial_trace k /\
  write_spatial_trace k' = write_spatial_trace k /\
  read_temporal_trace k' = read_temporal_trace k /\
  read_pc_pairs k' = read_pc_pairs k /\
  write_temporal_trace k' = write_temporal_trace k /\
  write_pc_pairs k' = write_pc_pairs k.

(** [kernel_map[thread_id][kernel_id]] as a look-up that creates nothing. *)
Definition kernel_entry (thread_id kernel_id_ : Z) (st : State) : option Kernel :=
  kernel_map st !! thread_id ≫= fun m => m !! kernel_id_.

(** A cubin that [trace_analyze] can fetch: it is active, or it is in
    the cache and [cubin_analyze] reads its [.inst] file successfully. *)
Definition analyzable (E : collaborators) (cubin_id_ : Z) (st : State) : Prop :=
  is_Some (cubin_map st !! cubin_id_) \/
  exists cache, cubin_cache_map st !! cubin_id_ = Some cache /\
    (cubin_analyze E (cache_path cache)
       (replicate (Z.to_nat (cache_nsymbols cache)) Symbol_default)
       InstructionGraph_empty).1.1 = REDSHOW_SUCCESS.

(** The four accumulators that [redshow_flush] reports from are empty. *)
Definition no_accesses (k : Kernel) : Prop :=
  read_spatial_trace k = ∅ /\ write_spatial_trace k = ∅ /\
  read_pc_pairs k = ∅ /\ write_pc_pairs k = ∅.

(** The reporters find no view in an empty accumulator. *)
Definition empty_reports_nothing (F : reporters) : Prop :=
  (forall record_data limit statistic,
     num_views (record_spatial_trace F ∅ record_data limit statistic).1 = 0) /\
  (forall record_data limit,
     num_views (record_temporal_trace F ∅ record_data limit) = 0).

(** Every call made so far for [kernel_id_] carries no view. *)
Definition silent_for (F : reporters) (kernel_id_ : Z) (p : flush_progress F) : Prop :=
  forall c, c ∈ fp_calls F p -> call_kernel_id c = kernel_id_ ->
            num_views (call_data c) = 0.

(** The number of indices below [len] at which the two buffers agree. *)
Definition equal_bytes (dst src : list Byte.byte) (len : nat) : nat :=
  length (filter (fun i => dst !! i = src !! i) (seq 0 len)).

(** ** Inputs of the examples *)

(** One allocation [[0x1000, 0x2000)] made by host op 10, and a global
    read of four bytes by lane 0 at address [0x3000], past its end. *)
Definition one_allocation : MemoryMap :=
  {[0x1000 := (mkMemoryRange 0x1000 0x2000,
               mkMemory (mkMemoryRange 0x1000 0x2000) 10 42)]}.

Definition read_past_the_end : gpu_patch_record_t :=
  mkRecord 0x1010 4 0x1 0 0 (GPU_PATCH_READ gpu_patch) [0x3000]
           [[x00; x00; x80; xbf]%byte].

(** A global read by lane 0 inside the allocation whose [size] field is
    [2 ^ 26]: in 32 bits [size * 8 * 8] is 0. *)
Definition oversized_read : gpu_patch_record_t :=
  mkRecord 0x1010 (2 ^ 26) 0x1 0 0 (GPU_PATCH_READ gpu_patch) [0x1100]
           [[x00; x00; x80; xbf]%byte].

(** The same read, flagged as an access to local memory. *)
Definition local_read_past_the_end : gpu_patch_record_t :=
  mkRecord 0x1010 4 0x1 0 0
           (Z.lor (GPU_PATCH_READ gpu_patch) (GPU_PATCH_LOCAL gpu_patch)) [0x3000]
           [[x00; x00; x80; xbf]%byte].

(** Cubin 1 is active with one symbol at [0x1000] and a graph that holds
    the single instruction at offset [0x10]; one snapshot exists and the
    log callback is set. *)
Definition one_instruction_graph : InstructionGraph :=
  add_node 0x10 (mkInstruction "LDG.E" 0x10 0 [2] [4] ∅ None) InstructionGraph_empty.

Definition one_cubin_state : State :=
  redshow_log_data_callback_register true
    (redshow_memory_register 0x1000 0x2000 10 42
       (with_cubin_map
          {[1 := mkCubin 1 "/tmp/cubins/a.cubin" [mkSymbol 0 0 0x1000]
                   one_instruction_graph]}
          initial_state)).2.

(** One read whose [pc] lies below the only symbol. *)
Definition untranslatable_read : gpu_patch_buffer_t :=
  mkBuffer 1 [mkRecord 0x800 4 0x1 0 0 (GPU_PATCH_READ gpu_patch) [0x1100]
                       [[x00; x00; x80; xbf]%byte]].

(** The kernel of the block-exit examples: thread (0, 0) has read address
    [0x1100] at pc [0x1010]. *)
Definition kernel_with_history : Kernel :=
  with_read_temporal {[mkThreadId 0 0 := {[0x1100 := (0x1010, 5)]}]} ∅ Kernel_default.

Definition block_exit_record (size_ : Z) : gpu_patch_record_t :=
  mkRecord 0x1020 size_ 0x1 0 0 (GPU_PATCH_BLOCK_EXIT_FLAG gpu_patch) [] [].

(** The state of the empty-buffer examples: cubin 1 is active (registered
    without an [.inst] file). *)
Definition registered_cubin_state : State :=
  (redshow_cubin_register absent_inst_files 1 1 [0x1000] "/tmp/cubins/a.cubin"
     initial_state).2.

Definition empty_buffer : gpu_patch_buffer_t := mkBuffer 0 [].

(** Every [.inst] file can be opened and parses, leaving the symbols and
    the graph as they are. *)
Definition readable_inst_files : collaborators :=
  mkCollaborators
    (fun _ => true)
    (fun _ v g => (true, v, g))
    (fun _ _ => AccessKind_default)
    (fun _ _ => AccessKind_default)
    (fun value _ _ _ => value)
    (fun _ _ _ _ t => t)
    (fun _ _ _ _ _ t p => (t, p)).

(** Reporters that report one view per entry of the accumulator, up to
    the limit, and count the entries in the statistic. *)
Definition counting_reporters : reporters :=
  mkReporters Z 0
    (fun trace record_data limit statistic =>
       (mkRecordData (Z.of_nat (Nat.min (Z.to_nat limit) (size trace)))
          (record_analysis_type record_data) (record_access_type record_data)
          (views record_data),
        statistic + Z.of_nat (size trace)))
    (fun pc_pairs record_data limit =>
       mkRecordData (Z.of_nat (Nat.min (Z.to_nat limit) (size pc_pairs)))
         (record_analysis_type record_data) (record_access_type record_data)
         (views record_data)).

Definition fresh_record_data : redshow_record_data_t :=
  mkRecordData 99 REDSHOW_ANALYSIS_TEMPORAL_REDUNDANCY REDSHOW_ACCESS_WRITE [].

(** Cubin 7 is in the cache only; one snapshot exists, both callbacks are
    set and the spatial analysis is enabled. *)
Definition cached_ready_state : State :=
  redshow_record_data_callback_register true 10 10
    (redshow_analysis_enable REDSHOW_ANALYSIS_SPATIAL_REDUNDANCY
       (redshow_log_data_callback_register true
          (redshow_memory_register 0x1000 0x2000 10 42
             (redshow_cubin_cache_register 7 1 [0x1000] "/tmp/cubins/a.cubin"
                initial_state).2).2)).2.

(** The length of the buffers of the counterexample, one byte more than
    the counter can tell. *)
Definition past_double_precision : nat := Z.to_nat (2 ^ 53 + 1).

(** ** Further operations of the sources *)

(** [AccessKind::operator<]: by [vec_size], then [unit_size], then
    [type]. *)
Definition AccessKind_lt (a b : AccessKind) : bool :=
  if vec_size a =? vec_size b then
    if unit_size a =? unit_size b
    then DataType_to_Z (type a) <? DataType_to_Z (type b)
    else unit_size a <? unit_size b
  else vec_size a <? vec_size b.

(** [ThreadId::operator<] and [ThreadId::operator==]. *)
Definition ThreadId_lt (a o : ThreadId) : bool :=
  (flat_block_id a <? flat_block_id o) ||
  ((flat_block_id a =? flat_block_id o) && (flat_thread_id a <? flat_thread_id o)).

Definition ThreadId_eq (a o : ThreadId) : bool :=
  (flat_thread_id a =? flat_thread_id o) && (flat_block_id a =? flat_block_id o).

(** [RealPC] and [RealPC::operator<] ([binutils/real_pc.h]). *)
Record RealPC : Set := mkRealPC {
  real_cubin_id : Z;          (* u32 cubin_id *)
  real_function_index : Z;    (* u32 function_index *)
  real_pc_offset : Z          (* u64 pc_offset *)
}.

Definition RealPC_lt (a other : RealPC) : bool :=
  if real_cubin_id a =? real_cubin_id other then
    if real_function_index a =? real_function_index other
    then real_pc_offset a <? real_pc_offset other
    else real_function_index a <? real_function_index other
  else real_cubin_id a <? real_cubin_id other.

(** [InstructionGraph::add_edge]: [operator[]] creates the neighbour set
    when the node has none yet. *)
Definition add_edge (from to : Z) (g : InstructionGraph) : InstructionGraph :=
  mkInstructionGraph
    (<[to := {[from]} ∪ default ∅ (_incoming_nodes g !! to)]> (_incoming_nodes g))
    (<[from := {[to]} ∪ default ∅ (_outgoing_nodes g !! from)]> (_outgoing_nodes g))
    (_nodes g).

(** [InstructionGraph::outgoing_nodes] and [incoming_nodes] are
    [std::map::at]: [None] stands for the exception. *)
Definition outgoing_nodes (g : InstructionGraph) (p : Z) : option (gset Z) :=
  _outgoing_nodes g !! p.

Definition incoming_nodes (g : InstructionGraph) (p : Z) : option (gset Z) :=
  _incoming_nodes g !! p.

(** [InstructionGraph::outgoing_nodes_size] and [incoming_nodes_size]. *)
Definition outgoing_nodes_size (g : InstructionGraph) (p : Z) : Z :=
  match _outgoing_nodes g !! p with
  | None => 0
  | Some s => Z.of_nat (size s)
  end.

Definition incoming_nodes_size (g : InstructionGraph) (p : Z) : Z :=
  match _incoming_nodes g !! p with
  | None => 0
  | Some s => Z.of_nat (size s)
  end.

(** [compute_memcpy_redundancy<false>]: the loop from index [i], with [n]
    iterations left; the buffers are only read. *)
Fixpoint memcpy_compare_loop (n i : nat) (dst src : list Byte.byte) (same : Z) : Z :=
  match n with
  | O => same
  | S n' =>
      match dst !! i, src !! i with
      | Some d, Some s =>
          if Byte.eqb d s
          then memcpy_compare_loop n' (S i) dst src (double_add_one same)
          else memcpy_compare_loop n' (S i) dst src same
      | _, _ => same
      end
  end.

Definition compute_memcpy_redundancy_false (dst src : list Byte.byte) (len : nat) : Z :=
  memcpy_compare_loop len 0 dst src 0.

(** *** The two variants on one memory

    [dst_start] and [src_start] are addresses into one memory, here the
    list of its bytes from address 0: the two ranges may overlap, and a
    byte stored through [dst_ptr] is the byte read later through
    [src_ptr] at the same address.  An address outside the memory ends
    the loop. *)
Fixpoint memcpy_redundancy_loop_at (n i : nat) (dst_start src_start : nat)
    (memory : list Byte.byte) (same : Z) : Z * list Byte.byte :=
  match n with
  | O => (same, memory)
  | S n' =>
      match memory !! (dst_start + i)%nat, memory !! (src_start + i)%nat with
      | Some d, Some s =>
          if Byte.eqb d s
          then memcpy_redundancy_loop_at n' (S i) dst_start src_start memory
                 (double_add_one same)
          else memcpy_redundancy_loop_at n' (S i) dst_start src_start
                 (<[(dst_start + i)%nat := s]> memory) same
      | _, _ => (same, memory)
      end
  end.

Definition compute_memcpy_redundancy_true_at (memory : list Byte.byte)
    (dst_start src_start len : nat) : Z * list Byte.byte :=
  memcpy_redundancy_loop_at len 0 dst_start src_start memory 0.

Fixpoint memcpy_compare_loop_at (n i : nat) (dst_start src_start : nat)
    (memory : list Byte.byte) (same : Z) : Z :=
  match n with
  | O => same
  | S n' =>
      match memory !! (dst_start + i)%nat, memory !! (src_start + i)%nat with
      | Some d, Some s =>
          if Byte.eqb d s
          then memcpy_compare_loop_at n' (S i) dst_start src_start memory
                 (double_add_one same)
          else memcpy_compare_loop_at n' (S i) dst_start src_start memory same
      | _, _ => same
      end
  end.

Definition compute_memcpy_redundancy_false_at (memory : list Byte.byte)
    (dst_start src_start len : nat) : Z :=
  memcpy_compare_loop_at len 0 dst_start src_start memory 0.

(** The enumerators of [redshow_approx_level_t] ([redshow.h]); a [switch]
    needs them pairwise distinct. *)
Record approx_levels : Set := mkApproxLevels {
  REDSHOW_APPROX_NONE : Z;
  REDSHOW_APPROX_MIN : Z;
  REDSHOW_APPROX_LOW : Z;
  REDSHOW_APPROX_MID : Z;
  REDSHOW_APPROX_HIGH : Z;
  REDSHOW_APPROX_MAX : Z
}.

(** [redshow_approx_level_config] (lines 416-450). *)
Definition redshow_approx_level_config (L : approx_levels) (level : Z) (st : State)
    : redshow_result_t * State :=
  if level =? REDSHOW_APPROX_NONE L
  then (REDSHOW_SUCCESS, with_decimal_degrees VALID_FLOAT_DIGITS VALID_DOUBLE_DIGITS st)
  else if level =? REDSHOW_APPROX_MIN L
  then (REDSHOW_SUCCESS, with_decimal_degrees 20 46 st)
  else if level =? REDSHOW_APPROX_LOW L
  then (REDSHOW_SUCCESS, with_decimal_degrees 17 40 st)
  else if level =? REDSHOW_APPROX_MID L
  then (REDSHOW_SUCCESS, with_decimal_degrees 14 34 st)
  else if level =? REDSHOW_APPROX_HIGH L
  then (REDSHOW_SUCCESS, with_decimal_degrees 11 28 st)
  else if level =? REDSHOW_APPROX_MAX L
  then (REDSHOW_SUCCESS, with_decimal_degrees 8 22 st)
  else (REDSHOW_ERROR_NO_SUCH_APPROX, st).

(** ** Vocabulary of the further statements *)

(** A strict total order, what [std::map] asks of a key comparison whose
    equivalence is equality. *)
Definition strict_total_order {A : Type} (lt : A -> A -> bool) : Prop :=
  (forall a, lt a a = false) /\
  (forall a b c, lt a b = true -> lt b c = true -> lt a c = true) /\
  (forall a b, lt a b = true \/ a = b \/ lt b a = true).

(** [from -> to] is recorded among the outgoing, respectively incoming,
    neighbours. *)
Definition out_edge (g : InstructionGraph) (from to : Z) : Prop :=
  exists s, outgoing_nodes g from = Some s /\ to ∈ s.

Definition in_edge (g : InstructionGraph) (from to : Z) : Prop :=
  exists s, incoming_nodes g to = Some s /\ from ∈ s.

Definition edges_symmetric (g : InstructionGraph) : Prop :=
  forall from to, out_edge g from to <-> in_edge g from to.

(** Every entry of the snapshot keyed [h] sits under the start of its
    range, repeats that range in its value, and was made by a host
    operation not later than [h]. *)
Definition memory_map_wf (h : Z) (m : MemoryMap) : Prop :=
  forall k r mem, m !! k = Some (r, mem) ->
    start r = k /\ memory_range mem = r /\ memory_op_id mem <= h.

Definition snapshots_wf (st : State) : Prop :=
  forall h m, memory_snapshot st !! h = Some m -> memory_map_wf h m.

(** The symbols a cubin gets from the PCs alone. *)
Definition symbols_of_pcs (symbol_pcs : list Z) : list Symbol :=
  sort_symbols (Symbol_of_pc <$> symbol_pcs).


(** Cubin 7 is only in the cache. *)
Definition cached_cubin_state : State :=
  (redshow_cubin_cache_register 7 1 [0x1000] "/tmp/cubins/a.cubin" initial_state).2.

(** The snapshot left by registering [[0x1000, 0x2000)] under host
    operation 5. *)
Definition one_allocation_at_5 : MemoryMap :=
  {[0x1000 := (mkMemoryRange 0x1000 0x2000,
               mkMemory (mkMemoryRange 0x1000 0x2000) 5 42)]}.

(** Snapshots under host operations 3, 7 and 15 (all empty), with an
    analysis recorded at host operation 10. *)
Definition three_snapshots_state : State :=
  with_mini_host_op_id 10
    (with_memory_snapshot (<[3 := ∅]> (<[7 := ∅]> (<[15 := ∅]> ∅))) initial_state).

(** Cubin 1 active, one snapshot under host operation 10, the log
    callback set. *)
Definition ready_state : State :=
  redshow_log_data_callback_register true
    (redshow_memory_register 0x1000 0x2000 10 42 registered_cubin_state).2.

(** [k'] is [k] with some threads erased from the temporal traces. *)
Definition only_erased (k k' : Kernel) : Prop :=
  same_but_temporal k k' /\
  (forall tid v, read_temporal_trace k' !! tid = Some v ->
                 read_temporal_trace k !! tid = Some v) /\
  (forall tid v, write_temporal_trace k' !! tid = Some v ->
                 write_temporal_trace k !! tid = Some v).

(** A two-byte global read by lane 0 inside the allocation of
    [one_allocation]. *)
Definition short_read : gpu_patch_record_t :=
  mkRecord 0x1010 2 0x1 0 0 (GPU_PATCH_READ gpu_patch) [0x1100] [[x34; x12]%byte].

(** The string holds the character. *)
Fixpoint string_has (c : ascii) (s : string) : bool :=
  match s with
  | EmptyString => false
  | String a s' => Ascii.eqb a c || string_has c s'
  end.

(** * Properties *)

(** ** PC translation *)

Section upper_bound_facts.
Variable v : list Symbol.
Variable val : Symbol.
Hypothesis Hmono : forall i j si sj, (i <= j)%nat ->
  v !! i = Some si -> v !! j = Some sj ->
  Symbol_lt val si = true -> Symbol_lt val sj = true.

Lemma upper_bound_loop_partition fuel : forall first len,
  (len <= fuel)%nat -> (first + len <= length v)%nat ->
  (forall j s, (j < first)%nat -> v !! j = Some s -> Symbol_lt val s = false) ->
  (forall j s, (first + len <= j)%nat -> v !! j = Some s -> Symbol_lt val s = true) ->
  let r := upper_bound_loop fuel v val first len in
  (first <= r <= first + len)%nat /\
  (forall j s, (j < r)%nat -> v !! j = Some s -> Symbol_lt val s = false) /\
  (forall j s, (r <= j)%nat -> v !! j = Some s -> Symbol_lt val s = true).
Proof.
  induction fuel as [|fuel IH]; intros first len Hfuel Hlen Hlo Hhi; simpl.
  - assert (len = 0%nat) by lia. subst len.
    split; [lia|]. split; [exact Hlo|]. intros j s Hj. apply Hhi. lia.
  - destruct (0 <? len)%nat eqn:Hpos.
    + apply Nat.ltb_lt in Hpos.
      assert (Nat.div2 len < len)%nat as Hlt by (apply Nat.lt_div2; lia).
      generalize dependent (Nat.div2 len). intros half Hlt.
      destruct (v !! (first + half)%nat) as [s|] eqn:Hmid.
      * destruct (Symbol_lt val s) eqn:Hcmp.
        -- specialize (IH first half).
           destruct IH as (Hr & Hl & Hh); [lia|lia|exact Hlo| |].
           ++ intros j sj Hj Hsj. eapply Hmono; [|exact Hmid|exact Hsj|exact Hcmp]. lia.
           ++ split; [lia|]. split; assumption.
        -- specialize (IH (first + half + 1)%nat (len - half - 1)%nat).
           destruct IH as (Hr & Hl & Hh); [lia|lia| | |].
           ++ intros j sj Hj Hsj.
              destruct (Symbol_lt val sj) eqn:Hsjlt; [|reflexivity].
              rewrite <- Hcmp. symmetry.
              eapply Hmono; [|exact Hsj|exact Hmid|exact Hsjlt]. lia.
           ++ intros j sj Hj Hsj. eapply Hhi; [|exact Hsj]. lia.
           ++ split; [lia|]. split; assumption.
      * apply lookup_ge_None in Hmid. lia.
    + apply Nat.ltb_ge in Hpos. assert (len = 0%nat) by lia. subst len.
      split; [lia|]. split; [exact Hlo|]. intros j s Hj. apply Hhi. lia.
Qed.

Lemma upper_bound_partition :
  let r := upper_bound v val in
  (r <= length v)%nat /\
  (forall j s, (j < r)%nat -> v !! j = Some s -> Symbol_lt val s = false) /\
  (forall j s, (r <= j)%nat -> v !! j = Some s -> Symbol_lt val s = true).
Proof.
  unfold upper_bound.
  assert (Hlo : forall j s, (j < 0)%nat -> v !! j = Some s -> Symbol_lt val s = false)
    by (intros j s Hj; lia).
  assert (Hhi : forall j s, (0 + length v <= j)%nat -> v !! j = Some s ->
                            Symbol_lt val s = true).
  { intros j s Hj Hs. apply lookup_lt_Some in Hs. lia. }
  pose proof (upper_bound_loop_partition (length v) 0%nat (length v)
                (Nat.le_refl _) (Nat.le_refl _) Hlo Hhi) as (Hr & Hl & Hh).
  split; [lia|]. split; assumption.
Qed.
End upper_bound_facts.

Lemma symbols_sorted_partitioned (v : list Symbol) (p : Z) :
  symbols_sorted v ->
  forall i j si sj, (i <= j)%nat -> v !! i = Some si -> v !! j = Some sj ->
    Symbol_lt (Symbol_of_pc p) si = true -> Symbol_lt (Symbol_of_pc p) sj = true.
Proof.
  intros Hsorted i j si sj Hij Hi Hj. unfold Symbol_lt. simpl.
  rewrite !Z.ltb_lt. intros Hp.
  destruct (decide (i = j)) as [->|Hne].
  - rewrite Hi in Hj. injection Hj as ->. exact Hp.
  - pose proof (Hsorted i j si sj ltac:(lia) Hi Hj). lia.
Qed.

(** Where the binary search stops on a sorted vector: just after the
    symbol whose range holds [p]. *)
Lemma upper_bound_sorted (v : list Symbol) (i : nat) (s : Symbol) (p : Z) :
  symbols_sorted v -> v !! i = Some s -> pc s <= p ->
  (forall s', v !! S i = Some s' -> p < pc s') ->
  upper_bound v (Symbol_of_pc p) = S i.
Proof.
  intros Hsorted Hi Hle Hnext.
  destruct (upper_bound_partition v (Symbol_of_pc p)
              (symbols_sorted_partitioned v p Hsorted)) as (Hlen & Hlo & Hhi).
  set (r := upper_bound v (Symbol_of_pc p)) in *.
  assert (i < r)%nat as Hir.
  { destruct (decide (i < r)%nat) as [|Hge]; [assumption|].
    pose proof (Hhi i s ltac:(lia) Hi) as Hlt.
    unfold Symbol_lt in Hlt. simpl in Hlt. apply Z.ltb_lt in Hlt. lia. }
  assert (r <= S i)%nat as Hri.
  { destruct (v !! S i) as [s'|] eqn:Hsi.
    - destruct (decide (r <= S i)%nat) as [|Hgt]; [assumption|].
      pose proof (Hlo (S i) s' ltac:(lia) Hsi) as Hge.
      unfold Symbol_lt in Hge. simpl in Hge. apply Z.ltb_ge in Hge.
      pose proof (Hnext s' eq_refl). lia.
    - apply lookup_ge_None in Hsi. lia. }
  lia.
Qed.

Lemma upper_bound_below_first (v : list Symbol) (p : Z) :
  symbols_sorted v ->
  (forall s0, v !! 0%nat = Some s0 -> p < pc s0) ->
  upper_bound v (Symbol_of_pc p) = 0%nat.
Proof.
  intros Hsorted Hfirst.
  destruct (upper_bound_partition v (Symbol_of_pc p)
              (symbols_sorted_partitioned v p Hsorted)) as (Hlen & Hlo & Hhi).
  set (r := upper_bound v (Symbol_of_pc p)) in *.
  destruct r as [|r']; [reflexivity|].
  destruct (v !! 0%nat) as [s0|] eqn:H0.
  - pose proof (Hlo 0%nat s0 ltac:(lia) H0) as Hge.
    unfold Symbol_lt in Hge. simpl in Hge. apply Z.ltb_ge in Hge.
    pose proof (Hfirst s0 eq_refl). lia.
  - apply lookup_ge_None in H0. lia.
Qed.

(** C5, as the code has it: on a vector sorted strictly by [pc], a [pc]
    inside the range of the symbol at position [i] (at offset [k], with
    [symbol.pc + k] a 64-bit value below the next symbol's [pc], if any)
    is translated with success to that symbol's own [index] field, the
    64-bit sum of its [cubin_offset] and [k], and [k]; a [pc] below the
    first symbol (or any [pc] on an empty vector) fails with
    [NOT_EXIST_ENTRY] and leaves the three outputs as they were. *)
Theorem transform_pc_round_trip (v : list Symbol) (out : pc_out) :
  symbols_sorted v ->
  (forall (i : nat) (s : Symbol) (k : Z),
      v !! i = Some s -> 0 <= k -> 0 <= pc s -> pc s + k < 2 ^ 64 ->
      (forall s', v !! S i = Some s' -> pc s + k < pc s') ->
      transform_pc v (pc s + k) out =
        (REDSHOW_SUCCESS, mkPcOut (index s) (wrap64 (cubin_offset s + k)) k)) /\
  (forall p : Z,
      (forall s0, v !! 0%nat = Some s0 -> p < pc s0) ->
      transform_pc v p out = (REDSHOW_ERROR_NOT_EXIST_ENTRY, out)).
Proof.
  intros Hsorted. split.
  - intros i s k Hi Hk Hpc Hfit Hnext. unfold transform_pc.
    rewrite (upper_bound_sorted v i s (pc s + k) Hsorted Hi ltac:(lia) Hnext).
    simpl. rewrite Nat.sub_0_r, Hi.
    replace (pc s + k - pc s) with k by lia.
    assert (wrap64 k = k) as -> by (unfold wrap64; apply Z.mod_small; lia).
    rewrite (Z.add_comm k). reflexivity.
  - intros p Hfirst. unfold transform_pc.
    rewrite (upper_bound_below_first v p Hsorted Hfirst). reflexivity.
Qed.

Lemma transform_pc_round_trip_witness :
  let v := [mkSymbol 7 0x40 0x1000; mkSymbol 3 0x80 0x2000] in
  symbols_sorted v /\
  transform_pc v (0x1000 + 0x10) (mkPcOut 0 0 0) = (REDSHOW_SUCCESS, mkPcOut 7 0x50 0x10) /\
  transform_pc v 0xfff (mkPcOut 0 0 0) = (REDSHOW_ERROR_NOT_EXIST_ENTRY, mkPcOut 0 0 0).
Proof.
  assert (Hsorted : symbols_sorted [mkSymbol 7 0x40 0x1000; mkSymbol 3 0x80 0x2000]).
  { intros [|[|i]] [|[|j]] si sj Hij Hi Hj; simpl in *; try lia; try discriminate.
    injection Hi as <-. injection Hj as <-. simpl. lia. }
  split; [exact Hsorted|].
  destruct (transform_pc_round_trip _ (mkPcOut 0 0 0) Hsorted) as [Hin Hbelow].
  split.
  - apply (Hin 0%nat (mkSymbol 7 0x40 0x1000) 0x10); simpl; try lia; try reflexivity.
    intros s' [= <-]. simpl. lia.
  - apply Hbelow. intros s0 [= <-]. simpl. lia.
Defined.

(** C5, counterexample to [function_index = i]: the vector below is what
    registration leaves for the PCs [0x100] and [0x200] when no [.inst]
    file exists; the symbol at position 1 carries [index = 0]. *)
Lemma transform_pc_function_index_counterexample :
  let v := [mkSymbol 0 0 0x100; mkSymbol 0 0 0x200] in
  symbols <$> cubin_map (redshow_cubin_register absent_inst_files 1 2 [0x100; 0x200]
                           "/tmp/cubins/a.cubin" initial_state).2 !! 1 = Some v /\
  symbols_sorted v /\
  v !! 1%nat = Some (mkSymbol 0 0 0x200) /\
  transform_pc v (0x200 + 0) (mkPcOut 9 9 9) = (REDSHOW_SUCCESS, mkPcOut 0 0 0) /\
  out_function_index (transform_pc v (0x200 + 0) (mkPcOut 9 9 9)).2 <> 1.
Proof.
  split; [vm_compute; reflexivity|].
  split; [|split; [reflexivity|split; [reflexivity|]]].
  - intros [|[|i]] [|[|j]] si sj Hij Hi Hj; simpl in *; try lia; try discriminate.
    injection Hi as <-. injection Hj as <-. simpl. lia.
  - vm_compute. discriminate.
Qed.

(** ** Ordered look-up *)

Lemma pick_prev_foldr {V : Type} (k : Z) (l : list (Z * V)) :
  match foldr (pick_prev k) None l with
  | Some (kb, v) =>
      (kb, v) ∈ l /\ kb <= k /\ forall k' v', (k', v') ∈ l -> k' <= k -> k' <= kb
  | None => forall k' v', (k', v') ∈ l -> k < k'
  end.
Proof.
  induction l as [|[k0 v0] l IH]; simpl.
  - intros k' v' Hin. inversion Hin.
  - unfold pick_prev at 1. simpl.
    destruct (k0 <=? k) eqn:Hk0.
    + apply Z.leb_le in Hk0.
      destruct (foldr (pick_prev k) None l) as [[kb v]|].
      * destruct IH as (Hin & Hle & Hmax). simpl.
        destruct (kb <? k0) eqn:Hcmp.
        -- apply Z.ltb_lt in Hcmp. split; [left|]. split; [assumption|].
           intros k' v' Hin' Hk'. apply elem_of_cons in Hin' as [[= -> ->]|Hin'].
           ++ lia.
           ++ pose proof (Hmax k' v' Hin' Hk'). lia.
        -- apply Z.ltb_ge in Hcmp. split; [right; assumption|]. split; [assumption|].
           intros k' v' Hin' Hk'. apply elem_of_cons in Hin' as [[= -> ->]|Hin'].
           ++ lia.
           ++ exact (Hmax k' v' Hin' Hk').
      * split; [left|]. split; [assumption|].
        intros k' v' Hin' Hk'. apply elem_of_cons in Hin' as [[= -> ->]|Hin'].
        -- lia.
        -- pose proof (IH k' v' Hin'). lia.
    + apply Z.leb_gt in Hk0.
      destruct (foldr (pick_prev k) None l) as [[kb v]|].
      * destruct IH as (Hin & Hle & Hmax). split; [right; assumption|].
        split; [assumption|].
        intros k' v' Hin' Hk'. apply elem_of_cons in Hin' as [[= -> ->]|Hin'].
        -- lia.
        -- exact (Hmax k' v' Hin' Hk').
      * intros k' v' Hin'. apply elem_of_cons in Hin' as [[= -> ->]|Hin'].
        -- lia.
        -- exact (IH k' v' Hin').
Qed.

Lemma map_prev_Some {V : Type} (m : gmap Z V) (k kb : Z) (v : V) :
  map_prev m k = Some (kb, v) <-> greatest_key_le m k kb v.
Proof.
  unfold map_prev, greatest_key_le.
  pose proof (pick_prev_foldr k (map_to_list m)) as Hspec.
  split.
  - intros Heq. rewrite Heq in Hspec. destruct Hspec as (Hin & Hle & Hmax).
    apply elem_of_map_to_list in Hin. split; [assumption|]. split; [assumption|].
    intros k' [v' Hv'] Hk'. apply (Hmax k' v'); [|assumption].
    apply elem_of_map_to_list. assumption.
  - intros (Hkb & Hle & Hmax).
    destruct (foldr (pick_prev k) None (map_to_list m)) as [[kb' v']|].
    + destruct Hspec as (Hin & Hle' & Hmax').
      apply elem_of_map_to_list in Hin.
      assert (kb' = kb).
      { pose proof (Hmax kb' (mk_is_Some _ _ Hin) Hle').
        pose proof (Hmax' kb v ltac:(apply elem_of_map_to_list; assumption) Hle). lia. }
      subst kb'. congruence.
    + pose proof (Hspec kb v ltac:(apply elem_of_map_to_list; assumption)). lia.
Qed.

Lemma map_prev_None {V : Type} (m : gmap Z V) (k : Z) :
  map_prev m k = None <-> forall k', is_Some (m !! k') -> k < k'.
Proof.
  unfold map_prev.
  pose proof (pick_prev_foldr k (map_to_list m)) as Hspec.
  split.
  - intros Heq. rewrite Heq in Hspec. intros k' [v' Hv'].
    apply (Hspec k' v'). apply elem_of_map_to_list. assumption.
  - intros Hall.
    destruct (foldr (pick_prev k) None (map_to_list m)) as [[kb v]|]; [|reflexivity].
    destruct Hspec as (Hin & Hle & _). apply elem_of_map_to_list in Hin.
    pose proof (Hall kb (mk_is_Some _ _ Hin)). lia.
Qed.

(** ** Memory snapshots *)

Lemma add_memory_fresh (r : MemoryRange) (h i : Z) (m : MemoryMap) :
  m !! start r = None ->
  add_memory r h i m = <[start r := (r, mkMemory r h i)]> m.
Proof.
  intros Hfresh. unfold add_memory, memory_map_assign.
  rewrite Hfresh. rewrite lookup_insert_eq. rewrite insert_insert_eq.
  rewrite lookup_insert_eq. rewrite insert_insert_eq. reflexivity.
Qed.

(** C4, as the code has it.  With [range = [start, end)] and
    [mem = (range, memory_op_id = host_op_id, memory_id)]:
    - with no snapshot at all, the call succeeds and the store becomes the
      single snapshot [host_op_id -> {range -> mem}];
    - when [base] is the snapshot of the greatest key not above
      [host_op_id]: if [base] has no range starting at [start], the call
      succeeds and the snapshot keyed [host_op_id] becomes [base] plus
      [range -> mem], every other snapshot and the rest of the state
      staying as they were; if [base] has a range starting at [start]
      (whatever its end), the call fails with [DUPLICATE_ENTRY] and the
      state is unchanged;
    - when snapshots exist but every key is above [host_op_id], the call
      fails with [NOT_EXIST_ENTRY] and the state is unchanged;
    - [DUPLICATE_ENTRY] is returned exactly in the second failing case. *)
Theorem memory_register_snapshot (start_ end__ host_op_id memory_id_ : Z) (st : State) :
  let range := mkMemoryRange start_ end__ in
  let mem := mkMemory range host_op_id memory_id_ in
  let result := (redshow_memory_register start_ end__ host_op_id memory_id_ st).1 in
  let st' := (redshow_memory_register start_ end__ host_op_id memory_id_ st).2 in
  (memory_snapshot st = ∅ ->
     result = REDSHOW_SUCCESS /\
     st' = with_memory_snapshot {[host_op_id := {[start_ := (range, mem)]}]} st) /\
  (forall kb base, greatest_key_le (memory_snapshot st) host_op_id kb base ->
     (base !! start_ = None ->
        result = REDSHOW_SUCCESS /\
        st' = with_memory_snapshot
                (<[host_op_id := <[start_ := (range, mem)]> base]> (memory_snapshot st)) st) /\
     (is_Some (base !! start_) ->
        result = REDSHOW_ERROR_DUPLICATE_ENTRY /\ st' = st)) /\
  (memory_snapshot st <> ∅ ->
   (forall k', is_Some (memory_snapshot st !! k') -> host_op_id < k') ->
     result = REDSHOW_ERROR_NOT_EXIST_ENTRY /\ st' = st) /\
  (result = REDSHOW_ERROR_DUPLICATE_ENTRY <->
     exists kb base, greatest_key_le (memory_snapshot st) host_op_id kb base /\
                     is_Some (base !! start_)).
Proof.
  intros range mem result st'. subst result st'.
  unfold redshow_memory_register.
  destruct (size (memory_snapshot st) =? 0)%nat eqn:Hsize.
  - apply Nat.eqb_eq in Hsize. apply map_size_empty_inv in Hsize.
    simpl. rewrite Hsize.
    split; [intros _|split; [|split]].
    + split; [reflexivity|].
      rewrite (add_memory_fresh (mkMemoryRange start_ end__) host_op_id memory_id_ ∅ (lookup_empty _)).
      reflexivity.
    + intros kb base (Hkb & _). rewrite lookup_empty in Hkb. discriminate.
    + intros Hne. contradiction.
    + split; [discriminate|].
      intros (kb & base & (Hkb & _) & _). rewrite lookup_empty in Hkb. discriminate.
  - apply Nat.eqb_neq in Hsize.
    assert (memory_snapshot st <> ∅) as Hne.
    { intros Hempty. apply Hsize. rewrite Hempty. apply map_size_empty. }
    destruct (map_prev (memory_snapshot st) host_op_id) as [[kb0 base0]|] eqn:Hprev.
    + apply map_prev_Some in Hprev.
      assert (Huniq : forall kb base,
                 greatest_key_le (memory_snapshot st) host_op_id kb base -> base = base0).
      { intros kb base Hg. apply map_prev_Some in Hg. apply map_prev_Some in Hprev.
        congruence. }
      simpl. destruct (base0 !! start_) as [old|] eqn:Hfind; simpl.
      * split; [intros Hempty; contradiction|]. split; [|split].
        -- intros kb base Hg. rewrite (Huniq kb base Hg). split.
           ++ intros Hnone. congruence.
           ++ intros _. split; reflexivity.
        -- intros _ Hall. destruct Hprev as (Hkb & Hle & _).
           pose proof (Hall kb0 (mk_is_Some _ _ Hkb)). lia.
        -- split; [intros _|reflexivity].
           exists kb0, base0. split; [assumption|]. rewrite Hfind. eexists; reflexivity.
      * split; [intros Hempty; contradiction|]. split; [|split].
        -- intros kb base Hg. rewrite (Huniq kb base Hg). split.
           ++ intros _. split; [reflexivity|].
              rewrite (add_memory_fresh (mkMemoryRange start_ end__) host_op_id memory_id_ base0 Hfind).
              reflexivity.
           ++ intros [x Hx]. congruence.
        -- intros _ Hall. destruct Hprev as (Hkb & Hle & _).
           pose proof (Hall kb0 (mk_is_Some _ _ Hkb)). lia.
        -- split; [discriminate|].
           intros (kb & base & Hg & [x Hx]). rewrite (Huniq kb base Hg) in Hx. congruence.
    + pose proof (proj1 (map_prev_None _ _) Hprev) as Hall. simpl.
      split; [intros Hempty; contradiction|]. split; [|split].
      * intros kb base (Hkb & Hle & _).
        pose proof (Hall kb (mk_is_Some _ _ Hkb)). lia.
      * intros _ _. split; reflexivity.
      * split; [discriminate|].
        intros (kb & base & (Hkb & Hle & _) & _).
        pose proof (Hall kb (mk_is_Some _ _ Hkb)). lia.
Qed.

Lemma memory_register_snapshot_witness :
  let st := (redshow_memory_register 0x1000 0x2000 5 42 initial_state).2 in
  let base := {[0x1000 := (mkMemoryRange 0x1000 0x2000,
                           mkMemory (mkMemoryRange 0x1000 0x2000) 5 42)]} in
  greatest_key_le (memory_snapshot st) 15 5 base /\
  base !! 0x3000 = None /\
  redshow_memory_register 0x3000 0x4000 15 43 st =
    (REDSHOW_SUCCESS,
     with_memory_snapshot
       (<[15 := <[0x3000 := (mkMemoryRange 0x3000 0x4000,
                             mkMemory (mkMemoryRange 0x3000 0x4000) 15 43)]> base]>
          (memory_snapshot st)) st).
Proof.
  intros st base.
  assert (Hbase : greatest_key_le (memory_snapshot st) 15 5 base)
    by (apply map_prev_Some; vm_compute; reflexivity).
  assert (Hfresh : base !! 0x3000 = None) by (vm_compute; reflexivity).
  split; [exact Hbase|]. split; [exact Hfresh|].
  destruct (memory_register_snapshot 0x3000 0x4000 15 43 st) as (_ & Hstep & _).
  destruct (Hstep 5 base Hbase) as ((Hres & Hst) & _); [exact Hfresh|].
  destruct (redshow_memory_register 0x3000 0x4000 15 43 st) as [r s'].
  simpl in Hres, Hst. rewrite Hres, Hst. reflexivity.
Defined.

(** C4, counterexample.  The store holds one snapshot, keyed 20, with the
    range [[0x1000, 0x2000)].  Registering under host op 10, below every
    key, creates no snapshot and fails with [NOT_EXIST_ENTRY]; registering
    [[0x1000, 0x3000)], a range that is not in the base snapshot, fails
    with [DUPLICATE_ENTRY] because only the starts are compared. *)
Lemma memory_register_counterexample :
  let st := (redshow_memory_register 0x1000 0x2000 20 42 initial_state).2 in
  memory_snapshot st =
    {[20 := {[0x1000 := (mkMemoryRange 0x1000 0x2000,
                         mkMemory (mkMemoryRange 0x1000 0x2000) 20 42)]}]} /\
  redshow_memory_register 0x3000 0x4000 10 43 st = (REDSHOW_ERROR_NOT_EXIST_ENTRY, st) /\
  memory_snapshot (redshow_memory_register 0x3000 0x4000 10 43 st).2 !! 10 = None /\
  redshow_memory_register 0x1000 0x3000 30 44 st = (REDSHOW_ERROR_DUPLICATE_ENTRY, st).
Proof.
  vm_compute. repeat split; reflexivity.
Qed.

(** ** The cubin registry *)

(** Insertion sort meets the contract of [std::sort]: the result is a
    permutation of the vector, in non-decreasing order of [pc]. *)
Lemma sort_insert_perm (s : Symbol) (v : list Symbol) : sort_insert s v ≡ₚ s :: v.
Proof.
  induction v as [|t v IH]; simpl; [reflexivity|].
  destruct (Symbol_lt t s); [|reflexivity].
  rewrite IH. apply Permutation_swap.
Qed.

Lemma sort_symbols_perm (v : list Symbol) : sort_symbols v ≡ₚ v.
Proof.
  induction v as [|s v IH]; simpl; [reflexivity|].
  rewrite sort_insert_perm, IH. reflexivity.
Qed.

Lemma sort_insert_sorted (s : Symbol) (v : list Symbol) :
  StronglySorted (fun a b => pc a <= pc b) v ->
  StronglySorted (fun a b => pc a <= pc b) (sort_insert s v).
Proof.
  induction v as [|t v IH]; intros Hsorted; simpl.
  - constructor; [constructor|constructor].
  - apply StronglySorted_inv in Hsorted as [Htail Hhead].
    unfold Symbol_lt. destruct (pc t <? pc s) eqn:Hlt.
    + apply Z.ltb_lt in Hlt. constructor; [apply IH, Htail|].
      rewrite sort_insert_perm. constructor; [lia|exact Hhead].
    + apply Z.ltb_ge in Hlt. constructor.
      * constructor; assumption.
      * constructor; [assumption|].
        eapply Forall_impl; [exact Hhead|]. simpl. intros x Hx. lia.
Qed.

Lemma sort_symbols_sorted (v : list Symbol) :
  StronglySorted (fun a b => pc a <= pc b) (sort_symbols v).
Proof.
  induction v as [|s v IH]; simpl; [constructor|].
  apply sort_insert_sorted, IH.
Qed.

Lemma cubin_analyze_no_file (E : collaborators) (path_ : string)
    (v : list Symbol) (g : InstructionGraph) :
  rfind path_ "/"%char npos = npos \/
  inst_file_good E (inst_path_of path_ (rfind path_ "/"%char npos)) = false ->
  cubin_analyze E path_ v g = (REDSHOW_ERROR_NO_SUCH_FILE, v, g).
Proof.
  intros Hmissing. unfold cubin_analyze.
  destruct (rfind path_ "/" npos =? npos) eqn:Hslash; [reflexivity|].
  destruct Hmissing as [Hnone|Hbad].
  - apply Z.eqb_neq in Hslash. contradiction.
  - rewrite Hbad. reflexivity.
Qed.

Lemma assign_symbol_pcs_prefix (symbol_pcs : list Z) (n : nat) : forall m : nat,
  (m <= n)%nat -> (m <= length symbol_pcs)%nat ->
  foldl (assign_symbol_pc symbol_pcs) (replicate n Symbol_default) (seq 0 m) =
    (Symbol_of_pc <$> take m symbol_pcs) ++ replicate (n - m) Symbol_default.
Proof.
  induction m as [|m IH]; intros Hmn Hlen.
  - simpl. rewrite Nat.sub_0_r. reflexivity.
  - rewrite seq_S, foldl_app, IH by lia. simpl.
    destruct (lookup_lt_is_Some_2 symbol_pcs m ltac:(lia)) as [x Hx].
    unfold assign_symbol_pc. rewrite Hx. simpl.
    rewrite (take_S_r _ _ _ Hx), fmap_app. simpl.
    rewrite alter_app_r_alt by (rewrite length_fmap, length_take; lia).
    rewrite length_fmap, length_take.
    replace (m - m `min` length symbol_pcs)%nat with 0%nat by lia.
    replace (n - m)%nat with (S (n - S m)) by lia. simpl.
    rewrite <- app_assoc. reflexivity.
Qed.

Lemma assign_symbol_pcs_default (nsymbols : Z) (symbol_pcs : list Z) :
  (Z.to_nat nsymbols <= length symbol_pcs)%nat ->
  assign_symbol_pcs nsymbols symbol_pcs (replicate (Z.to_nat nsymbols) Symbol_default) =
    Symbol_of_pc <$> take (Z.to_nat nsymbols) symbol_pcs.
Proof.
  intros Hlen. unfold assign_symbol_pcs.
  rewrite assign_symbol_pcs_prefix by lia.
  rewrite Nat.sub_diag. simpl. apply app_nil_r.
Qed.

(** C2, as the code has it: for a [cubin_id] that is not active, when the
    path has no derived [.inst] file (no slash in the path, or the derived
    file cannot be opened), [redshow_cubin_register] returns
    [NO_SUCH_FILE] and nevertheless adds the cubin to the active map: the
    new entry carries the path, an empty instruction graph and one
    default symbol per given PC, sorted by PC; nothing else changes. *)
Theorem cubin_register_no_inst_file (E : collaborators) (cubin_id_ nsymbols : Z)
    (symbol_pcs : list Z) (path_ : string) (st : State) :
  cubin_map st !! cubin_id_ = None ->
  rfind path_ "/"%char npos = npos \/
  inst_file_good E (inst_path_of path_ (rfind path_ "/"%char npos)) = false ->
  (Z.to_nat nsymbols <= length symbol_pcs)%nat ->
  redshow_cubin_register E cubin_id_ nsymbols symbol_pcs path_ st =
    (REDSHOW_ERROR_NO_SUCH_FILE,
     with_cubin_map
       (<[cubin_id_ :=
            mkCubin cubin_id_ path_
              (sort_symbols (Symbol_of_pc <$> take (Z.to_nat nsymbols) symbol_pcs))
              InstructionGraph_empty]> (cubin_map st))
       st).
Proof.
  intros Hfresh Hmissing Hlen. unfold redshow_cubin_register.
  rewrite (cubin_analyze_no_file E path_ _ _ Hmissing). simpl.
  rewrite Hfresh, (assign_symbol_pcs_default nsymbols symbol_pcs Hlen).
  reflexivity.
Qed.

Lemma cubin_register_no_inst_file_witness :
  redshow_cubin_register absent_inst_files 1 2 [0x200; 0x100] "/tmp/cubins/a.cubin"
    initial_state =
    (REDSHOW_ERROR_NO_SUCH_FILE,
     with_cubin_map
       {[1 := mkCubin 1 "/tmp/cubins/a.cubin"
                [mkSymbol 0 0 0x100; mkSymbol 0 0 0x200] InstructionGraph_empty]}
       initial_state).
Proof.
  apply (cubin_register_no_inst_file absent_inst_files 1 2 [0x200; 0x100]
           "/tmp/cubins/a.cubin" initial_state).
  - reflexivity.
  - right. reflexivity.
  - simpl. lia.
Defined.

(** C2, counterexample: cubin 1 is not active, the derived file
    [/tmp/structs/nvidia/a.cubin.inst] does not exist, the call returns
    [NO_SUCH_FILE], and afterwards the active map has an entry for
    cubin 1. *)
Lemma cubin_register_no_inst_file_counterexample :
  let r := redshow_cubin_register absent_inst_files 1 1 [0x1000] "/tmp/cubins/a.cubin"
             initial_state in
  (cubin_map initial_state !! 1 = None) /\
  (inst_path_of "/tmp/cubins/a.cubin" (rfind "/tmp/cubins/a.cubin" "/"%char npos) =
     "/tmp/structs/nvidia/a.cubin.inst"%string) /\
  (r.1 = REDSHOW_ERROR_NO_SUCH_FILE) /\
  (cubin_map r.2 !! 1 =
     Some (mkCubin 1 "/tmp/cubins/a.cubin" [mkSymbol 0 0 0x1000] InstructionGraph_empty)) /\
  (cubin_map r.2 <> cubin_map initial_state).
Proof.
  vm_compute. repeat split; try reflexivity. discriminate.
Qed.

(** ** Attribution of an access to an allocation *)

(** What the look-up of lines 343-349 guarantees: a non-zero id comes from
    the entry with the greatest key (range start) not above the address.
    Nothing relates the address to the end of that range. *)
Lemma lookup_memory_op_id_source (memory_map : MemoryMap) (address : Z) :
  lookup_memory_op_id memory_map address <> 0 ->
  exists key range mem,
    greatest_key_le memory_map address key (range, mem) /\
    lookup_memory_op_id memory_map address = memory_op_id mem.
Proof.
  unfold lookup_memory_op_id. intros Hne.
  destruct (map_prev memory_map address) as [[key [range mem]]|] eqn:Hprev;
    [|contradiction].
  exists key, range, mem. split; [|reflexivity].
  apply map_prev_Some. assumption.
Qed.

(** C1, where the code departs from it: the address lies in no range of
    the snapshot, yet the look-up takes the [memory_op_id] of the range
    before it; the access is accepted under that id (even when the record
    is flagged as local memory) and the spatial accumulator is updated for
    allocation 10. *)
Theorem unmatched_address_is_attributed (E : collaborators) (st : State) (k : Kernel) :
  let range := mkMemoryRange 0x1000 0x2000 in
  let st1 := with_analysis_enabled {[REDSHOW_ANALYSIS_SPATIAL_REDUNDANCY]} st in
  map_to_list one_allocation = [(0x1000, (range, mkMemory range 10 42))] /\
  ~ (start range <= 0x3000 < end_ range) /\
  map_prev one_allocation 0x3000 = Some (0x1000, (range, mkMemory range 10 42)) /\
  resolve_memory_op_id gpu_patch one_allocation read_past_the_end 0x3000 = 10 /\
  resolve_memory_op_id gpu_patch one_allocation local_read_past_the_end 0x3000 = 10 /\
  analyze_lane gpu_patch E st1 one_allocation read_past_the_end
    (mkAccessKind 32 32 FLOAT) k 0 =
  Proceed (with_read_spatial_trace
             (get_spatial_trace E 0x1010
                (store2basictype E 0xbf800000 (mkAccessKind 32 32 FLOAT)
                   (decimal_degree_f32 st) (decimal_degree_f64 st))
                10 (mkAccessKind 32 32 FLOAT) (read_spatial_trace k)) k).
Proof.
  intros range st1. split; [|split; [|split; [|split; [|split]]]].
  - vm_compute. reflexivity.
  - simpl. lia.
  - vm_compute. reflexivity.
  - vm_compute. reflexivity.
  - vm_compute. reflexivity.
  - unfold analyze_lane.
    change (lane_active read_past_the_end 0) with true.
    change (resolve_memory_op_id gpu_patch one_allocation read_past_the_end
              (default 0 (r_address read_past_the_end !! Z.to_nat 0))) with 10.
    reflexivity.
Qed.

(** ** Exceptions at the API boundary *)

(** C3, where the code departs from it: the translation of the [pc]
    fails and leaves [cubin_offset = 0], the graph is not empty and has no
    node at 0, so [InstructionGraph::node] throws and [redshow_analyze] is
    left by the exception instead of returning a result code.  The kernel
    entry created for the call stays in the kernel map. *)
Theorem analyze_throws_out_of_range (E : collaborators) :
  (transform_pc [mkSymbol 0 0 0x1000] 0x800 (mkPcOut 0 0 0)).1 =
    REDSHOW_ERROR_NOT_EXIST_ENTRY /\
  graph_size one_instruction_graph = 1 /\
  node one_instruction_graph 0 = None /\
  redshow_analyze gpu_patch E 0 1 7 10 untranslatable_read one_cubin_state =
    (Aborts std_out_of_range,
     store_kernel 0 7 (with_kernel_ids 7 1 Kernel_default) one_cubin_state).
Proof.
  split; [|split; [|split]]; vm_compute; reflexivity.
Qed.

(** ** The per-record analysis *)

Lemma MIN2_min (x y : Z) : MIN2 x y = Z.min x y.
Proof. unfold MIN2. destruct (x >? y) eqn:H; lia. Qed.

(** C6, as the code has it: for a record that is not empty and carries
    neither block flag, when the instruction graph is empty, or when the
    kind derived from the graph has type [UNKNOWN], the record is analysed
    under the default kind: type [FLOAT], [vec_size = size * 8] and
    [unit_size = min(WARP_SIZE, vec_size * 8)], where the two products
    are [uint32_t] products; they are the plain products for every
    [size] below [2 ^ 26]. *)
Theorem default_access_kind (C : patch_constants) (E : collaborators) (st : State)
    (symbols_ : list Symbol) (graph : InstructionGraph) (memory_map : MemoryMap)
    (k : Kernel) (record : gpu_patch_record_t) :
  r_size record <> 0 ->
  flag_set (r_flags record) (GPU_PATCH_BLOCK_ENTER_FLAG C) = false ->
  flag_set (r_flags record) (GPU_PATCH_BLOCK_EXIT_FLAG C) = false ->
  (graph_size graph = 0 \/
   exists derived,
     graph_access_kind C E graph record
       (out_cubin_offset (transform_pc symbols_ (r_pc record) (mkPcOut 0 0 0)).2)
       = Some derived /\
     type derived = UNKNOWN) ->
  exists kind,
    type kind = FLOAT /\
    vec_size kind = wrap32 (r_size record * 8) /\
    unit_size kind = Z.min (GPU_PATCH_WARP_SIZE C) (wrap32 (vec_size kind * 8)) /\
    (0 <= r_size record < 2 ^ 26 ->
       vec_size kind = r_size record * 8 /\
       unit_size kind = Z.min (GPU_PATCH_WARP_SIZE C) (vec_size kind * 8)) /\
    analyze_record C E st symbols_ graph memory_map k record =
      analyze_lanes C E st memory_map record kind k.
Proof.
  intros Hsize Henter Hexit Hunknown.
  exists (mkAccessKind (wrap32 (r_size record * 8))
            (MIN2 (GPU_PATCH_WARP_SIZE C) (wrap32 (wrap32 (r_size record * 8) * 8)))
            FLOAT).
  split; [reflexivity|]. split; [reflexivity|]. split; [apply MIN2_min|].
  split.
  { intros Hsmall. simpl. rewrite MIN2_min. unfold wrap32.
    rewrite (Z.mod_small (r_size record * 8)) by lia.
    rewrite (Z.mod_small (r_size record * 8 * 8)) by lia.
    split; reflexivity. }
  unfold analyze_record.
  apply Z.eqb_neq in Hsize. rewrite Hsize, Henter, Hexit.
  assert (exists derived,
             graph_access_kind C E graph record
               (out_cubin_offset (transform_pc symbols_ (r_pc record) (mkPcOut 0 0 0)).2)
               = Some derived /\ type derived = UNKNOWN) as (derived & Hderived & Htype).
  { destruct Hunknown as [Hempty|Hex]; [|exact Hex].
    exists AccessKind_default. split; [|reflexivity].
    unfold graph_access_kind. rewrite Hempty. reflexivity. }
  unfold record_access_kind. rewrite Hderived. simpl.
  unfold default_mode. rewrite Htype. reflexivity.
Qed.

Lemma default_access_kind_witness :
  exists kind,
    type kind = FLOAT /\ vec_size kind = 32 /\ unit_size kind = 32 /\
    analyze_record gpu_patch absent_inst_files initial_state [mkSymbol 0 0 0x1000]
      InstructionGraph_empty one_allocation Kernel_default read_past_the_end =
    analyze_lanes gpu_patch absent_inst_files initial_state one_allocation
      read_past_the_end kind Kernel_default.
Proof.
  destruct (default_access_kind gpu_patch absent_inst_files initial_state
              [mkSymbol 0 0 0x1000] InstructionGraph_empty one_allocation
              Kernel_default read_past_the_end)
    as (kind & Htype & _ & _ & Hplain & Hrun).
  - simpl. lia.
  - reflexivity.
  - reflexivity.
  - left. reflexivity.
  - destruct Hplain as [Hvec Hunit]; [simpl; lia|].
    exists kind. rewrite Hvec in Hunit.
    split; [exact Htype|]. split; [exact Hvec|]. split; [exact Hunit|exact Hrun].
Defined.

(** C6, counterexample: a non-empty read of [size = 2 ^ 26] on a cubin
    without instruction graph.  The default kind has
    [vec_size = size * 8 = 2 ^ 29], but its [unit_size] is 0 and not
    [min(WARP_SIZE, vec_size * 8) = 32], because [vec_size * 8] is 0 in
    32 bits; the analysis of the accepted lane then divides by zero. *)
Lemma default_access_kind_counterexample :
  let kind := default_mode gpu_patch oversized_read AccessKind_default in
  r_size oversized_read <> 0 /\
  flag_set (r_flags oversized_read) (GPU_PATCH_BLOCK_ENTER_FLAG gpu_patch) = false /\
  flag_set (r_flags oversized_read) (GPU_PATCH_BLOCK_EXIT_FLAG gpu_patch) = false /\
  graph_size InstructionGraph_empty = 0 /\
  type kind = FLOAT /\
  vec_size kind = r_size oversized_read * 8 /\
  Z.min (GPU_PATCH_WARP_SIZE gpu_patch) (vec_size kind * 8) = 32 /\
  unit_size kind = 0 /\
  analyze_record gpu_patch absent_inst_files initial_state [mkSymbol 0 0 0x1000]
    InstructionGraph_empty one_allocation Kernel_default oversized_read =
    Abort integer_division_by_zero Kernel_default.
Proof.
  intros kind.
  split; [vm_compute; discriminate|].
  repeat split; vm_compute; reflexivity.
Qed.

(** ** Block exit *)

Section block_exit_facts.
Variable C : patch_constants.
Variable record : gpu_patch_record_t.

Lemma block_exit_lane_frame (k : Kernel) (j : Z) :
  same_but_temporal k (block_exit_lane C record k j).
Proof.
  unfold block_exit_lane, same_but_temporal.
  destruct (lane_active record j); simpl; repeat split.
Qed.

Lemma block_exit_lanes_frame (js : list Z) : forall k,
  same_but_temporal k (foldl (block_exit_lane C record) k js).
Proof.
  induction js as [|j js IH]; intros k; simpl.
  - repeat split.
  - pose proof (block_exit_lane_frame k j) as Hstep.
    specialize (IH (block_exit_lane C record k j)).
    unfold same_but_temporal in *.
    destruct Hstep as (H1 & H2 & H3 & H4 & H5 & H6 & H7 & H8).
    destruct IH as (I1 & I2 & I3 & I4 & I5 & I6 & I7 & I8).
    repeat split; congruence.
Qed.

Lemma block_exit_lanes_gone (js : list Z) (tid : ThreadId) : forall k,
  (read_temporal_trace k !! tid = None ->
   read_temporal_trace (foldl (block_exit_lane C record) k js) !! tid = None) /\
  (write_temporal_trace k !! tid = None ->
   write_temporal_trace (foldl (block_exit_lane C record) k js) !! tid = None).
Proof.
  induction js as [|j js IH]; intros k; simpl; [split; auto|].
  destruct (IH (block_exit_lane C record k j)) as [IHr IHw].
  split; intros Hnone; [apply IHr|apply IHw];
    unfold block_exit_lane; destruct (lane_active record j); simpl; try assumption;
    (destruct (decide (lane_thread_id C record j = tid)) as [->|Hne];
      [apply lookup_delete_eq|rewrite lookup_delete_ne by assumption; assumption]).
Qed.

Lemma block_exit_lanes_erased (js : list Z) (j : Z) : forall k,
  j ∈ js -> lane_active record j = true ->
  read_temporal_trace (foldl (block_exit_lane C record) k js)
    !! lane_thread_id C record j = None /\
  write_temporal_trace (foldl (block_exit_lane C record) k js)
    !! lane_thread_id C record j = None.
Proof.
  induction js as [|j0 js IH]; intros k Hin Hactive; [inversion Hin|].
  simpl. apply elem_of_cons in Hin as [->|Hin].
  - destruct (block_exit_lanes_gone js (lane_thread_id C record j0)
                (block_exit_lane C record k j0)) as [Hr Hw].
    split; [apply Hr|apply Hw]; unfold block_exit_lane; rewrite Hactive; simpl;
      apply lookup_delete_eq.
  - apply IH; assumption.
Qed.

Lemma block_exit_lanes_kept (js : list Z) (tid : ThreadId) : forall k,
  (forall j, j ∈ js -> lane_active record j = true -> lane_thread_id C record j <> tid) ->
  read_temporal_trace (foldl (block_exit_lane C record) k js) !! tid =
    read_temporal_trace k !! tid /\
  write_temporal_trace (foldl (block_exit_lane C record) k js) !! tid =
    write_temporal_trace k !! tid.
Proof.
  induction js as [|j0 js IH]; intros k Hother; [split; reflexivity|].
  simpl.
  destruct (IH (block_exit_lane C record k j0)) as [IHr IHw].
  { intros j Hin. apply Hother. right. assumption. }
  rewrite IHr, IHw. unfold block_exit_lane.
  destruct (lane_active record j0) eqn:Hactive; [|split; reflexivity].
  simpl. pose proof (Hother j0 ltac:(left) Hactive) as Hne.
  rewrite !lookup_delete_ne by assumption. split; reflexivity.
Qed.
End block_exit_facts.

(** The thread of lane [j]: with the shipped warp size and a 32-bit
    [flat_thread_id] the sum never wraps. *)
Lemma lane_thread_id_warp_aligned (record : gpu_patch_record_t) (j : Z) :
  0 <= r_flat_thread_id record < 2 ^ 32 -> 0 <= j < 32 ->
  lane_thread_id gpu_patch record j =
    mkThreadId (r_flat_block_id record) (r_flat_thread_id record / 32 * 32 + j).
Proof.
  intros Hthread Hj. unfold lane_thread_id. simpl. f_equal.
  unfold wrap32. apply Z.mod_small.
  pose proof (Z.div_mod (r_flat_thread_id record) 32 ltac:(lia)) as Hdiv.
  pose proof (Z.mod_pos_bound (r_flat_thread_id record) 32 ltac:(lia)) as Hmod.
  assert (r_flat_thread_id record / 32 < 2 ^ 27)
    by (apply Z.div_lt_upper_bound; lia).
  lia.
Qed.

(** C7, as the code has it: on a record of non-zero [size] that carries
    [BLOCK_EXIT] and not [BLOCK_ENTER], the thread of every active lane
    [j] (block [flat_block_id], thread
    [flat_thread_id / WARP_SIZE * WARP_SIZE + j]) is erased from the read
    and from the write temporal trace; the entries of every other thread,
    the spatial traces, the PC pairs and the kernel's other fields are
    left as they were, and the analysis goes on. *)
Theorem block_exit_erases_active_lanes (C : patch_constants) (E : collaborators)
    (st : State) (symbols_ : list Symbol) (graph : InstructionGraph)
    (memory_map : MemoryMap) (k : Kernel) (record : gpu_patch_record_t) :
  r_size record <> 0 ->
  flag_set (r_flags record) (GPU_PATCH_BLOCK_ENTER_FLAG C) = false ->
  flag_set (r_flags record) (GPU_PATCH_BLOCK_EXIT_FLAG C) = true ->
  exists k',
    analyze_record C E st symbols_ graph memory_map k record = Proceed k' /\
    same_but_temporal k k' /\
    (forall j, 0 <= j < GPU_PATCH_WARP_SIZE C -> lane_active record j = true ->
       read_temporal_trace k' !! lane_thread_id C record j = None /\
       write_temporal_trace k' !! lane_thread_id C record j = None) /\
    (forall tid,
       (forall j, 0 <= j < GPU_PATCH_WARP_SIZE C -> lane_active record j = true ->
          lane_thread_id C record j <> tid) ->
       read_temporal_trace k' !! tid = read_temporal_trace k !! tid /\
       write_temporal_trace k' !! tid = write_temporal_trace k !! tid).
Proof.
  intros Hsize Henter Hexit. exists (block_exit C record k).
  split; [|split; [|split]].
  - unfold analyze_record. apply Z.eqb_neq in Hsize.
    rewrite Hsize, Henter, Hexit. reflexivity.
  - apply block_exit_lanes_frame.
  - intros j Hj Hactive. apply block_exit_lanes_erased; [|assumption].
    apply elem_of_seqZ. lia.
  - intros tid Hother. apply block_exit_lanes_kept.
    intros j Hin. apply elem_of_seqZ in Hin. apply Hother. lia.
Qed.

Lemma block_exit_erases_active_lanes_witness :
  exists k',
    analyze_record gpu_patch absent_inst_files initial_state [] InstructionGraph_empty
      one_allocation kernel_with_history (block_exit_record 4) = Proceed k' /\
    read_temporal_trace k' !! mkThreadId 0 0 = None.
Proof.
  destruct (block_exit_erases_active_lanes gpu_patch absent_inst_files initial_state []
              InstructionGraph_empty one_allocation kernel_with_history
              (block_exit_record 4))
    as (k' & Hrun & _ & Herased & _).
  - simpl. lia.
  - reflexivity.
  - reflexivity.
  - exists k'. split; [exact Hrun|].
    destruct (Herased 0) as [Hread _]; [simpl; lia|reflexivity|exact Hread].
Defined.

(** C7, counterexample: a record that carries [BLOCK_EXIT] with lane 0
    active but has [size = 0] is skipped, and the history of thread
    (0, 0) stays in the read temporal trace. *)
Lemma block_exit_empty_record_counterexample :
  flag_set (r_flags (block_exit_record 0)) (GPU_PATCH_BLOCK_EXIT_FLAG gpu_patch) = true /\
  lane_active (block_exit_record 0) 0 = true /\
  lane_thread_id gpu_patch (block_exit_record 0) 0 = mkThreadId 0 0 /\
  analyze_record gpu_patch absent_inst_files initial_state [] InstructionGraph_empty
    one_allocation kernel_with_history (block_exit_record 0) =
    Proceed kernel_with_history /\
  read_temporal_trace kernel_with_history !! mkThreadId 0 0 =
    Some {[0x1100 := (0x1010, 5)]}.
Proof.
  vm_compute. repeat split; reflexivity.
Qed.

(** ** [redshow_analyze] and the kernel map *)

Lemma foldl_invariant {A B : Type} (P : A -> Prop) (f : A -> B -> A) (l : list B) :
  (forall a b, P a -> P (f a b)) -> forall a, P a -> P (foldl f a l).
Proof.
  intros Hstep. induction l as [|b l IH]; intros a Ha; simpl; [assumption|].
  apply IH, Hstep, Ha.
Qed.

Section kernel_ids_facts.
Variable C : patch_constants.
Variable E : collaborators.

Lemma apply_analysis_ids record tid address value op kind k a :
  kernel_ids (apply_analysis C E record tid address value op kind k a) = kernel_ids k.
Proof.
  unfold apply_analysis.
  destruct a; destruct (flag_set (r_flags record) (GPU_PATCH_READ C));
    try reflexivity.
  - destruct (get_temporal_trace E _ _ _ _ _ _ _). reflexivity.
  - destruct (get_temporal_trace E _ _ _ _ _ _ _). reflexivity.
Qed.

Lemma analyze_unit_ids st record j tid op kind k m :
  kernel_ids (analyze_unit C E st record j tid op kind k m) = kernel_ids k.
Proof.
  unfold analyze_unit.
  apply (foldl_invariant (fun k' => kernel_ids k' = kernel_ids k)); [|reflexivity].
  intros k' a Hk'. rewrite apply_analysis_ids. exact Hk'.
Qed.

Lemma analyze_lane_ids st memory_map record kind k j :
  kernel_ids (progress_kernel (analyze_lane C E st memory_map record kind k j)) =
  kernel_ids k.
Proof.
  unfold analyze_lane.
  destruct (negb (lane_active record j)); [reflexivity|].
  destruct (resolve_memory_op_id C memory_map record _ =? 0); [reflexivity|].
  destruct (unit_size kind =? 0); [reflexivity|]. simpl.
  apply (foldl_invariant (fun k' => kernel_ids k' = kernel_ids k)); [|reflexivity].
  intros k' m Hk'. rewrite analyze_unit_ids. exact Hk'.
Qed.

Lemma progress_bind_ids (p : progress) (f : Kernel -> progress) :
  (forall k, kernel_ids (progress_kernel (f k)) = kernel_ids k) ->
  kernel_ids (progress_kernel (progress_bind p f)) = kernel_ids (progress_kernel p).
Proof. intros Hf. destruct p; simpl; [apply Hf|reflexivity]. Qed.

Lemma analyze_lanes_ids st memory_map record kind k :
  kernel_ids (progress_kernel (analyze_lanes C E st memory_map record kind k)) =
  kernel_ids k.
Proof.
  unfold analyze_lanes.
  apply (foldl_invariant
           (fun p => kernel_ids (progress_kernel p) = kernel_ids k)); [|reflexivity].
  intros p j Hp. rewrite progress_bind_ids; [exact Hp|].
  intros k'. apply analyze_lane_ids.
Qed.

Lemma analyze_record_ids st symbols_ graph memory_map k record :
  kernel_ids (progress_kernel (analyze_record C E st symbols_ graph memory_map k record)) =
  kernel_ids k.
Proof.
  unfold analyze_record.
  destruct (r_size record =? 0); [reflexivity|].
  destruct (flag_set _ (GPU_PATCH_BLOCK_ENTER_FLAG C)); [reflexivity|].
  destruct (flag_set _ (GPU_PATCH_BLOCK_EXIT_FLAG C)).
  - simpl. destruct (block_exit_lanes_frame C record (seqZ 0 (GPU_PATCH_WARP_SIZE C)) k)
      as (H1 & H2 & _).
    unfold kernel_ids, block_exit. congruence.
  - destruct (record_access_kind C E graph record _); [|reflexivity].
    apply analyze_lanes_ids.
Qed.

Lemma analyze_records_ids st symbols_ graph memory_map k rs :
  kernel_ids (progress_kernel (analyze_records C E st symbols_ graph memory_map k rs)) =
  kernel_ids k.
Proof.
  unfold analyze_records.
  apply (foldl_invariant
           (fun p => kernel_ids (progress_kernel p) = kernel_ids k)); [|reflexivity].
  intros p r Hp. rewrite progress_bind_ids; [exact Hp|].
  intros k'. apply analyze_record_ids.
Qed.

Lemma with_cubin_map_same (st : State) : with_cubin_map (cubin_map st) st = st.
Proof. destruct st. reflexivity. Qed.

Lemma cubin_register_state cubin_id_ nsymbols symbol_pcs path_ st :
  exists m, (redshow_cubin_register E cubin_id_ nsymbols symbol_pcs path_ st).2 =
            with_cubin_map m st.
Proof.
  unfold redshow_cubin_register.
  destruct (cubin_analyze E path_ _ _) as [[result v] g].
  destruct (bool_decide (result = REDSHOW_SUCCESS) || _).
  - destruct (cubin_map st !! cubin_id_); simpl.
    + exists (cubin_map st). symmetry. apply with_cubin_map_same.
    + eexists. reflexivity.
  - exists (cubin_map st). symmetry. apply with_cubin_map_same.
Qed.

Lemma fetch_cubin_state cubin_id_ st :
  exists m, (fetch_cubin E cubin_id_ st).2 = with_cubin_map m st.
Proof.
  unfold fetch_cubin.
  destruct (cubin_map st !! cubin_id_).
  - exists (cubin_map st). symmetry. apply with_cubin_map_same.
  - destruct (cubin_cache_map st !! cubin_id_) as [cache|].
    + destruct (cubin_register_state cubin_id_ (cache_nsymbols cache)
                  (cache_symbol_pcs cache) (cache_path cache) st) as [m Hm].
      destruct (redshow_cubin_register E _ _ _ _ st) as [result st1].
      simpl in Hm. subst st1. exists m.
      destruct (bool_decide (result = REDSHOW_SUCCESS)); [|reflexivity].
      destruct (cubin_map (with_cubin_map m st) !! cubin_id_); reflexivity.
    + exists (cubin_map st). symmetry. apply with_cubin_map_same.
Qed.

Lemma trace_analyze_state kernel host_op_id trace_data st :
  exists m, (trace_analyze C E kernel host_op_id trace_data st).2 = with_cubin_map m st.
Proof.
  unfold trace_analyze.
  destruct (fetch_cubin_state (kernel_cubin_id kernel) st) as [m Hm].
  destruct (fetch_cubin E (kernel_cubin_id kernel) st) as [[result cubin] st1].
  simpl in Hm. subst st1. exists m.
  destruct cubin as [c|]; [|reflexivity].
  destruct (map_prev _ host_op_id) as [[kb memory_map]|]; [|reflexivity].
  destruct (analyze_records _ _ _ _ _ _ _ _); reflexivity.
Qed.

Lemma trace_analyze_ids kernel host_op_id trace_data st :
  kernel_ids (trace_analyze C E kernel host_op_id trace_data st).1.2 = kernel_ids kernel.
Proof.
  unfold trace_analyze.
  destruct (fetch_cubin E (kernel_cubin_id kernel) st) as [[result cubin] st1].
  destruct cubin as [c|]; [|reflexivity].
  destruct (map_prev _ host_op_id) as [[kb memory_map]|]; [|reflexivity].
  pose proof (analyze_records_ids st1 (symbols c) (inst_graph c) memory_map kernel
                (take (Z.to_nat (head_index trace_data)) (records trace_data))) as Hids.
  destruct (analyze_records _ _ _ _ _ _ _ _); exact Hids.
Qed.

(** The kernel map after [redshow_analyze] is the one before the call
    with the slot of the call overwritten by the analysed kernel. *)
Lemma redshow_analyze_kernel_map thread_id cubin_id_ kernel_id_ host_op_id trace_data st :
  let kernel := with_kernel_ids kernel_id_ cubin_id_ (kernel_slot thread_id kernel_id_ st) in
  kernel_map (redshow_analyze C E thread_id cubin_id_ kernel_id_ host_op_id trace_data st).2 =
  <[thread_id :=
      <[kernel_id_ :=
          (trace_analyze C E kernel host_op_id trace_data
             (store_kernel thread_id kernel_id_ kernel st)).1.2]>
        (default ∅ (kernel_map st !! thread_id))]> (kernel_map st).
Proof.
  intros kernel. unfold redshow_analyze. fold kernel.
  destruct (trace_analyze_state kernel host_op_id trace_data
              (store_kernel thread_id kernel_id_ kernel st)) as [m Hm].
  destruct (trace_analyze C E kernel host_op_id trace_data
              (store_kernel thread_id kernel_id_ kernel st)) as [[c kernel'] st1].
  simpl in Hm. subst st1. simpl.
  assert (Hmap : kernel_map
                   (store_kernel thread_id kernel_id_ kernel'
                      (with_cubin_map m (store_kernel thread_id kernel_id_ kernel st))) =
                 <[thread_id := <[kernel_id_ := kernel']>
                                  (default ∅ (kernel_map st !! thread_id))]>
                   (kernel_map st)).
  { unfold store_kernel. simpl. rewrite lookup_insert_eq. simpl.
    rewrite !insert_insert_eq. reflexivity. }
  destruct c as [[]|]; try exact Hmap.
  destruct (log_data_callback _); [|exact Hmap].
  destruct (mini_host_op_id _ =? 0); exact Hmap.
Qed.
End kernel_ids_facts.

(** C10: whatever [redshow_analyze] answers (success, an error code, or
    an exception leaving the call), the kernel map afterwards has an
    entry [kernel_map[thread_id][kernel_id]] whose [kernel_id] and
    [cubin_id] fields are the ones of the call. *)
Theorem analyze_keeps_kernel_entry (C : patch_constants) (E : collaborators)
    (thread_id cubin_id_ kernel_id_ host_op_id : Z) (trace_data : gpu_patch_buffer_t)
    (st : State) :
  exists (thread_kernel_map : gmap Z Kernel) (kernel : Kernel),
    kernel_map (redshow_analyze C E thread_id cubin_id_ kernel_id_ host_op_id
                  trace_data st).2 !! thread_id = Some thread_kernel_map /\
    thread_kernel_map !! kernel_id_ = Some kernel /\
    kernel_id kernel = kernel_id_ /\
    kernel_cubin_id kernel = cubin_id_.
Proof.
  rewrite redshow_analyze_kernel_map.
  eexists. eexists. split; [apply lookup_insert_eq|]. split; [apply lookup_insert_eq|].
  pose proof (trace_analyze_ids C E
                (with_kernel_ids kernel_id_ cubin_id_ (kernel_slot thread_id kernel_id_ st))
                host_op_id trace_data
                (store_kernel thread_id kernel_id_
                   (with_kernel_ids kernel_id_ cubin_id_
                      (kernel_slot thread_id kernel_id_ st)) st)) as Hids.
  unfold kernel_ids in Hids. simpl in Hids.
  injection Hids as Hk Hc. split; assumption.
Qed.

(** An error return keeps the entry: no cubin 9 is known, the call
    answers [NOT_EXIST_ENTRY], and [kernel_map[3][7]] exists with the ids
    of the call. *)
Example analyze_unknown_cubin_keeps_entry :
  let r := redshow_analyze gpu_patch absent_inst_files 3 9 7 10 empty_buffer
             initial_state in
  r.1 = Returns REDSHOW_ERROR_NOT_EXIST_ENTRY /\
  kernel_entry 3 7 initial_state = None /\
  kernel_entry 3 7 r.2 = Some (with_kernel_ids 7 9 Kernel_default).
Proof. vm_compute. repeat split; reflexivity. Qed.

(** ** The state after [redshow_analyze] *)

Lemma trace_analyze_final_state (C : patch_constants) (E : collaborators)
    (kernel : Kernel) (host_op_id : Z) (trace_data : gpu_patch_buffer_t) (st : State) :
  (trace_analyze C E kernel host_op_id trace_data st).2 =
  (fetch_cubin E (kernel_cubin_id kernel) st).2.
Proof.
  unfold trace_analyze.
  destruct (fetch_cubin E (kernel_cubin_id kernel) st) as [[result cubin] st1].
  destruct cubin as [c|]; [|reflexivity].
  destruct (map_prev _ host_op_id) as [[kb memory_map]|]; [|reflexivity].
  destruct (analyze_records _ _ _ _ _ _ _ _); reflexivity.
Qed.

Lemma redshow_analyze_cubin_map (C : patch_constants) (E : collaborators)
    (thread_id cubin_id_ kernel_id_ host_op_id : Z) (trace_data : gpu_patch_buffer_t)
    (st : State) :
  cubin_map (redshow_analyze C E thread_id cubin_id_ kernel_id_ host_op_id
               trace_data st).2 =
  cubin_map (fetch_cubin E cubin_id_ st).2.
Proof.
  unfold redshow_analyze.
  set (kernel := with_kernel_ids kernel_id_ cubin_id_ (kernel_slot thread_id kernel_id_ st)).
  set (st0 := store_kernel thread_id kernel_id_ kernel st).
  pose proof (trace_analyze_final_state C E kernel host_op_id trace_data st0) as Hfinal.
  destruct (trace_analyze C E kernel host_op_id trace_data st0) as [[c kernel'] st1].
  simpl in Hfinal. subst st1.
  assert (Hfetch : cubin_map (fetch_cubin E (kernel_cubin_id kernel) st0).2 =
                   cubin_map (fetch_cubin E cubin_id_ st).2).
  { change (kernel_cubin_id kernel) with cubin_id_.
    unfold fetch_cubin, redshow_cubin_register.
    change (cubin_map st0) with (cubin_map st).
    change (cubin_cache_map st0) with (cubin_cache_map st).
    destruct (cubin_map st !! cubin_id_) eqn:Hid; [reflexivity|].
    destruct (cubin_cache_map st !! cubin_id_) as [cache|]; [|reflexivity].
    destruct (cubin_analyze E _ _ _) as [[result v] g].
    destruct (bool_decide (result = REDSHOW_SUCCESS) || _); simpl;
      destruct (bool_decide (result = REDSHOW_SUCCESS)); simpl;
      rewrite ?lookup_insert_eq; try reflexivity.
    change (cubin_map st0) with (cubin_map st). rewrite Hid. reflexivity. }
  destruct c as [[]|]; simpl; try exact Hfetch.
  destruct (log_data_callback _); [|exact Hfetch].
  destruct (mini_host_op_id _ =? 0); exact Hfetch.
Qed.

Lemma redshow_analyze_state (C : patch_constants) (E : collaborators)
    (thread_id cubin_id_ kernel_id_ host_op_id : Z) (trace_data : gpu_patch_buffer_t)
    (st : State) :
  exists cubins kernels calls mini,
    (redshow_analyze C E thread_id cubin_id_ kernel_id_ host_op_id trace_data st).2 =
    with_mini_host_op_id mini
      (with_log_data (log_data_callback st) calls
         (with_kernel_map kernels (with_cubin_map cubins st))).
Proof.
  unfold redshow_analyze.
  set (kernel := with_kernel_ids kernel_id_ cubin_id_ (kernel_slot thread_id kernel_id_ st)).
  set (st0 := store_kernel thread_id kernel_id_ kernel st).
  destruct (trace_analyze_state C E kernel host_op_id trace_data st0) as [m Hm].
  destruct (trace_analyze C E kernel host_op_id trace_data st0) as [[c kernel'] st1].
  simpl in Hm. subst st1.
  assert (Hplain : exists cubins kernels calls mini,
    store_kernel thread_id kernel_id_ kernel' (with_cubin_map m st0) =
    with_mini_host_op_id mini
      (with_log_data (log_data_callback st) calls
         (with_kernel_map kernels (with_cubin_map cubins st)))).
  { exists m,
      (<[thread_id := <[kernel_id_ := kernel']> (default ∅ (kernel_map st0 !! thread_id))]>
         (kernel_map st0)),
      (log_data_calls st), (mini_host_op_id st). reflexivity. }
  destruct c as [[]|]; simpl; try exact Hplain.
  destruct (log_data_callback st) eqn:Hlog; [|exact Hplain].
  destruct (mini_host_op_id st =? 0);
    (exists m,
       (<[thread_id := <[kernel_id_ := kernel']> (default ∅ (kernel_map st0 !! thread_id))]>
          (kernel_map st0));
     eexists; eexists;
     unfold with_mini_host_op_id, with_log_data, with_kernel_map, with_cubin_map,
       store_kernel; simpl; rewrite ?Hlog; reflexivity).
Qed.

(** ** The reports of a flush *)

Lemma foldl_ext_eq {A B : Type} (f g : A -> B -> A) (l : list B) :
  (forall a b, f a b = g a b) -> forall a, foldl f a l = foldl g a l.
Proof.
  intros Hext. induction l as [|b l IH]; intros a; simpl; [reflexivity|].
  rewrite Hext. apply IH.
Qed.

Section flush_facts.
Variable F : reporters.
Variable kernel_id_ : Z.
Hypothesis Hempty : empty_reports_nothing F.

Lemma call_record_data_silent st cubin_id_ k p :
  silent_for F kernel_id_ p -> (k = kernel_id_ -> num_views (fp_record_data F p) = 0) ->
  silent_for F kernel_id_ (call_record_data F st cubin_id_ k p).
Proof.
  intros Hp Hdata. unfold call_record_data.
  destruct (record_data_callback st); [|exact Hp].
  intros c Hc Hk. simpl in Hc. apply elem_of_app in Hc as [Hc|Hc].
  - apply Hp; assumption.
  - apply list_elem_of_singleton in Hc. subst c. simpl in *. apply Hdata, Hk.
Qed.

Lemma report_spatial_read_silent st symbols_ cubin_id_ k kernel p :
  silent_for F kernel_id_ p -> (k = kernel_id_ -> no_accesses kernel) ->
  silent_for F kernel_id_ (report_spatial_read F st symbols_ cubin_id_ k kernel p).
Proof.
  intros Hp Hk. unfold report_spatial_read.
  destruct (record_spatial_trace F _ _ _ _) as [record_data' statistic] eqn:Hrun.
  apply call_record_data_silent; [exact Hp|].
  intros Heq. simpl. destruct (Hk Heq) as (Hread & _).
  rewrite Hread in Hrun.
  change (num_views (record_data', statistic).1 = 0). rewrite <- Hrun.
  apply (proj1 Hempty).
Qed.

Lemma report_spatial_write_silent st symbols_ cubin_id_ k kernel p :
  silent_for F kernel_id_ p -> (k = kernel_id_ -> no_accesses kernel) ->
  silent_for F kernel_id_ (report_spatial_write F st symbols_ cubin_id_ k kernel p).
Proof.
  intros Hp Hk. unfold report_spatial_write.
  destruct (record_spatial_trace F _ _ _ _) as [record_data' statistic] eqn:Hrun.
  apply call_record_data_silent; [exact Hp|].
  intros Heq. simpl. destruct (Hk Heq) as (_ & Hwrite & _).
  rewrite Hwrite in Hrun.
  change (num_views (record_data', statistic).1 = 0). rewrite <- Hrun.
  apply (proj1 Hempty).
Qed.

Lemma report_temporal_silent access pc_pairs st symbols_ cubin_id_ k p :
  silent_for F kernel_id_ p -> (k = kernel_id_ -> pc_pairs = ∅) ->
  silent_for F kernel_id_ (report_temporal F access pc_pairs st symbols_ cubin_id_ k p).
Proof.
  intros Hp Hk. unfold report_temporal.
  apply call_record_data_silent; [exact Hp|].
  intros Heq. simpl. rewrite (Hk Heq). apply (proj2 Hempty).
Qed.

Lemma unless_failed_silent step p :
  silent_for F kernel_id_ p ->
  (silent_for F kernel_id_ p -> silent_for F kernel_id_ (step p)) ->
  silent_for F kernel_id_ (unless_failed F step p).
Proof.
  intros Hp Hstep. unfold unless_failed. destruct (fp_failure F p); auto.
Qed.

Lemma flush_analysis_silent st symbols_ cubin_id_ k kernel p analysis :
  silent_for F kernel_id_ p -> (k = kernel_id_ -> no_accesses kernel) ->
  silent_for F kernel_id_ (flush_analysis F st symbols_ cubin_id_ k kernel p analysis).
Proof.
  intros Hp Hk. destruct analysis; simpl.
  - apply unless_failed_silent; [apply unless_failed_silent; [exact Hp|]|].
    + intros Hp'. apply report_spatial_read_silent; assumption.
    + intros Hp'. apply report_spatial_write_silent; assumption.
  - apply unless_failed_silent; [apply unless_failed_silent; [exact Hp|]|].
    + intros Hp'. apply report_temporal_silent; [assumption|].
      intros Heq. apply (Hk Heq).
    + intros Hp'. apply report_temporal_silent; [assumption|].
      intros Heq. apply (Hk Heq).
Qed.

Lemma flush_kernel_silent st acc kernel_iter :
  silent_for F kernel_id_ acc.2 -> (kernel_iter.1 = kernel_id_ -> no_accesses kernel_iter.2) ->
  silent_for F kernel_id_ (flush_kernel F st acc kernel_iter).2.
Proof.
  intros Hp Hk. destruct acc as [cubins p]. unfold flush_kernel.
  destruct (fp_failure F p); [exact Hp|]. cbn [snd].
  apply foldl_invariant; [|exact Hp].
  intros p' analysis Hp'. apply flush_analysis_silent; assumption.
Qed.

Lemma flush_kernels_silent st (l : list (Z * Kernel)) :
  (forall e, e ∈ l -> e.1 = kernel_id_ -> no_accesses e.2) ->
  forall acc, silent_for F kernel_id_ acc.2 ->
    silent_for F kernel_id_ (foldl (flush_kernel F st) acc l).2.
Proof.
  induction l as [|e l IH]; intros Hl acc Hacc; [exact Hacc|].
  simpl. apply IH.
  - intros e' He'. apply Hl. right. exact He'.
  - apply flush_kernel_silent; [exact Hacc|]. apply Hl. left.
Qed.

Lemma flush_reports_nothing fresh thread_id st :
  (forall k, kernel_entry thread_id kernel_id_ st = Some k -> no_accesses k) ->
  forall c, c ∈ (redshow_flush F fresh thread_id st).1.2 ->
            call_kernel_id c = kernel_id_ -> num_views (call_data c) = 0.
Proof.
  intros Hk. unfold redshow_flush.
  pose proof (flush_kernels_silent st
                (kernels_in_order (default ∅ (kernel_map st !! thread_id)))) as Hfold.
  specialize (Hfold ltac:(
    intros [kid k] He Hkid; simpl in *; subst kid;
    apply Hk; unfold kernel_entry, kernels_in_order in *;
    rewrite merge_sort_Permutation in He;
    apply elem_of_map_to_list in He;
    destruct (kernel_map st !! thread_id) as [m|]; simpl in *;
      [exact He|rewrite lookup_empty in He; discriminate])).
  specialize (Hfold (cubin_map st,
                     mkFlushProgress F fresh (SpatialStatistic_empty F)
                       (SpatialStatistic_empty F) [] None)).
  destruct (foldl _ _ _) as [cubins p].
  specialize (Hfold ltac:(intros c Hc; simpl in Hc; apply elem_of_nil in Hc; contradiction)).
  destruct (fp_failure F p); exact Hfold.
Qed.
End flush_facts.

(** [redshow_flush] reads of the state the kernels, the active cubins,
    the enabled analyses, the record-data callback and the view limit. *)
Lemma redshow_flush_reads (F : reporters) (fresh : redshow_record_data_t) (thread_id : Z)
    (st st' : State) :
  kernel_map st' = kernel_map st -> cubin_map st' = cubin_map st ->
  analysis_enabled st' = analysis_enabled st ->
  record_data_callback st' = record_data_callback st ->
  pc_views_limit st' = pc_views_limit st ->
  (redshow_flush F fresh thread_id st').1 = (redshow_flush F fresh thread_id st).1.
Proof.
  intros Hkernels Hcubins Henabled Hcallback Hlimit.
  assert (Hstep : forall acc e, flush_kernel F st' acc e = flush_kernel F st acc e).
  { intros [cubins p] e. unfold flush_kernel.
    destruct (fp_failure F p); [reflexivity|]. f_equal.
    rewrite Henabled. apply foldl_ext_eq.
    intros p' analysis.
    unfold flush_analysis, report_spatial_read, report_spatial_write, report_temporal,
      call_record_data.
    rewrite Hcallback, Hlimit. reflexivity. }
  unfold redshow_flush. rewrite Hkernels, Hcubins.
  rewrite (foldl_ext_eq _ _ _ Hstep).
  destruct (foldl _ _ _) as [cubins p].
  destruct (fp_failure F p); reflexivity.
Qed.

(** ** An empty trace buffer *)

Section empty_buffer_facts.
Variable C : patch_constants.
Variable E : collaborators.

Lemma trace_analyze_empty kernel host_op_id trace_data st :
  head_index trace_data = 0 ->
  (trace_analyze C E kernel host_op_id trace_data st).1.2 = kernel.
Proof.
  intros Hhead. unfold trace_analyze. rewrite Hhead.
  destruct (fetch_cubin E (kernel_cubin_id kernel) st) as [[result cubin] st1].
  destruct cubin as [c|]; [|reflexivity].
  destruct (map_prev _ host_op_id) as [[kb memory_map]|]; reflexivity.
Qed.

Lemma fetch_cubin_analyzable cubin_id_ st :
  analyzable E cubin_id_ st ->
  exists c, (fetch_cubin E cubin_id_ st).1 = (REDSHOW_SUCCESS, Some c).
Proof.
  intros Hcubin. unfold fetch_cubin.
  destruct (cubin_map st !! cubin_id_) as [c|] eqn:Hid; [exists c; reflexivity|].
  destruct Hcubin as [[c Hc]|(cache & Hcache & Hread)]; [congruence|].
  rewrite Hcache. unfold redshow_cubin_register.
  destruct (cubin_analyze E _ _ _) as [[result v] g]. simpl in Hread. subst result.
  simpl. rewrite Hid. simpl. rewrite lookup_insert_eq. eexists. reflexivity.
Qed.

Lemma trace_analyze_empty_success kernel host_op_id trace_data st :
  head_index trace_data = 0 ->
  analyzable E (kernel_cubin_id kernel) st ->
  (exists kb, kb <= host_op_id /\ is_Some (memory_snapshot st !! kb)) ->
  (trace_analyze C E kernel host_op_id trace_data st).1.1 = Returns REDSHOW_SUCCESS.
Proof.
  intros Hhead Hcubin (kb & Hle & Hkb). unfold trace_analyze.
  destruct (fetch_cubin_analyzable _ _ Hcubin) as [c Hc].
  destruct (fetch_cubin_state E (kernel_cubin_id kernel) st) as [m Hm].
  destruct (fetch_cubin E (kernel_cubin_id kernel) st) as [[result cubin] st1].
  simpl in Hc, Hm. injection Hc as -> ->. subst st1. rewrite Hhead.
  change (memory_snapshot (with_cubin_map m st)) with (memory_snapshot st).
  destruct (map_prev (memory_snapshot st) host_op_id) as [[kb' memory_map]|] eqn:Hprev;
    [reflexivity|].
  pose proof (proj1 (map_prev_None _ _) Hprev kb Hkb). lia.
Qed.

Lemma analyze_empty_buffer_frame thread_id cubin_id_ kernel_id_ host_op_id trace_data st :
  head_index trace_data = 0 ->
  let st' := (redshow_analyze C E thread_id cubin_id_ kernel_id_ host_op_id
                trace_data st).2 in
  kernel_entry thread_id kernel_id_ st' =
    Some (with_kernel_ids kernel_id_ cubin_id_ (kernel_slot thread_id kernel_id_ st)) /\
  same_accumulators (kernel_slot thread_id kernel_id_ st)
                    (kernel_slot thread_id kernel_id_ st') /\
  (forall t k, (t, k) <> (thread_id, kernel_id_) ->
               kernel_entry t k st' = kernel_entry t k st).
Proof.
  intros Hhead st'. subst st'.
  unfold kernel_slot at 3, kernel_entry.
  rewrite redshow_analyze_kernel_map, trace_analyze_empty by assumption.
  split; [|split].
  - rewrite lookup_insert_eq. simpl. rewrite lookup_insert_eq. reflexivity.
  - rewrite lookup_insert_eq. simpl. rewrite lookup_insert_eq. simpl.
    repeat split.
  - intros t k Hne. destruct (decide (t = thread_id)) as [->|Ht].
    + rewrite lookup_insert_eq. simpl.
      rewrite lookup_insert_ne by congruence.
      destruct (kernel_map st !! thread_id); reflexivity.
    + rewrite lookup_insert_ne by congruence. reflexivity.
Qed.

(** A call for a kernel entry that carries the ids of the call, on an
    active cubin, leaves the kernels and the cubins as they are. *)
Lemma analyze_empty_buffer_same_maps thread_id cubin_id_ kernel_id_ host_op_id
    trace_data st k :
  head_index trace_data = 0 ->
  kernel_entry thread_id kernel_id_ st = Some k ->
  kernel_ids k = (kernel_id_, cubin_id_) ->
  is_Some (cubin_map st !! cubin_id_) ->
  let st' := (redshow_analyze C E thread_id cubin_id_ kernel_id_ host_op_id
                trace_data st).2 in
  kernel_map st' = kernel_map st /\ cubin_map st' = cubin_map st.
Proof.
  intros Hhead Hentry Hids [c Hc] st'. subst st'. split.
  - rewrite redshow_analyze_kernel_map, trace_analyze_empty by assumption.
    unfold kernel_entry in Hentry. unfold kernel_slot.
    destruct (kernel_map st !! thread_id) as [m|] eqn:Hm; [|discriminate].
    simpl in Hentry. simpl. rewrite Hentry. simpl.
    assert (with_kernel_ids kernel_id_ cubin_id_ k = k) as ->.
    { destruct k. unfold kernel_ids in Hids. simpl in Hids.
      injection Hids as -> ->. reflexivity. }
    rewrite (insert_id m kernel_id_ k Hentry).
    apply insert_id. exact Hm.
  - rewrite redshow_analyze_cubin_map. unfold fetch_cubin. rewrite Hc. reflexivity.
Qed.
End empty_buffer_facts.

(** C8, as the code has it: a call with [head_index = 0], an analyzable
    [cubin_id] (active, or cached with an [.inst] file that is read
    successfully), a memory snapshot keyed at or below [host_op_id] and
    a registered log-data callback returns [SUCCESS]; the six
    accumulators of the kernel of the call are what they were before
    (empty for a new kernel) and no other kernel entry changes.  At a
    following [redshow_flush] of the thread: if the kernel had no
    accesses before the call (a new kernel in particular) and the
    reporters find no view in an empty accumulator, every report made
    for this kernel carries [num_views = 0]; if the kernel entry existed
    with the ids of the call and the cubin is active, the flush ends the
    same way and makes the same reports as without the call. *)
Theorem analyze_empty_buffer (C : patch_constants) (E : collaborators)
    (thread_id cubin_id_ kernel_id_ host_op_id : Z) (trace_data : gpu_patch_buffer_t)
    (st : State) :
  head_index trace_data = 0 ->
  analyzable E cubin_id_ st ->
  (exists kb, kb <= host_op_id /\ is_Some (memory_snapshot st !! kb)) ->
  log_data_callback st = true ->
  let r := redshow_analyze C E thread_id cubin_id_ kernel_id_ host_op_id trace_data st in
  r.1 = Returns REDSHOW_SUCCESS /\
  same_accumulators (kernel_slot thread_id kernel_id_ st)
                    (kernel_slot thread_id kernel_id_ r.2) /\
  (forall t k, (t, k) <> (thread_id, kernel_id_) ->
               kernel_entry t k r.2 = kernel_entry t k st) /\
  (forall (F : reporters) (fresh : redshow_record_data_t),
     empty_reports_nothing F ->
     no_accesses (kernel_slot thread_id kernel_id_ st) ->
     forall c, c ∈ (redshow_flush F fresh thread_id r.2).1.2 ->
               call_kernel_id c = kernel_id_ -> num_views (call_data c) = 0) /\
  (forall (F : reporters) (fresh : redshow_record_data_t) (k : Kernel),
     kernel_entry thread_id kernel_id_ st = Some k ->
     kernel_ids k = (kernel_id_, cubin_id_) ->
     is_Some (cubin_map st !! cubin_id_) ->
     (redshow_flush F fresh thread_id r.2).1 = (redshow_flush F fresh thread_id st).1).
Proof.
  intros Hhead Hcubin Hsnapshot Hlog r. subst r.
  destruct (analyze_empty_buffer_frame C E thread_id cubin_id_ kernel_id_ host_op_id
              trace_data st Hhead) as (Hentry & Hsame & Hothers).
  split; [|split; [exact Hsame|split; [exact Hothers|split]]].
  - unfold redshow_analyze.
    set (kernel := with_kernel_ids kernel_id_ cubin_id_ (kernel_slot thread_id kernel_id_ st)).
    set (st0 := store_kernel thread_id kernel_id_ kernel st).
    pose proof (trace_analyze_empty_success C E kernel host_op_id trace_data st0 Hhead
                  Hcubin Hsnapshot) as Hres.
    destruct (trace_analyze_state C E kernel host_op_id trace_data st0) as [m Hm].
    destruct (trace_analyze C E kernel host_op_id trace_data st0) as [[c kernel'] st1].
    simpl in Hres, Hm. subst c st1. simpl. rewrite Hlog.
    destruct (mini_host_op_id st =? 0); reflexivity.
  - intros F fresh Hnothing Hnone. apply flush_reports_nothing; [exact Hnothing|].
    intros k Hk. rewrite Hentry in Hk. injection Hk as <-.
    exact Hnone.
  - intros F fresh k Hk Hids Hactive.
    destruct (analyze_empty_buffer_same_maps C E thread_id cubin_id_ kernel_id_
                host_op_id trace_data st k Hhead Hk Hids Hactive) as [Hkernels Hcubins].
    destruct (redshow_analyze_state C E thread_id cubin_id_ kernel_id_ host_op_id
                trace_data st) as (cubins & kernels & calls & mini & Hst).
    apply redshow_flush_reads; try assumption; rewrite Hst; reflexivity.
Qed.

Lemma counting_reporters_empty : empty_reports_nothing counting_reporters.
Proof.
  split; intros; simpl; rewrite map_size_empty, Nat.min_0_r; reflexivity.
Qed.

Lemma analyze_empty_buffer_witness :
  let r := redshow_analyze gpu_patch readable_inst_files 0 7 3 10 empty_buffer
             cached_ready_state in
  cubin_map cached_ready_state !! 7 = None /\
  r.1 = Returns REDSHOW_SUCCESS /\
  length (redshow_flush counting_reporters fresh_record_data 0 r.2).1.2 = 2%nat /\
  Forall (fun c => call_kernel_id c = 3 /\ num_views (call_data c) = 0)
    (redshow_flush counting_reporters fresh_record_data 0 r.2).1.2.
Proof.
  intros r.
  destruct (analyze_empty_buffer gpu_patch readable_inst_files 0 7 3 10 empty_buffer
              cached_ready_state) as (Hresult & _ & _ & Hflush & _).
  - reflexivity.
  - right. eexists. split; [vm_compute; reflexivity|vm_compute; reflexivity].
  - exists 10. split; [lia|]. eexists. vm_compute. reflexivity.
  - reflexivity.
  - split; [vm_compute; reflexivity|]. split; [exact Hresult|].
    split; [vm_compute; reflexivity|].
    apply Forall_forall. intros c Hc.
    assert (Hkernel : call_kernel_id c = 3).
    { revert c Hc. apply Forall_forall. vm_compute. repeat constructor. }
    split; [exact Hkernel|].
    apply (Hflush counting_reporters fresh_record_data); try assumption.
    + exact counting_reporters_empty.
    + vm_compute. repeat split.
Defined.

(** C8, counterexample: cubin 1 is active and the buffer is empty.  With
    no memory snapshot the call returns [NOT_EXIST_ENTRY]; with a snapshot
    but no log-data callback it returns [NOT_REGISTER_CALLBACK]. *)
Lemma analyze_empty_buffer_counterexample :
  let st := redshow_log_data_callback_register true registered_cubin_state in
  let st' := (redshow_memory_register 0x1000 0x2000 10 42 registered_cubin_state).2 in
  is_Some (cubin_map st !! 1) /\
  head_index empty_buffer = 0 /\
  (redshow_analyze gpu_patch absent_inst_files 0 1 7 10 empty_buffer st).1 =
    Returns REDSHOW_ERROR_NOT_EXIST_ENTRY /\
  is_Some (cubin_map st' !! 1) /\
  (redshow_analyze gpu_patch absent_inst_files 0 1 7 10 empty_buffer st').1 =
    Returns REDSHOW_ERROR_NOT_REGISTER_CALLBACK.
Proof.
  intros st st'.
  split; [eexists; vm_compute; reflexivity|].
  split; [reflexivity|].
  split; [vm_compute; reflexivity|].
  split; [eexists; vm_compute; reflexivity|].
  vm_compute; reflexivity.
Qed.

(** ** [compute_memcpy_redundancy<true>] *)

Lemma filter_length_ext (P Q : nat -> Prop) `{!forall i, Decision (P i)}
    `{!forall i, Decision (Q i)} (l : list nat) :
  (forall i, i ∈ l -> (P i <-> Q i)) ->
  length (filter P l) = length (filter Q l).
Proof.
  induction l as [|i l IH]; intros Hext; [reflexivity|].
  assert (length (filter P l) = length (filter Q l)) as Htail.
  { apply IH. intros j Hj. apply Hext. right. assumption. }
  pose proof (Hext i ltac:(left)) as Hi.
  destruct (decide (P i)) as [HP|HP].
  - rewrite (filter_cons_True P i l HP), (filter_cons_True Q i l (proj1 Hi HP)).
    simpl. congruence.
  - rewrite (filter_cons_False P i l HP), (filter_cons_False Q i l) by tauto.
    exact Htail.
Qed.

Lemma double_add_one_exact (same : Z) : same < 2 ^ 53 -> double_add_one same = same + 1.
Proof.
  intros Hlt. unfold double_add_one.
  destruct (same <? 2 ^ 53) eqn:H; [reflexivity|]. apply Z.ltb_ge in H. lia.
Qed.

Lemma memcpy_redundancy_loop_spec (src : list Byte.byte) : forall (n i : nat)
    (dst : list Byte.byte) (same : Z),
  length dst = length src -> (i + n)%nat = length src ->
  same + Z.of_nat n <= 2 ^ 53 ->
  memcpy_redundancy_loop n i dst src same =
    (same + Z.of_nat (length (filter (fun j => dst !! j = src !! j) (seq i n))),
     take i dst ++ drop i src).
Proof.
  induction n as [|n IH]; intros i dst same Hlen Hin Hfit.
  - simpl. rewrite Z.add_0_r.
    rewrite take_ge, drop_ge, app_nil_r by lia. reflexivity.
  - destruct (lookup_lt_is_Some_2 dst i ltac:(lia)) as [d Hd].
    destruct (lookup_lt_is_Some_2 src i ltac:(lia)) as [s Hs].
    cbn [memcpy_redundancy_loop]. rewrite Hd, Hs.
    cbn [seq].
    rewrite (drop_S src s i Hs).
    destruct (Byte.eqb d s) eqn:Heq.
    + apply byte_dec_bl in Heq. subst s.
      rewrite double_add_one_exact by lia.
      rewrite IH by lia.
      rewrite filter_cons_True by congruence.
      rewrite (take_S_r dst i d Hd), <- app_assoc. simpl.
      f_equal. lia.
    + apply eqb_false in Heq.
      rewrite IH by (rewrite ?length_insert; lia).
      rewrite (filter_cons_False _ i) by congruence.
      rewrite (take_S_r (<[i:=s]> dst) i s)
        by (apply list_lookup_insert_eq; lia).
      rewrite take_insert_ge by lia.
      rewrite <- app_assoc. simpl. f_equal. f_equal. f_equal.
      apply filter_length_ext. intros j Hj. apply elem_of_seq in Hj.
      rewrite list_lookup_insert_ne by lia. reflexivity.
Qed.

(** C9, as the code has it: for two buffers of [len] bytes with
    [len <= 2 ^ 53], the call returns the number of indices at which the
    buffers agreed before the call and leaves [dst] equal to [src].
    The counter is a [double]: beyond [2 ^ 53] it stops counting. *)
Theorem memcpy_redundancy_counts (dst src : list Byte.byte) (len : nat) :
  length dst = len -> length src = len -> Z.of_nat len <= 2 ^ 53 ->
  compute_memcpy_redundancy_true dst src len =
    (Z.of_nat (equal_bytes dst src len), src).
Proof.
  intros Hdst Hsrc Hfit. unfold compute_memcpy_redundancy_true, equal_bytes.
  rewrite (memcpy_redundancy_loop_spec src len 0 dst 0) by lia.
  reflexivity.
Qed.

Lemma memcpy_redundancy_counts_witness :
  compute_memcpy_redundancy_true [x01; x02; x03]%byte [x01; x07; x03]%byte 3 =
    (2, [x01; x07; x03]%byte).
Proof.
  apply (memcpy_redundancy_counts [x01; x02; x03]%byte [x01; x07; x03]%byte 3).
  - reflexivity.
  - reflexivity.
  - simpl. lia.
Defined.

(** The counter on two equal buffers of [n] copies of one byte. *)
Lemma memcpy_redundancy_loop_saturates (b : Byte.byte) (size_ : nat) : forall (n i : nat)
    (same : Z),
  (i + n <= size_)%nat -> 0 <= same <= 2 ^ 53 ->
  memcpy_redundancy_loop n i (replicate size_ b) (replicate size_ b) same =
    (Z.min (same + Z.of_nat n) (2 ^ 53), replicate size_ b).
Proof.
  induction n as [|n IH]; intros i same Hin Hsame.
  - cbn [memcpy_redundancy_loop]. f_equal. lia.
  - cbn [memcpy_redundancy_loop].
    rewrite (lookup_replicate_2 size_ b i) by lia.
    rewrite (byte_dec_lb (eq_refl b)).
    unfold double_add_one. destruct (same <? 2 ^ 53) eqn:Hlt.
    + apply Z.ltb_lt in Hlt. rewrite IH by lia. f_equal. lia.
    + apply Z.ltb_ge in Hlt. rewrite IH by lia. f_equal. lia.
Qed.

(** C9, counterexample: on two buffers of [2 ^ 53 + 1] zero bytes, which
    agree at every index, the call returns [2 ^ 53]. *)
Lemma memcpy_redundancy_counterexample :
  let buffer := replicate past_double_precision x00%byte in
  Z.of_nat (equal_bytes buffer buffer past_double_precision) = 2 ^ 53 + 1 /\
  (compute_memcpy_redundancy_true buffer buffer past_double_precision).1 = 2 ^ 53.
Proof.
  assert (Hlen : Z.of_nat past_double_precision = 2 ^ 53 + 1)
    by (unfold past_double_precision; apply Z2Nat.id; lia).
  generalize dependent past_double_precision. intros n Hlen buffer. split.
  - unfold equal_bytes.
    rewrite (filter_length_ext _ (fun _ => True) (seq 0 n)) by (intros; tauto).
    assert (forall l : list nat, filter (fun _ => True) l = l) as ->.
    { induction l as [|x l IHl]; [reflexivity|].
      rewrite filter_cons_True by exact I. congruence. }
    rewrite length_seq. exact Hlen.
  - unfold compute_memcpy_redundancy_true. subst buffer.
    rewrite (memcpy_redundancy_loop_saturates x00%byte n n 0%nat 0) by lia.
    simpl fst. lia.
Qed.

(** * Further properties *)

(** ** PC translation on any vector *)

Lemma upper_bound_loop_last (v : list Symbol) (val : Symbol) (fuel : nat) :
  forall first len : nat,
  (first + len <= length v)%nat ->
  (first = 0%nat \/
   exists s, v !! (first - 1)%nat = Some s /\ Symbol_lt val s = false) ->
  let r := upper_bound_loop fuel v val first len in
  (r <= length v)%nat /\
  (r = 0%nat \/ exists s, v !! (r - 1)%nat = Some s /\ Symbol_lt val s = false).
Proof.
  induction fuel as [|fuel IH]; intros first len Hlen Hlast; simpl.
  - split; [lia|exact Hlast].
  - destruct (0 <? len)%nat eqn:Hpos; [|split; [lia|exact Hlast]].
    apply Nat.ltb_lt in Hpos.
    assert (Nat.div2 len < len)%nat as Hlt by (apply Nat.lt_div2; lia).
    generalize dependent (Nat.div2 len). intros half Hlt.
    destruct (v !! (first + half)%nat) as [s|] eqn:Hmid; [|split; [lia|exact Hlast]].
    destruct (Symbol_lt val s) eqn:Hcmp.
    + apply IH; [lia|exact Hlast].
    + apply IH; [lia|]. right. exists s.
      replace (first + half + 1 - 1)%nat with (first + half)%nat by lia.
      split; assumption.
Qed.

(** X1: on any symbol vector, sorted or not, [transform_pc] either fails
    with [NOT_EXIST_ENTRY] and leaves the outputs alone, or succeeds with
    a symbol of the vector whose [pc] is not above the translated one, so
    that [pc_offset] is the plain difference for 64-bit values. *)
Theorem transform_pc_any_vector (v : list Symbol) (p : Z) (out : pc_out) :
  transform_pc v p out = (REDSHOW_ERROR_NOT_EXIST_ENTRY, out) \/
  exists s, s ∈ v /\ pc s <= p /\
    (0 <= pc s -> p < 2 ^ 64 -> wrap64 (p - pc s) = p - pc s) /\
    transform_pc v p out =
      (REDSHOW_SUCCESS,
       mkPcOut (index s) (wrap64 (wrap64 (p - pc s) + cubin_offset s))
               (wrap64 (p - pc s))).
Proof.
  unfold transform_pc.
  destruct (upper_bound_loop_last v (Symbol_of_pc p) (length v) 0%nat (length v))
    as [Hle Hlast]; [lia|left; reflexivity|].
  fold (upper_bound v (Symbol_of_pc p)) in Hle, Hlast.
  destruct Hlast as [Hzero|(s & Hs & Hcmp)].
  - left. rewrite Hzero. reflexivity.
  - destruct (upper_bound v (Symbol_of_pc p) =? 0)%nat eqn:Hr; [left; reflexivity|].
    right. exists s. rewrite Hs.
    unfold Symbol_lt in Hcmp. simpl in Hcmp. apply Z.ltb_ge in Hcmp.
    split; [eapply list_elem_of_lookup_2; exact Hs|].
    split; [exact Hcmp|]. split; [|reflexivity].
    intros Hpc Hp. unfold wrap64. apply Z.mod_small. lia.
Qed.

Lemma StronglySorted_lookup_le (v : list Symbol) :
  StronglySorted (fun a b => pc a <= pc b) v ->
  forall i j si sj, (i <= j)%nat -> v !! i = Some si -> v !! j = Some sj ->
    pc si <= pc sj.
Proof.
  induction 1 as [|a l Hsorted IH Hall]; intros i j si sj Hij Hi Hj.
  - rewrite lookup_nil in Hi. discriminate.
  - destruct i as [|i], j as [|j]; simpl in Hi, Hj; try lia.
    + injection Hi as <-. injection Hj as <-. lia.
    + injection Hi as <-. rewrite Forall_forall in Hall.
      apply Hall. eapply list_elem_of_lookup_2. exact Hj.
    + apply (IH i j); [lia|assumption|assumption].
Qed.

Lemma transform_pc_sorted_cases (v : list Symbol) (p : Z) (out : pc_out) :
  StronglySorted (fun a b => pc a <= pc b) v ->
  ((forall s, s ∈ v -> p < pc s) /\
   transform_pc v p out = (REDSHOW_ERROR_NOT_EXIST_ENTRY, out)) \/
  (exists s, s ∈ v /\ pc s <= p /\
     (forall s', s' ∈ v -> pc s' <= p -> pc s' <= pc s) /\
     transform_pc v p out =
       (REDSHOW_SUCCESS,
        mkPcOut (index s) (wrap64 (wrap64 (p - pc s) + cubin_offset s))
                (wrap64 (p - pc s)))).
Proof.
  intros Hsorted.
  pose proof (StronglySorted_lookup_le v Hsorted) as Hle.
  destruct (upper_bound_partition v (Symbol_of_pc p)) as (Hlen & Hlo & Hhi).
  { intros i j si sj Hij Hi Hj. unfold Symbol_lt. simpl. rewrite !Z.ltb_lt.
    pose proof (Hle i j si sj Hij Hi Hj). lia. }
  unfold transform_pc.
  destruct (upper_bound v (Symbol_of_pc p)) as [|r] eqn:Hr; simpl.
  - left. split; [|reflexivity].
    intros s Hs. apply list_elem_of_lookup_1 in Hs as [j Hj].
    pose proof (Hhi j s ltac:(lia) Hj) as Hlt.
    unfold Symbol_lt in Hlt. simpl in Hlt. apply Z.ltb_lt in Hlt. exact Hlt.
  - right. rewrite Nat.sub_0_r.
    destruct (lookup_lt_is_Some_2 v r ltac:(lia)) as [s Hs].
    exists s. rewrite Hs.
    pose proof (Hlo r s ltac:(lia) Hs) as Hge.
    unfold Symbol_lt in Hge. simpl in Hge. apply Z.ltb_ge in Hge.
    split; [eapply list_elem_of_lookup_2; exact Hs|].
    split; [exact Hge|]. split; [|reflexivity].
    intros s' Hs' Hp. apply list_elem_of_lookup_1 in Hs' as [j Hj].
    destruct (decide (j <= r)%nat) as [Hjr|Hjr].
    + exact (Hle j r s' s Hjr Hj Hs).
    + pose proof (Hhi j s' ltac:(lia) Hj) as Hlt.
      unfold Symbol_lt in Hlt. simpl in Hlt. apply Z.ltb_lt in Hlt. lia.
Qed.

(** X2: on a vector in non-decreasing order of [pc] (what the registry
    stores, equal PCs included), [transform_pc] fails exactly when every
    symbol starts above the [pc], and otherwise answers with a symbol of
    the greatest [pc] not above it. *)
Theorem transform_pc_greatest_symbol (v : list Symbol) (p : Z) (out : pc_out) :
  StronglySorted (fun a b => pc a <= pc b) v ->
  ((forall s, s ∈ v -> p < pc s) /\
   transform_pc v p out = (REDSHOW_ERROR_NOT_EXIST_ENTRY, out)) \/
  (exists s, s ∈ v /\ pc s <= p /\
     (forall s', s' ∈ v -> pc s' <= p -> pc s' <= pc s) /\
     transform_pc v p out =
       (REDSHOW_SUCCESS,
        mkPcOut (index s) (wrap64 (wrap64 (p - pc s) + cubin_offset s))
                (wrap64 (p - pc s)))).
Proof. apply transform_pc_sorted_cases. Qed.

Lemma transform_pc_greatest_symbol_witness :
  exists s, s ∈ [mkSymbol 0 0 0x100; mkSymbol 1 8 0x100; mkSymbol 2 16 0x200] /\
    pc s <= 0x180 /\
    transform_pc [mkSymbol 0 0 0x100; mkSymbol 1 8 0x100; mkSymbol 2 16 0x200] 0x180
      (mkPcOut 0 0 0) =
      (REDSHOW_SUCCESS,
       mkPcOut (index s) (wrap64 (wrap64 (0x180 - pc s) + cubin_offset s))
               (wrap64 (0x180 - pc s))).
Proof.
  destruct (transform_pc_greatest_symbol
              [mkSymbol 0 0 0x100; mkSymbol 1 8 0x100; mkSymbol 2 16 0x200] 0x180
              (mkPcOut 0 0 0)) as [[Hall _]|(s & Hin & Hle & _ & Hrun)].
  - repeat constructor; simpl; lia.
  - exfalso. pose proof (Hall (mkSymbol 0 0 0x100) ltac:(left)) as H. simpl in H. lia.
  - exists s. split; [exact Hin|]. split; [exact Hle|exact Hrun].
Defined.

(** ** The cubin registry, further *)

Lemma cubin_analyze_results (E : collaborators) (path_ : string) (v : list Symbol)
    (g : InstructionGraph) :
  (cubin_analyze E path_ v g).1.1 = REDSHOW_SUCCESS \/
  (cubin_analyze E path_ v g).1.1 = REDSHOW_ERROR_NO_SUCH_FILE \/
  (cubin_analyze E path_ v g).1.1 = REDSHOW_ERROR_FAILED_ANALYZE_CUBIN.
Proof.
  unfold cubin_analyze.
  destruct (rfind path_ "/" npos =? npos); [right; left; reflexivity|].
  destruct (negb (inst_file_good E _)); [right; left; reflexivity|].
  destruct (parse_instructions E _ v g) as [[[] v'] g']; simpl; auto.
Qed.

(** X3: [redshow_cubin_register] commits all or nothing.  When it returns
    [SUCCESS] or [NO_SUCH_FILE] the id was not active and exactly one
    entry is added, filed under the id, carrying the id and the path, with
    its symbols in non-decreasing order of [pc]; when it returns
    [DUPLICATE_ENTRY] (the id was active) or [FAILED_ANALYZE_CUBIN] the
    state is unchanged; no other result is possible. *)
Theorem cubin_register_commits (E : collaborators) (cubin_id_ nsymbols : Z)
    (symbol_pcs : list Z) (path_ : string) (st : State) :
  let r := redshow_cubin_register E cubin_id_ nsymbols symbol_pcs path_ st in
  ((r.1 = REDSHOW_SUCCESS \/ r.1 = REDSHOW_ERROR_NO_SUCH_FILE) /\
   cubin_map st !! cubin_id_ = None /\
   exists c, r.2 = with_cubin_map (<[cubin_id_ := c]> (cubin_map st)) st /\
     cubin_id c = cubin_id_ /\ path c = path_ /\
     StronglySorted (fun a b => pc a <= pc b) (symbols c)) \/
  ((r.1 = REDSHOW_ERROR_DUPLICATE_ENTRY /\ is_Some (cubin_map st !! cubin_id_) \/
    r.1 = REDSHOW_ERROR_FAILED_ANALYZE_CUBIN) /\
   r.2 = st).
Proof.
  unfold redshow_cubin_register.
  pose proof (cubin_analyze_results E path_
                (replicate (Z.to_nat nsymbols) Symbol_default) InstructionGraph_empty)
    as Hresult.
  destruct (cubin_analyze E path_ _ _) as [[result v] g]. simpl in Hresult.
  destruct (cubin_map st !! cubin_id_) as [old|] eqn:Hid.
  - right.
    destruct Hresult as [->|[->| ->]]; simpl; (split; [|reflexivity]).
    + left. split; [reflexivity|]. eexists; reflexivity.
    + left. split; [reflexivity|]. eexists; reflexivity.
    + right. reflexivity.
  - destruct Hresult as [->|[->| ->]]; simpl.
    + left. split; [left; reflexivity|]. split; [reflexivity|].
      eexists. split; [reflexivity|]. simpl.
      split; [reflexivity|]. split; [reflexivity|]. apply sort_symbols_sorted.
    + left. split; [right; reflexivity|]. split; [reflexivity|].
      eexists. split; [reflexivity|]. simpl.
      split; [reflexivity|]. split; [reflexivity|]. apply sort_symbols_sorted.
    + right. split; [right; reflexivity|reflexivity].
Qed.

Lemma cubin_register_fresh (E : collaborators) (cubin_id_ nsymbols : Z)
    (symbol_pcs : list Z) (path_ : string) (st : State) :
  cubin_map st !! cubin_id_ = None ->
  (redshow_cubin_register E cubin_id_ nsymbols symbol_pcs path_ st).1 <>
    REDSHOW_ERROR_FAILED_ANALYZE_CUBIN ->
  exists c, (redshow_cubin_register E cubin_id_ nsymbols symbol_pcs path_ st).2 =
            with_cubin_map (<[cubin_id_ := c]> (cubin_map st)) st.
Proof.
  intros Hfresh Hok. unfold redshow_cubin_register in *.
  pose proof (cubin_analyze_results E path_
                (replicate (Z.to_nat nsymbols) Symbol_default) InstructionGraph_empty)
    as Hresult.
  destruct (cubin_analyze E path_ _ _) as [[result v] g]. simpl in Hresult.
  rewrite Hfresh in *.
  destruct Hresult as [->|[->| ->]]; simpl in *;
    try (eexists; reflexivity). contradiction.
Qed.

Lemma with_cubin_map_twice (m m' : gmap Z Cubin) (st : State) :
  with_cubin_map m (with_cubin_map m' st) = with_cubin_map m st.
Proof. reflexivity. Qed.

(** X4: unregistering a cubin right after it was registered (with any
    result but a parse failure) succeeds and gives back the state before
    the registration; a cubin that is not active cannot be unregistered:
    the call fails with [NOT_EXIST_ENTRY] and changes nothing. *)
Theorem cubin_register_unregister (E : collaborators) (cubin_id_ nsymbols : Z)
    (symbol_pcs : list Z) (path_ : string) (st : State) :
  cubin_map st !! cubin_id_ = None ->
  (redshow_cubin_register E cubin_id_ nsymbols symbol_pcs path_ st).1 <>
    REDSHOW_ERROR_FAILED_ANALYZE_CUBIN ->
  redshow_cubin_unregister cubin_id_
    (redshow_cubin_register E cubin_id_ nsymbols symbol_pcs path_ st).2 =
    (REDSHOW_SUCCESS, st) /\
  redshow_cubin_unregister cubin_id_ st = (REDSHOW_ERROR_NOT_EXIST_ENTRY, st).
Proof.
  intros Hfresh Hok.
  destruct (cubin_register_fresh E cubin_id_ nsymbols symbol_pcs path_ st Hfresh Hok)
    as [c ->].
  unfold redshow_cubin_unregister. simpl.
  rewrite lookup_insert_eq, Hfresh. split; [|reflexivity].
  rewrite with_cubin_map_twice, delete_insert_eq, delete_id by assumption.
  rewrite with_cubin_map_same. reflexivity.
Qed.

Lemma cubin_register_unregister_witness :
  redshow_cubin_unregister 1
    (redshow_cubin_register absent_inst_files 1 1 [0x1000] "/tmp/cubins/a.cubin"
       initial_state).2 = (REDSHOW_SUCCESS, initial_state).
Proof.
  apply (cubin_register_unregister absent_inst_files 1 1 [0x1000]
           "/tmp/cubins/a.cubin" initial_state).
  - reflexivity.
  - vm_compute. discriminate.
Defined.

(** X5: the first [redshow_cubin_cache_register] for an id succeeds and
    stores the id, the path and the first [nsymbols] PCs; every later one
    for that id fails with [DUPLICATE_ENTRY] and leaves the state as it
    is; the active cubin map is never touched. *)
Theorem cubin_cache_register_once (cubin_id_ nsymbols : Z) (symbol_pcs : list Z)
    (path_ : string) (st : State) :
  cubin_cache_map st !! cubin_id_ = None ->
  let r := redshow_cubin_cache_register cubin_id_ nsymbols symbol_pcs path_ st in
  r.1 = REDSHOW_SUCCESS /\
  cubin_cache_map r.2 !! cubin_id_ =
    Some (mkCubinCache cubin_id_ nsymbols (take (Z.to_nat nsymbols) symbol_pcs) path_) /\
  cubin_map r.2 = cubin_map st /\
  forall nsymbols' symbol_pcs' path',
    redshow_cubin_cache_register cubin_id_ nsymbols' symbol_pcs' path' r.2 =
      (REDSHOW_ERROR_DUPLICATE_ENTRY, r.2).
Proof.
  intros Hfresh. unfold redshow_cubin_cache_register. rewrite Hfresh. simpl.
  split; [reflexivity|]. split; [apply lookup_insert_eq|]. split; [reflexivity|].
  intros n' pcs' path'. rewrite lookup_insert_eq. reflexivity.
Qed.

Lemma cubin_cache_register_once_witness :
  (redshow_cubin_cache_register 7 1 [0x1000; 0x2000] "/tmp/cubins/a.cubin"
     initial_state).1 = REDSHOW_SUCCESS /\
  cubin_cache_map
    (redshow_cubin_cache_register 7 1 [0x1000; 0x2000] "/tmp/cubins/a.cubin"
       initial_state).2 !! 7 =
    Some (mkCubinCache 7 1 [0x1000] "/tmp/cubins/a.cubin").
Proof.
  destruct (cubin_cache_register_once 7 1 [0x1000; 0x2000] "/tmp/cubins/a.cubin"
              initial_state) as (Hres & Hentry & _); [reflexivity|].
  split; [exact Hres|exact Hentry].
Defined.

Lemma cubin_register_missing_inst (E : collaborators) (cubin_id_ nsymbols : Z)
    (symbol_pcs : list Z) (path_ : string) (st : State) :
  cubin_map st !! cubin_id_ = None ->
  rfind path_ "/"%char npos = npos \/
  inst_file_good E (inst_path_of path_ (rfind path_ "/"%char npos)) = false ->
  (Z.to_nat nsymbols <= length symbol_pcs)%nat ->
  redshow_cubin_register E cubin_id_ nsymbols symbol_pcs path_ st =
    (REDSHOW_ERROR_NO_SUCH_FILE,
     with_cubin_map
       (<[cubin_id_ :=
            mkCubin cubin_id_ path_
              (symbols_of_pcs (take (Z.to_nat nsymbols) symbol_pcs))
              InstructionGraph_empty]> (cubin_map st))
       st).
Proof.
  intros Hfresh Hmissing Hlen. unfold redshow_cubin_register, symbols_of_pcs.
  rewrite (cubin_analyze_no_file E path_ _ _ Hmissing). simpl.
  rewrite Hfresh, (assign_symbol_pcs_default nsymbols symbol_pcs Hlen).
  reflexivity.
Qed.

(** X6: lazy promotion when the [.inst] file is missing.  For a cubin that
    is only in the cache, the first [redshow_analyze] registers it (with
    an empty graph and the cached PCs) but hands back the registration's
    [NO_SUCH_FILE] without analysing the buffer; from then on the cubin is
    found in the active map. *)
Theorem lazy_promotion_without_inst (C : patch_constants) (E : collaborators)
    (thread_id cubin_id_ kernel_id_ host_op_id : Z) (trace_data : gpu_patch_buffer_t)
    (st : State) (cache : CubinCache) :
  cubin_map st !! cubin_id_ = None ->
  cubin_cache_map st !! cubin_id_ = Some cache ->
  rfind (cache_path cache) "/"%char npos = npos \/
  inst_file_good E (inst_path_of (cache_path cache)
                      (rfind (cache_path cache) "/"%char npos)) = false ->
  (Z.to_nat (cache_nsymbols cache) <= length (cache_symbol_pcs cache))%nat ->
  let r := redshow_analyze C E thread_id cubin_id_ kernel_id_ host_op_id trace_data st in
  let promoted :=
    mkCubin cubin_id_ (cache_path cache)
      (symbols_of_pcs (take (Z.to_nat (cache_nsymbols cache)) (cache_symbol_pcs cache)))
      InstructionGraph_empty in
  r.1 = Returns REDSHOW_ERROR_NO_SUCH_FILE /\
  cubin_map r.2 = <[cubin_id_ := promoted]> (cubin_map st) /\
  same_accumulators (kernel_slot thread_id kernel_id_ st)
                    (kernel_slot thread_id kernel_id_ r.2) /\
  fetch_cubin E cubin_id_ r.2 = (REDSHOW_SUCCESS, Some promoted, r.2).
Proof.
  intros Hfresh Hcache Hmissing Hlen r promoted.
  set (kernel := with_kernel_ids kernel_id_ cubin_id_ (kernel_slot thread_id kernel_id_ st)).
  set (st0 := store_kernel thread_id kernel_id_ kernel st).
  assert (Hrun : r = (Returns REDSHOW_ERROR_NO_SUCH_FILE,
                      store_kernel thread_id kernel_id_ kernel
                        (with_cubin_map (<[cubin_id_ := promoted]> (cubin_map st)) st0))).
  { subst r. unfold redshow_analyze, trace_analyze, fetch_cubin.
    fold kernel. fold st0.
    change (kernel_cubin_id kernel) with cubin_id_.
    change (cubin_map st0) with (cubin_map st).
    change (cubin_cache_map st0) with (cubin_cache_map st).
    rewrite Hfresh, Hcache.
    rewrite (cubin_register_missing_inst E cubin_id_ (cache_nsymbols cache)
               (cache_symbol_pcs cache) (cache_path cache) st0 Hfresh Hmissing Hlen).
    reflexivity. }
  rewrite Hrun. simpl.
  split; [reflexivity|]. split; [reflexivity|]. split.
  - unfold kernel_slot at 2. simpl.
    rewrite lookup_insert_eq. simpl. rewrite !lookup_insert_eq. simpl.
    repeat split.
  - unfold fetch_cubin. simpl. rewrite lookup_insert_eq. reflexivity.
Qed.

Lemma lazy_promotion_without_inst_witness :
  (redshow_analyze gpu_patch absent_inst_files 0 7 3 10 empty_buffer
     cached_cubin_state).1 = Returns REDSHOW_ERROR_NO_SUCH_FILE.
Proof.
  apply (lazy_promotion_without_inst gpu_patch absent_inst_files 0 7 3 10 empty_buffer
           cached_cubin_state (mkCubinCache 7 1 [0x1000] "/tmp/cubins/a.cubin")).
  - reflexivity.
  - reflexivity.
  - right. reflexivity.
  - simpl. lia.
Defined.

Lemma symbols_of_pcs_elem (symbol_pcs : list Z) (s : Symbol) :
  s ∈ symbols_of_pcs symbol_pcs <-> exists q, q ∈ symbol_pcs /\ s = Symbol_of_pc q.
Proof.
  unfold symbols_of_pcs. rewrite sort_symbols_perm, list_elem_of_fmap.
  split; intros (q & H1 & H2); exists q; auto.
Qed.

(** X7: PC translation for a cubin that was registered without an
    [.inst] file, whose symbols come from the PCs alone.  A 64-bit [pc]
    below every symbol PC fails with [NOT_EXIST_ENTRY]; any other [pc] is
    translated to function index 0 with [cubin_offset] and [pc_offset]
    both equal to the distance from the greatest symbol PC not above
    it. *)
Theorem transform_pc_without_inst (symbol_pcs : list Z) (p : Z) (out : pc_out) :
  (forall q, q ∈ symbol_pcs -> 0 <= q) -> 0 <= p < 2 ^ 64 ->
  ((forall q, q ∈ symbol_pcs -> p < q) /\
   transform_pc (symbols_of_pcs symbol_pcs) p out = (REDSHOW_ERROR_NOT_EXIST_ENTRY, out)) \/
  (exists q, q ∈ symbol_pcs /\ q <= p /\
     (forall q', q' ∈ symbol_pcs -> q' <= p -> q' <= q) /\
     transform_pc (symbols_of_pcs symbol_pcs) p out =
       (REDSHOW_SUCCESS, mkPcOut 0 (p - q) (p - q))).
Proof.
  intros Hpos Hp.
  destruct (transform_pc_sorted_cases (symbols_of_pcs symbol_pcs) p out
              (sort_symbols_sorted _)) as [[Hall Hrun]|(s & Hin & Hle & Hmax & Hrun)].
  - left. split; [|exact Hrun]. intros q Hq.
    apply (Hall (Symbol_of_pc q)). apply symbols_of_pcs_elem. exists q. auto.
  - right. apply symbols_of_pcs_elem in Hin as (q & Hq & ->). simpl in *.
    exists q. split; [exact Hq|]. split; [exact Hle|]. split.
    + intros q' Hq' Hle'. apply (Hmax (Symbol_of_pc q')); [|exact Hle'].
      apply symbols_of_pcs_elem. exists q'. auto.
    + rewrite Hrun. pose proof (Hpos q Hq).
      assert (wrap64 (p - q) = p - q) as -> by (apply Z.mod_small; lia).
      rewrite Z.add_0_r.
      assert (wrap64 (p - q) = p - q) as -> by (apply Z.mod_small; lia).
      reflexivity.
Qed.

Lemma transform_pc_without_inst_witness :
  exists q, q ∈ [0x2000; 0x1000] /\ q <= 0x1010 /\
    transform_pc (symbols_of_pcs [0x2000; 0x1000]) 0x1010 (mkPcOut 0 0 0) =
      (REDSHOW_SUCCESS, mkPcOut 0 (0x1010 - q) (0x1010 - q)).
Proof.
  destruct (transform_pc_without_inst [0x2000; 0x1000] 0x1010 (mkPcOut 0 0 0))
    as [[Hall _]|(q & Hq & Hle & _ & Hrun)].
  - intros q Hq. apply elem_of_cons in Hq as [->|Hq]; [lia|].
    apply elem_of_cons in Hq as [->|Hq]; [lia|inversion Hq].
  - lia.
  - exfalso. pose proof (Hall 0x1000 ltac:(right; left)). lia.
  - exists q. split; [exact Hq|]. split; [exact Hle|exact Hrun].
Defined.






(** ** Memory snapshots, further *)

Lemma map_prev_insert_same {V : Type} (m : gmap Z V) (k : Z) (v : V) :
  map_prev (<[k := v]> m) k = Some (k, v).
Proof.
  apply map_prev_Some. split; [apply lookup_insert_eq|]. split; [lia|].
  intros k' _ Hle. exact Hle.
Qed.

Lemma map_prev_insert_above {V : Type} (m : gmap Z V) (k h : Z) (v : V) :
  h < k -> map_prev (<[k := v]> m) h = map_prev m h.
Proof.
  intros Hlt. destruct (map_prev m h) as [[kb vb]|] eqn:Hprev.
  - apply map_prev_Some in Hprev as (Hkb & Hle & Hmax).
    apply map_prev_Some. split; [|split; [exact Hle|]].
    + rewrite lookup_insert_ne by lia. exact Hkb.
    + intros k' Hk' Hle'. apply Hmax; [|exact Hle'].
      rewrite lookup_insert_ne in Hk' by lia. exact Hk'.
  - apply map_prev_None. intros k' Hk'.
    destruct (decide (k = k')) as [<-|Hne]; [lia|].
    rewrite lookup_insert_ne in Hk' by assumption.
    exact (proj1 (map_prev_None m h) Hprev k' Hk').
Qed.

(** What the two registry calls can do to the snapshot store: nothing, or
    set the snapshot keyed by their host operation. *)
Lemma memory_register_store (start_ end__ host_op_id memory_id_ : Z) (st : State) :
  (redshow_memory_register start_ end__ host_op_id memory_id_ st).2 = st \/
  exists m, (redshow_memory_register start_ end__ host_op_id memory_id_ st).2 =
            with_memory_snapshot (<[host_op_id := m]> (memory_snapshot st)) st.
Proof.
  unfold redshow_memory_register.
  destruct (size (memory_snapshot st) =? 0)%nat; [right; eexists; reflexivity|].
  destruct (map_prev (memory_snapshot st) host_op_id) as [[kb base]|]; [|left; reflexivity].
  simpl. destruct (base !! start_); [left; reflexivity|right; eexists; reflexivity].
Qed.

Lemma memory_unregister_store (start_ end__ host_op_id : Z) (st : State) :
  (redshow_memory_unregister start_ end__ host_op_id st).2 = st \/
  exists m, (redshow_memory_unregister start_ end__ host_op_id st).2 =
            with_memory_snapshot (<[host_op_id := m]> (memory_snapshot st)) st.
Proof.
  unfold redshow_memory_unregister.
  destruct (map_prev (memory_snapshot st) host_op_id) as [[kb base]|]; [|left; reflexivity].
  simpl. destruct (base !! start_); [right; eexists; reflexivity|left; reflexivity].
Qed.

(** X9: [redshow_memory_unregister].  With [base] the snapshot of the
    greatest key not above [host_op_id]: if [base] has a range starting at
    [start], the call succeeds and the snapshot keyed [host_op_id] becomes
    [base] without that range; otherwise, and also when no snapshot key is
    at or below [host_op_id], it fails with [NOT_EXIST_ENTRY] and changes
    nothing.  The [end] argument plays no part. *)
Theorem memory_unregister_snapshot (start_ end__ host_op_id : Z) (st : State) :
  let r := redshow_memory_unregister start_ end__ host_op_id st in
  (forall kb base, greatest_key_le (memory_snapshot st) host_op_id kb base ->
     (is_Some (base !! start_) ->
        r = (REDSHOW_SUCCESS,
             with_memory_snapshot
               (<[host_op_id := delete start_ base]> (memory_snapshot st)) st)) /\
     (base !! start_ = None -> r = (REDSHOW_ERROR_NOT_EXIST_ENTRY, st))) /\
  ((forall k', is_Some (memory_snapshot st !! k') -> host_op_id < k') ->
     r = (REDSHOW_ERROR_NOT_EXIST_ENTRY, st)) /\
  (forall end', redshow_memory_unregister start_ end' host_op_id st = r).
Proof.
  intros r. subst r. unfold redshow_memory_unregister. simpl.
  split; [|split; [|reflexivity]].
  - intros kb base Hbase. apply map_prev_Some in Hbase. rewrite Hbase.
    split.
    + intros [x Hx]. rewrite Hx. reflexivity.
    + intros Hnone. rewrite Hnone. reflexivity.
  - intros Hall. apply map_prev_None in Hall. rewrite Hall. reflexivity.
Qed.

Lemma memory_unregister_snapshot_witness :
  let st := (redshow_memory_register 0x1000 0x2000 5 42 initial_state).2 in
  redshow_memory_unregister 0x1000 0 9 st =
    (REDSHOW_SUCCESS, with_memory_snapshot (<[9 := ∅]> (memory_snapshot st)) st).
Proof.
  intros st.
  destruct (memory_unregister_snapshot 0x1000 0 9 st) as (Hstep & _).
  destruct (Hstep 5 one_allocation_at_5) as [Hfound _].
  - apply map_prev_Some. vm_compute. reflexivity.
  - rewrite Hfound; [reflexivity|]. eexists. vm_compute. reflexivity.
Defined.

(** X10: register, then unregister under the same host operation.  When
    the registration of a range on the base snapshot succeeds, the
    unregistration of its start (with any end) under the same
    [host_op_id] succeeds too and leaves the snapshot keyed [host_op_id]
    equal to the base snapshot; no other snapshot and nothing else in the
    state differs from before the two calls. *)
Theorem memory_register_unregister (start_ end__ end' host_op_id memory_id_ kb : Z)
    (base : MemoryMap) (st : State) :
  greatest_key_le (memory_snapshot st) host_op_id kb base ->
  base !! start_ = None ->
  redshow_memory_unregister start_ end' host_op_id
    (redshow_memory_register start_ end__ host_op_id memory_id_ st).2 =
    (REDSHOW_SUCCESS,
     with_memory_snapshot (<[host_op_id := base]> (memory_snapshot st)) st).
Proof.
  intros Hbase Hfresh.
  assert (Hne : (size (memory_snapshot st) =? 0)%nat = false).
  { apply Nat.eqb_neq. intros Hsize. apply map_size_empty_inv in Hsize.
    destruct Hbase as [Hkb _]. rewrite Hsize, lookup_empty in Hkb. discriminate. }
  apply map_prev_Some in Hbase.
  unfold redshow_memory_register. rewrite Hne, Hbase. simpl. rewrite Hfresh.
  unfold redshow_memory_unregister. simpl.
  rewrite map_prev_insert_same.
  rewrite (add_memory_fresh (mkMemoryRange start_ end__) host_op_id memory_id_ base Hfresh).
  simpl. rewrite lookup_insert_eq.
  rewrite delete_insert_eq, delete_id by assumption.
  rewrite insert_insert_eq. reflexivity.
Qed.

Lemma memory_register_unregister_witness :
  let st := (redshow_memory_register 0x1000 0x2000 5 42 initial_state).2 in
  redshow_memory_unregister 0x3000 0 9
    (redshow_memory_register 0x3000 0x4000 9 43 st).2 =
    (REDSHOW_SUCCESS,
     with_memory_snapshot (<[9 := one_allocation_at_5]> (memory_snapshot st)) st).
Proof.
  intros st.
  apply (memory_register_unregister 0x3000 0x4000 0 9 43 5 one_allocation_at_5 st).
  - apply map_prev_Some. vm_compute. reflexivity.
  - vm_compute. reflexivity.
Defined.

(** X11: snapshots are versions.  Whatever [redshow_memory_register] or
    [redshow_memory_unregister] does under host operation [host_op_id],
    an analysis under an earlier host operation still selects the same
    snapshot with the same contents. *)
Theorem snapshot_isolation (start_ end__ host_op_id memory_id_ earlier : Z) (st : State) :
  earlier < host_op_id ->
  map_prev (memory_snapshot
              (redshow_memory_register start_ end__ host_op_id memory_id_ st).2) earlier =
    map_prev (memory_snapshot st) earlier /\
  map_prev (memory_snapshot
              (redshow_memory_unregister start_ end__ host_op_id st).2) earlier =
    map_prev (memory_snapshot st) earlier.
Proof.
  intros Hlt. split.
  - destruct (memory_register_store start_ end__ host_op_id memory_id_ st) as [->|[m ->]];
      [reflexivity|]. simpl. apply map_prev_insert_above, Hlt.
  - destruct (memory_unregister_store start_ end__ host_op_id st) as [->|[m ->]];
      [reflexivity|]. simpl. apply map_prev_insert_above, Hlt.
Qed.

Lemma snapshot_isolation_witness :
  let st := (redshow_memory_register 0x1000 0x2000 5 42 initial_state).2 in
  map_prev (memory_snapshot (redshow_memory_register 0x3000 0x4000 9 43 st).2) 7 =
    map_prev (memory_snapshot st) 7.
Proof.
  intros st. apply (snapshot_isolation 0x3000 0x4000 9 43 7 st). lia.
Defined.

Lemma memory_register_success (start_ end__ host_op_id memory_id_ : Z) (st : State) :
  (redshow_memory_register start_ end__ host_op_id memory_id_ st).1 = REDSHOW_SUCCESS ->
  exists base,
    base !! start_ = None /\
    (memory_snapshot st = ∅ /\ base = ∅ \/
     exists kb, greatest_key_le (memory_snapshot st) host_op_id kb base) /\
    (redshow_memory_register start_ end__ host_op_id memory_id_ st).2 =
      with_memory_snapshot
        (<[host_op_id :=
             <[start_ := (mkMemoryRange start_ end__,
                          mkMemory (mkMemoryRange start_ end__) host_op_id memory_id_)]>
               base]> (memory_snapshot st)) st.
Proof.
  unfold redshow_memory_register.
  destruct (size (memory_snapshot st) =? 0)%nat eqn:Hsize.
  - intros _. apply Nat.eqb_eq, map_size_empty_inv in Hsize.
    exists ∅. split; [apply lookup_empty|]. split; [left; auto|]. simpl.
    rewrite (add_memory_fresh (mkMemoryRange start_ end__) host_op_id memory_id_ ∅
               (lookup_empty _)). reflexivity.
  - destruct (map_prev (memory_snapshot st) host_op_id) as [[kb base]|] eqn:Hprev;
      [|discriminate].
    simpl. destruct (base !! start_) eqn:Hfind; [discriminate|]. intros _.
    exists base. split; [exact Hfind|].
    split; [right; exists kb; apply map_prev_Some; exact Hprev|]. simpl.
    rewrite (add_memory_fresh (mkMemoryRange start_ end__) host_op_id memory_id_ base Hfind).
    reflexivity.
Qed.

(** X12: a registered range is found.  After a successful
    [redshow_memory_register] under [host_op_id], an analysis under that
    host operation selects the new snapshot, and in it the look-up of
    lines 343-349 answers [host_op_id] for every address from [start] up
    to the next range start; the access is then accepted under that id
    unless [host_op_id] is 0, the value the analyzer reads as "no
    allocation". *)
Theorem registered_range_is_found (C : patch_constants) (start_ end__ host_op_id
    memory_id_ : Z) (record : gpu_patch_record_t) (st : State) :
  (redshow_memory_register start_ end__ host_op_id memory_id_ st).1 = REDSHOW_SUCCESS ->
  exists m,
    map_prev (memory_snapshot
                (redshow_memory_register start_ end__ host_op_id memory_id_ st).2)
             host_op_id = Some (host_op_id, m) /\
    forall address, start_ <= address ->
      (forall k, is_Some (m !! k) -> k <= address -> k <= start_) ->
      lookup_memory_op_id m address = host_op_id /\
      (host_op_id <> 0 -> resolve_memory_op_id C m record address = host_op_id) /\
      (host_op_id = 0 ->
       flag_set (r_flags record) (GPU_PATCH_LOCAL C) = false ->
       flag_set (r_flags record) (GPU_PATCH_SHARED C) = false ->
       resolve_memory_op_id C m record address = 0).
Proof.
  intros Hok.
  destruct (memory_register_success start_ end__ host_op_id memory_id_ st Hok)
    as (base & Hfresh & _ & ->).
  eexists. split; [simpl; apply map_prev_insert_same|].
  intros address Hle Hnext.
  assert (Hlookup : lookup_memory_op_id
                      (<[start_ := (mkMemoryRange start_ end__,
                                    mkMemory (mkMemoryRange start_ end__) host_op_id
                                      memory_id_)]> base) address = host_op_id).
  { unfold lookup_memory_op_id.
    assert (map_prev (<[start_ := (mkMemoryRange start_ end__,
                                   mkMemory (mkMemoryRange start_ end__) host_op_id
                                     memory_id_)]> base) address =
            Some (start_, (mkMemoryRange start_ end__,
                           mkMemory (mkMemoryRange start_ end__) host_op_id memory_id_)))
      as ->; [|reflexivity].
    apply map_prev_Some. split; [apply lookup_insert_eq|]. split; [exact Hle|].
    exact Hnext. }
  split; [exact Hlookup|]. unfold resolve_memory_op_id. rewrite Hlookup. split.
  - intros Hne. apply Z.eqb_neq in Hne. rewrite Hne. reflexivity.
  - intros -> Hlocal Hshared. simpl. rewrite Hlocal, Hshared. reflexivity.
Qed.

Lemma registered_range_is_found_witness :
  exists m,
    map_prev (memory_snapshot (redshow_memory_register 0x1000 0x2000 5 42
                                 initial_state).2) 5 = Some (5, m) /\
    lookup_memory_op_id m 0x1100 = 5.
Proof.
  destruct (registered_range_is_found gpu_patch 0x1000 0x2000 5 42 read_past_the_end
              initial_state) as (m & Hprev & Hfound); [reflexivity|].
  exists m. split; [exact Hprev|].
  apply (Hfound 0x1100); [lia|].
  intros k Hk Hle.
  assert (m = one_allocation_at_5) as ->.
  { vm_compute in Hprev. injection Hprev as <-. vm_compute. reflexivity. }
  unfold one_allocation_at_5 in Hk.
  destruct Hk as [x Hx]. apply lookup_singleton_Some in Hx as [<- _]. lia.
Defined.

Lemma memory_register_failure (start_ end__ host_op_id memory_id_ : Z) (st : State) :
  (redshow_memory_register start_ end__ host_op_id memory_id_ st).1 <> REDSHOW_SUCCESS ->
  (redshow_memory_register start_ end__ host_op_id memory_id_ st).2 = st.
Proof.
  unfold redshow_memory_register.
  destruct (size (memory_snapshot st) =? 0)%nat; [simpl; congruence|].
  destruct (map_prev (memory_snapshot st) host_op_id) as [[kb base]|]; [|reflexivity].
  simpl. destruct (base !! start_); simpl; [reflexivity|congruence].
Qed.

Lemma memory_map_wf_mono (h h' : Z) (m : MemoryMap) :
  h <= h' -> memory_map_wf h m -> memory_map_wf h' m.
Proof.
  intros Hle Hwf k r mem Hlookup.
  destruct (Hwf k r mem Hlookup) as (H1 & H2 & H3). repeat split; try assumption. lia.
Qed.

Lemma snapshots_wf_insert (h : Z) (m : MemoryMap) (st : State) :
  snapshots_wf st -> memory_map_wf h m ->
  snapshots_wf (with_memory_snapshot (<[h := m]> (memory_snapshot st)) st).
Proof.
  intros Hwf Hm h' m'. simpl.
  destruct (decide (h = h')) as [<-|Hne].
  - rewrite lookup_insert_eq. intros [= <-]. exact Hm.
  - rewrite lookup_insert_ne by assumption. apply Hwf.
Qed.

Lemma prune_lookup (keep : Z) (ids : list Z) : forall (snap : gmap Z MemoryMap) (k : Z),
  foldl (fun m id => if id =? keep then m else delete id m) snap ids !! k =
    if bool_decide (k ∈ ids /\ k <> keep) then None else snap !! k.
Proof.
  induction ids as [|id ids IH]; intros snap k; cbn [foldl].
  - rewrite bool_decide_eq_false_2; [reflexivity|].
    intros [Hin _]. inversion Hin.
  - rewrite IH. destruct (id =? keep) eqn:Hid.
    + apply Z.eqb_eq in Hid. subst id.
      apply (f_equal (fun b : bool => if b then None else snap !! k)).
      apply bool_decide_ext. rewrite elem_of_cons. intuition congruence.
    + apply Z.eqb_neq in Hid.
      destruct (decide (k = id)) as [->|Hne].
      * rewrite lookup_delete_eq.
        rewrite (bool_decide_eq_true_2 (id ∈ id :: ids /\ id <> keep))
          by (split; [left|assumption]).
        destruct (bool_decide _); reflexivity.
      * rewrite lookup_delete_ne by congruence.
        apply (f_equal (fun b : bool => if b then None else snap !! k)).
        apply bool_decide_ext. rewrite elem_of_cons. intuition congruence.
Qed.

(** X13: an invariant of the snapshot store.  If in every snapshot each
    entry sits under the start of its range, repeats the range in its
    value and carries a [memory_op_id] not above the snapshot's key, then
    this still holds after [redshow_memory_register],
    [redshow_memory_unregister] and [redshow_analysis_end]; it holds in
    the initial state. *)
Theorem snapshots_wf_preserved (st : State) :
  snapshots_wf initial_state /\
  (snapshots_wf st ->
   (forall start_ end__ host_op_id memory_id_,
      snapshots_wf (redshow_memory_register start_ end__ host_op_id memory_id_ st).2) /\
   (forall start_ end__ host_op_id,
      snapshots_wf (redshow_memory_unregister start_ end__ host_op_id st).2) /\
   snapshots_wf (redshow_analysis_end st).2).
Proof.
  split.
  - intros h m Hm. simpl in Hm. rewrite lookup_empty in Hm. discriminate.
  - intros Hwf. split; [|split].
    + intros start_ end__ h i.
      destruct (decide ((redshow_memory_register start_ end__ h i st).1 = REDSHOW_SUCCESS))
        as [Hres|Hres];
        [|rewrite (memory_register_failure start_ end__ h i st Hres); exact Hwf].
      destruct (memory_register_success start_ end__ h i st Hres)
        as (base & Hfresh & Hbase & ->).
      apply snapshots_wf_insert; [exact Hwf|].
      assert (memory_map_wf h base) as Hbasewf.
      { destruct Hbase as [[_ ->]|[kb (Hkb & Hle & _)]].
        - intros k r mem Hk. rewrite lookup_empty in Hk. discriminate.
        - eapply memory_map_wf_mono; [exact Hle|]. exact (Hwf kb base Hkb). }
      intros k r mem. destruct (decide (start_ = k)) as [<-|Hne].
      * rewrite lookup_insert_eq. intros [= <- <-]. simpl. repeat split. lia.
      * rewrite lookup_insert_ne by assumption. apply Hbasewf.
    + intros start_ end__ h. unfold redshow_memory_unregister.
      destruct (map_prev (memory_snapshot st) h) as [[kb base]|] eqn:Hprev; [|exact Hwf].
      simpl. destruct (base !! start_); [|exact Hwf]. simpl.
      apply map_prev_Some in Hprev as (Hkb & Hle & _).
      apply snapshots_wf_insert; [exact Hwf|].
      intros k r mem Hk. apply lookup_delete_Some in Hk as [_ Hk].
      exact (memory_map_wf_mono kb h base Hle (Hwf kb base Hkb) k r mem Hk).
    + unfold redshow_analysis_end.
      destruct (negb (mini_host_op_id st =? 0)); [|exact Hwf].
      intros h m. simpl. rewrite prune_lookup.
      destruct (bool_decide _); [discriminate|]. apply Hwf.
Qed.

Lemma snapshots_wf_preserved_witness :
  snapshots_wf (redshow_memory_register 0x1000 0x2000 5 42 initial_state).2.
Proof.
  destruct (snapshots_wf_preserved initial_state) as [Hinit Hstep].
  destruct (Hstep Hinit) as (Hregister & _).
  apply Hregister.
Defined.

Lemma fold_MAX2_spec (ids : list Z) : forall acc : Z,
  let mx := foldl (fun acc id => MAX2 id acc) acc ids in
  acc <= mx /\ (forall id, id ∈ ids -> id <= mx) /\ (mx = acc \/ mx ∈ ids).
Proof.
  induction ids as [|id ids IH]; intros acc; cbn [foldl].
  - split; [lia|]. split; [|left; reflexivity]. intros id Hin. inversion Hin.
  - destruct (IH (MAX2 id acc)) as (Hacc & Hall & Hmem).
    assert (Hmax : acc <= MAX2 id acc /\ id <= MAX2 id acc /\
                   (MAX2 id acc = acc \/ MAX2 id acc = id)).
    { unfold MAX2. destruct (id >? acc) eqn:Hcmp; lia. }
    split; [lia|]. split.
    + intros id' Hin. apply elem_of_cons in Hin as [->|Hin]; [lia|exact (Hall id' Hin)].
    + destruct Hmem as [Hmem|Hmem].
      * destruct Hmax as (_ & _ & [Heq|Heq]).
        -- left. congruence.
        -- right. rewrite Hmem, Heq. left.
      * right. right. exact Hmem.
Qed.

Lemma old_snapshot_ids (snap : gmap Z MemoryMap) (mini k : Z) :
  k ∈ filter (fun id => id < mini) (map fst (map_to_list snap)) <->
  k < mini /\ is_Some (snap !! k).
Proof.
  rewrite list_elem_of_filter. change (map fst (map_to_list snap))
    with (fst <$> map_to_list snap). rewrite list_elem_of_fmap. split.
  - intros [Hlt ([k' v] & -> & Hin)]. apply elem_of_map_to_list in Hin.
    split; [exact Hlt|]. eexists. exact Hin.
  - intros [Hlt [v Hv]]. split; [exact Hlt|]. exists (k, v).
    split; [reflexivity|]. apply elem_of_map_to_list. exact Hv.
Qed.

(** X14: [redshow_analysis_end].  With no analysis recorded
    ([mini_host_op_id = 0]) it fails with [FAILED_ANALYZE_CUBIN] and
    changes nothing.  Otherwise, on a store whose keys are unsigned, it
    succeeds and only drops snapshots: every snapshot keyed at or above
    [mini_host_op_id] stays, at most one older snapshot stays, and an
    analysis under any host operation from [mini_host_op_id] on selects
    the same snapshot as before the pruning. *)
Theorem analysis_end_prunes (st : State) :
  (mini_host_op_id st = 0 ->
   redshow_analysis_end st = (REDSHOW_ERROR_FAILED_ANALYZE_CUBIN, st)) /\
  (mini_host_op_id st <> 0 ->
   (forall k, is_Some (memory_snapshot st !! k) -> 0 <= k) ->
   exists snap',
     redshow_analysis_end st = (REDSHOW_SUCCESS, with_memory_snapshot snap' st) /\
     (forall k v, snap' !! k = Some v -> memory_snapshot st !! k = Some v) /\
     (forall k, mini_host_op_id st <= k -> snap' !! k = memory_snapshot st !! k) /\
     (forall k k', k < mini_host_op_id st -> k' < mini_host_op_id st ->
        is_Some (snap' !! k) -> is_Some (snap' !! k') -> k = k') /\
     (forall h, mini_host_op_id st <= h ->
        map_prev snap' h = map_prev (memory_snapshot st) h)).
Proof.
  unfold redshow_analysis_end. split.
  - intros ->. reflexivity.
  - intros Hmini Hkeys. apply Z.eqb_neq in Hmini. rewrite Hmini. simpl.
    set (ids := filter (fun id => id < mini_host_op_id st)
                  (map fst (map_to_list (memory_snapshot st)))).
    set (mx := foldl (fun acc id => MAX2 id acc) 0 ids).
    destruct (fold_MAX2_spec ids 0) as (_ & Hall & Hmem). fold mx in Hall, Hmem.
    assert (Hmx : forall k, k ∈ ids -> mx ∈ ids).
    { intros k Hk. destruct Hmem as [Hzero|Hin]; [|exact Hin].
      pose proof (Hall k Hk) as Hle.
      pose proof (proj1 (old_snapshot_ids _ _ _) Hk) as [_ Hsome].
      pose proof (Hkeys k Hsome). replace mx with k by lia. exact Hk. }
    assert (Hlookup : forall k,
      foldl (fun m id => if id =? mx then m else delete id m) (memory_snapshot st) ids !! k =
      if bool_decide (k ∈ ids /\ k <> mx) then None else memory_snapshot st !! k)
      by (intros k; apply prune_lookup).
    eexists. split; [reflexivity|].
    assert (Hsub : forall k v,
      foldl (fun m id => if id =? mx then m else delete id m) (memory_snapshot st) ids !! k
        = Some v -> memory_snapshot st !! k = Some v).
    { intros k v. rewrite Hlookup. destruct (bool_decide _); [discriminate|auto]. }
    split; [exact Hsub|]. split; [|split].
    + intros k Hk. rewrite Hlookup. rewrite bool_decide_eq_false_2; [reflexivity|].
      intros [Hin _]. apply old_snapshot_ids in Hin as [Hlt _]. lia.
    + assert (Honly : forall k, k < mini_host_op_id st ->
                is_Some (foldl (fun m id => if id =? mx then m else delete id m)
                           (memory_snapshot st) ids !! k) -> k = mx).
      { intros k Hlt [v Hv]. pose proof (Hsub k v Hv) as Hold.
        rewrite Hlookup in Hv.
        destruct (decide (k = mx)) as [Heq|Hne]; [exact Heq|].
        rewrite bool_decide_eq_true_2 in Hv; [discriminate|].
        split; [|exact Hne]. apply old_snapshot_ids. split; [exact Hlt|].
        eexists; exact Hold. }
      intros k k' Hk Hk' Hs Hs'. rewrite (Honly k Hk Hs), (Honly k' Hk' Hs'). reflexivity.
    + intros h Hh.
      destruct (map_prev (memory_snapshot st) h) as [[kb v]|] eqn:Hprev.
      * apply map_prev_Some in Hprev as (Hkb & Hle & Hmax).
        apply map_prev_Some. split; [|split; [exact Hle|]].
        -- rewrite Hlookup. rewrite bool_decide_eq_false_2; [exact Hkb|].
           intros [Hin Hne]. apply Hne.
           pose proof (Hmx kb Hin) as Hmxin.
           pose proof (Hall kb Hin) as Hkbmx.
           apply old_snapshot_ids in Hmxin as [Hmxlt Hmxsome].
           pose proof (Hmax mx Hmxsome ltac:(lia)). lia.
        -- intros k' [v' Hv'] Hle'. apply Hmax; [|exact Hle'].
           eexists. exact (Hsub k' v' Hv').
      * apply map_prev_None. intros k' [v' Hv'].
        apply (proj1 (map_prev_None _ _) Hprev). eexists. exact (Hsub k' v' Hv').
Qed.

Lemma analysis_end_prunes_witness :
  exists snap',
    redshow_analysis_end three_snapshots_state =
      (REDSHOW_SUCCESS, with_memory_snapshot snap' three_snapshots_state) /\
    map_prev snap' 12 = map_prev (memory_snapshot three_snapshots_state) 12.
Proof.
  destruct (analysis_end_prunes three_snapshots_state) as [_ Hprune].
  destruct Hprune as (snap' & Hrun & _ & _ & _ & Hsame).
  - vm_compute. discriminate.
  - intros k [v Hv]. unfold three_snapshots_state in Hv. simpl in Hv.
    repeat (apply lookup_insert_Some in Hv as [[<- _]|[_ Hv]]; [lia|]).
    rewrite lookup_empty in Hv. discriminate.
  - exists snap'. split; [exact Hrun|]. apply Hsame. simpl. lia.
Defined.

(** ** [redshow_analyze], further *)

Lemma fetch_cubin_keeps (E : collaborators) (cubin_id_ id : Z) (c : Cubin) (st : State) :
  cubin_map st !! id = Some c -> cubin_map (fetch_cubin E cubin_id_ st).2 !! id = Some c.
Proof.
  intros Hc. unfold fetch_cubin, redshow_cubin_register.
  destruct (cubin_map st !! cubin_id_) eqn:Hid; [exact Hc|].
  destruct (cubin_cache_map st !! cubin_id_) as [cache|]; [|exact Hc].
  destruct (cubin_analyze E _ _ _) as [[result v] g].
  assert (id <> cubin_id_) as Hne by congruence.
  destruct (bool_decide (result = REDSHOW_SUCCESS) || _); simpl;
    destruct (bool_decide (result = REDSHOW_SUCCESS)); simpl;
    rewrite ?lookup_insert_eq; simpl; rewrite ?Hid; simpl;
    rewrite ?lookup_insert_ne by congruence; exact Hc.
Qed.

(** X15: what [redshow_analyze] leaves alone, for every buffer and every
    outcome: the memory snapshots, the cubin cache, the set of enabled
    analyses, the two callbacks with the view limits, the approximation
    digits, every cubin that was active, and every kernel entry other
    than the one of the call. *)
Theorem redshow_analyze_frame (C : patch_constants) (E : collaborators)
    (thread_id cubin_id_ kernel_id_ host_op_id : Z) (trace_data : gpu_patch_buffer_t)
    (st : State) :
  let st' := (redshow_analyze C E thread_id cubin_id_ kernel_id_ host_op_id
                trace_data st).2 in
  memory_snapshot st' = memory_snapshot st /\
  cubin_cache_map st' = cubin_cache_map st /\
  analysis_enabled st' = analysis_enabled st /\
  log_data_callback st' = log_data_callback st /\
  record_data_callback st' = record_data_callback st /\
  pc_views_limit st' = pc_views_limit st /\
  mem_views_limit st' = mem_views_limit st /\
  decimal_degree_f32 st' = decimal_degree_f32 st /\
  decimal_degree_f64 st' = decimal_degree_f64 st /\
  (forall id c, cubin_map st !! id = Some c -> cubin_map st' !! id = Some c) /\
  (forall t k, (t, k) <> (thread_id, kernel_id_) ->
     kernel_entry t k st' = kernel_entry t k st).
Proof.
  intros st'. subst st'.
  destruct (redshow_analyze_state C E thread_id cubin_id_ kernel_id_ host_op_id
              trace_data st) as (cubins & kernels & calls & mini & Hst).
  repeat (split; [rewrite Hst; reflexivity|]).
  split.
  - intros id c Hc. rewrite redshow_analyze_cubin_map. apply fetch_cubin_keeps, Hc.
  - intros t k Hne. unfold kernel_entry. rewrite redshow_analyze_kernel_map.
    destruct (decide (t = thread_id)) as [->|Ht].
    + rewrite lookup_insert_eq. simpl. rewrite lookup_insert_ne by congruence.
      destruct (kernel_map st !! thread_id); reflexivity.
    + rewrite lookup_insert_ne by congruence. reflexivity.
Qed.

(** X16: the session bookkeeping of [redshow_analyze].  A successful call
    hands the buffer to the log callback once (the call is appended to
    the log) and folds [host_op_id] into [mini_host_op_id] (the first
    value, then the minimum); any other outcome leaves both as they
    were.  So after a successful call with a non-zero [host_op_id] on
    unsigned values [redshow_analysis_end] succeeds, and right after
    [redshow_analysis_begin] it fails with [FAILED_ANALYZE_CUBIN]. *)
Theorem analyze_session_bookkeeping (C : patch_constants) (E : collaborators)
    (thread_id cubin_id_ kernel_id_ host_op_id : Z) (trace_data : gpu_patch_buffer_t)
    (st : State) :
  let r := redshow_analyze C E thread_id cubin_id_ kernel_id_ host_op_id trace_data st in
  (r.1 = Returns REDSHOW_SUCCESS ->
     log_data_calls r.2 = log_data_calls st ++ [(kernel_id_, trace_data)] /\
     mini_host_op_id r.2 =
       (if mini_host_op_id st =? 0 then host_op_id
        else Z.min (mini_host_op_id st) host_op_id) /\
     (0 < host_op_id -> 0 <= mini_host_op_id st ->
      (redshow_analysis_end r.2).1 = REDSHOW_SUCCESS)) /\
  (r.1 <> Returns REDSHOW_SUCCESS ->
     log_data_calls r.2 = log_data_calls st /\
     mini_host_op_id r.2 = mini_host_op_id st) /\
  (redshow_analysis_end (redshow_analysis_begin st).2).1 =
    REDSHOW_ERROR_FAILED_ANALYZE_CUBIN.
Proof.
  intros r. subst r. split; [|split; [|reflexivity]].
  - unfold redshow_analyze.
    set (kernel := with_kernel_ids kernel_id_ cubin_id_ (kernel_slot thread_id kernel_id_ st)).
    set (st0 := store_kernel thread_id kernel_id_ kernel st).
    destruct (trace_analyze_state C E kernel host_op_id trace_data st0) as [m Hm].
    destruct (trace_analyze C E kernel host_op_id trace_data st0) as [[c kernel'] st1].
    simpl in Hm. subst st1.
    destruct c as [[]|]; simpl; try discriminate.
    destruct (log_data_callback st); simpl; [|discriminate]. intros _.
    destruct (mini_host_op_id st =? 0) eqn:Hmini; simpl.
    + split; [reflexivity|]. split; [reflexivity|].
      intros Hpos _. unfold redshow_analysis_end. simpl.
      destruct (host_op_id =? 0) eqn:Hzero; [apply Z.eqb_eq in Hzero; lia|reflexivity].
    + split; [reflexivity|]. apply Z.eqb_neq in Hmini.
      split; [apply MIN2_min|].
      intros Hpos Hnonneg. unfold redshow_analysis_end. simpl.
      destruct (MIN2 (mini_host_op_id st) host_op_id =? 0) eqn:Hzero; [|reflexivity].
      apply Z.eqb_eq in Hzero. rewrite MIN2_min in Hzero. lia.
  - unfold redshow_analyze.
    set (kernel := with_kernel_ids kernel_id_ cubin_id_ (kernel_slot thread_id kernel_id_ st)).
    set (st0 := store_kernel thread_id kernel_id_ kernel st).
    destruct (trace_analyze_state C E kernel host_op_id trace_data st0) as [m Hm].
    destruct (trace_analyze C E kernel host_op_id trace_data st0) as [[c kernel'] st1].
    simpl in Hm. subst st1.
    destruct c as [[]|]; simpl; try (intros _; split; reflexivity).
    destruct (log_data_callback st); simpl; [|intros _; split; reflexivity].
    destruct (mini_host_op_id st =? 0); simpl; intros Hne; contradiction.
Qed.

Lemma analyze_session_bookkeeping_witness :
  (redshow_analysis_end
     (redshow_analyze gpu_patch absent_inst_files 0 1 7 10 empty_buffer ready_state).2).1 =
    REDSHOW_SUCCESS.
Proof.
  destruct (analyze_session_bookkeeping gpu_patch absent_inst_files 0 1 7 10 empty_buffer
              ready_state) as (Hsuccess & _).
  destruct Hsuccess as (_ & _ & Hend); [vm_compute; reflexivity|].
  apply Hend; [lia|vm_compute; discriminate].
Defined.

(** ** The record loop, further *)

Lemma only_erased_refl (k : Kernel) : only_erased k k.
Proof. repeat split; auto. Qed.

Lemma only_erased_trans (k1 k2 k3 : Kernel) :
  only_erased k1 k2 -> only_erased k2 k3 -> only_erased k1 k3.
Proof.
  intros ((A1 & A2 & A3 & A4 & A5 & A6 & A7 & A8) & Ar & Aw)
         ((B1 & B2 & B3 & B4 & B5 & B6 & B7 & B8) & Br & Bw).
  split; [repeat split; congruence|]. split; intros tid v Hv; auto.
Qed.

Lemma block_exit_lane_only_erased (C : patch_constants) (record : gpu_patch_record_t)
    (k : Kernel) (j : Z) :
  only_erased k (block_exit_lane C record k j).
Proof.
  split; [apply block_exit_lane_frame|].
  unfold block_exit_lane. destruct (lane_active record j); simpl; [|split; auto].
  split; intros tid v Hv; apply lookup_delete_Some in Hv as [_ Hv]; exact Hv.
Qed.

Lemma block_exit_only_erased (C : patch_constants) (record : gpu_patch_record_t)
    (k : Kernel) :
  only_erased k (block_exit C record k).
Proof.
  unfold block_exit.
  apply (foldl_invariant (only_erased k)); [|apply only_erased_refl].
  intros k' j Hk'. eapply only_erased_trans; [exact Hk'|].
  apply block_exit_lane_only_erased.
Qed.

Lemma analysis_order_empty (C : patch_constants) : analysis_order ∅ = [].
Proof. reflexivity. Qed.

Lemma analyze_lane_nothing_enabled (C : patch_constants) (E : collaborators) (st : State)
    (memory_map : MemoryMap) (record : gpu_patch_record_t) (kind : AccessKind)
    (k : Kernel) (j : Z) :
  analysis_enabled st = ∅ ->
  progress_kernel (analyze_lane C E st memory_map record kind k j) = k.
Proof.
  intros Hnone. unfold analyze_lane.
  destruct (negb (lane_active record j)); [reflexivity|].
  destruct (resolve_memory_op_id C memory_map record _ =? 0); [reflexivity|].
  destruct (unit_size kind =? 0); [reflexivity|]. simpl.
  apply (foldl_invariant (fun k' => k' = k)); [|reflexivity].
  intros k' m ->. unfold analyze_unit. rewrite Hnone. reflexivity.
Qed.

Lemma progress_bind_kernel (p : progress) (f : Kernel -> progress) (P : Kernel -> Prop) :
  P (progress_kernel p) ->
  (forall k, P k -> P (progress_kernel (f k))) ->
  P (progress_kernel (progress_bind p f)).
Proof. intros Hp Hf. destruct p; simpl; [apply Hf, Hp|exact Hp]. Qed.

(** X17: with no analysis enabled a trace buffer records nothing.
    Whatever the records are and however the call ends, the kernel that
    [trace_analyze] leaves keeps its spatial traces, its PC pairs and its
    ids; the only change can be threads erased from the temporal traces
    by [BLOCK_EXIT] records. *)
Theorem nothing_enabled_nothing_recorded (C : patch_constants) (E : collaborators)
    (kernel : Kernel) (host_op_id : Z) (trace_data : gpu_patch_buffer_t) (st : State) :
  analysis_enabled st = ∅ ->
  only_erased kernel (trace_analyze C E kernel host_op_id trace_data st).1.2.
Proof.
  intros Hnone. unfold trace_analyze.
  destruct (fetch_cubin_state E (kernel_cubin_id kernel) st) as [m Hm].
  destruct (fetch_cubin E (kernel_cubin_id kernel) st) as [[result cubin] st1].
  simpl in Hm. subst st1.
  destruct cubin as [c|]; [|apply only_erased_refl].
  destruct (map_prev _ host_op_id) as [[kb memory_map]|]; [|apply only_erased_refl].
  assert (Hloop : only_erased kernel
            (progress_kernel
               (analyze_records C E (with_cubin_map m st) (symbols c) (inst_graph c)
                  memory_map kernel
                  (take (Z.to_nat (head_index trace_data)) (records trace_data))))).
  { unfold analyze_records.
    apply (foldl_invariant (fun p => only_erased kernel (progress_kernel p)));
      [|apply only_erased_refl].
    intros p record Hp.
    apply (progress_bind_kernel p _ (only_erased kernel) Hp).
    intros k Hk. eapply only_erased_trans; [exact Hk|].
    unfold analyze_record.
    destruct (r_size record =? 0); [apply only_erased_refl|].
    destruct (flag_set _ (GPU_PATCH_BLOCK_ENTER_FLAG C)); [apply only_erased_refl|].
    destruct (flag_set _ (GPU_PATCH_BLOCK_EXIT_FLAG C)); [apply block_exit_only_erased|].
    destruct (record_access_kind C E _ record _) as [kind|]; [|apply only_erased_refl].
    unfold analyze_lanes.
    apply (foldl_invariant (fun p' => only_erased k (progress_kernel p')));
      [|apply only_erased_refl].
    intros p' j Hp'.
    apply (progress_bind_kernel p' _ (only_erased k) Hp').
    intros k' Hk'. rewrite analyze_lane_nothing_enabled by exact Hnone. exact Hk'. }
  destruct (analyze_records _ _ _ _ _ _ _ _); exact Hloop.
Qed.

Lemma nothing_enabled_nothing_recorded_witness :
  let kernel := with_kernel_ids 7 1 kernel_with_history in
  let r := trace_analyze gpu_patch absent_inst_files kernel 10
             (mkBuffer 2 [read_past_the_end; block_exit_record 4]) ready_state in
  r.1.1 = Returns REDSHOW_SUCCESS /\
  read_temporal_trace kernel !! mkThreadId 0 0 = Some {[0x1100 := (0x1010, 5)]} /\
  read_temporal_trace r.1.2 !! mkThreadId 0 0 = None /\
  only_erased kernel r.1.2.
Proof.
  intros kernel r.
  split; [vm_compute; reflexivity|].
  split; [vm_compute; reflexivity|].
  split; [vm_compute; reflexivity|].
  apply (nothing_enabled_nothing_recorded gpu_patch absent_inst_files kernel
           10 (mkBuffer 2 [read_past_the_end; block_exit_record 4]) ready_state).
  reflexivity.
Defined.

(** X18: the default mode with the shipped warp size.  For a record of
    [size] bytes, [0 < size < 2 ^ 26], the default kind has
    [unit_size = 32] and [vec_size = size * 8], hence [size / 4] units.
    A record of fewer than four bytes has no unit at all: without
    instruction information it leaves the kernel as it is, whatever its
    lanes, addresses and flags. *)
Theorem default_mode_units (C : patch_constants) (E : collaborators) (st : State)
    (symbols_ : list Symbol) (graph : InstructionGraph) (memory_map : MemoryMap)
    (k : Kernel) (record : gpu_patch_record_t) :
  GPU_PATCH_WARP_SIZE C = 32 ->
  0 < r_size record < 2 ^ 26 ->
  let kind := default_mode C record AccessKind_default in
  unit_size kind = 32 /\ vec_size kind = r_size record * 8 /\
  vec_size kind / unit_size kind = r_size record / 4 /\
  (r_size record < 4 -> graph_size graph = 0 ->
   flag_set (r_flags record) (GPU_PATCH_BLOCK_ENTER_FLAG C) = false ->
   flag_set (r_flags record) (GPU_PATCH_BLOCK_EXIT_FLAG C) = false ->
   analyze_record C E st symbols_ graph memory_map k record = Proceed k).
Proof.
  intros Hwarp Hsize kind.
  assert (Hvec : wrap32 (r_size record * 8) = r_size record * 8)
    by (apply Z.mod_small; lia).
  assert (Hunit : MIN2 32 (wrap32 (r_size record * 8 * 8)) = 32).
  { rewrite MIN2_min. unfold wrap32. rewrite Z.mod_small by lia. lia. }
  assert (Hkind : kind = mkAccessKind (r_size record * 8) 32 FLOAT).
  { subst kind. unfold default_mode. simpl. rewrite Hwarp, Hvec, Hunit. reflexivity. }
  rewrite Hkind. simpl.
  split; [reflexivity|]. split; [reflexivity|].
  split.
  { replace 32 with (8 * 4) by lia. rewrite (Z.mul_comm (r_size record) 8).
    rewrite Z.div_mul_cancel_l by lia. reflexivity. }
  intros Hshort Hempty Henter Hexit. unfold analyze_record.
  destruct (r_size record =? 0) eqn:Hzero; [reflexivity|].
  rewrite Henter, Hexit.
  unfold record_access_kind, graph_access_kind. rewrite Hempty. simpl.
  fold kind. rewrite Hkind.
  unfold analyze_lanes.
  apply (foldl_invariant (fun p => p = Proceed k)); [|reflexivity].
  intros p j ->. simpl. unfold analyze_lane.
  destruct (negb (lane_active record j)); [reflexivity|].
  destruct (resolve_memory_op_id C memory_map record _ =? 0); [reflexivity|].
  simpl.
  assert (r_size record * 8 / 32 = 0) as -> by (apply Z.div_small; lia).
  reflexivity.
Qed.

Lemma default_mode_units_witness :
  analyze_record gpu_patch absent_inst_files
    (with_analysis_enabled {[REDSHOW_ANALYSIS_SPATIAL_REDUNDANCY]} initial_state)
    [mkSymbol 0 0 0x1000] InstructionGraph_empty one_allocation Kernel_default
    short_read = Proceed Kernel_default.
Proof.
  destruct (default_mode_units gpu_patch absent_inst_files
              (with_analysis_enabled {[REDSHOW_ANALYSIS_SPATIAL_REDUNDANCY]} initial_state)
              [mkSymbol 0 0 0x1000] InstructionGraph_empty one_allocation Kernel_default
              short_read) as (_ & _ & _ & Hdropped).
  - reflexivity.
  - simpl. lia.
  - apply Hdropped; [simpl; lia|reflexivity|reflexivity|reflexivity].
Defined.

(** ** The instruction graph *)

(** X19: [add_edge] records the edge [from -> to] among the outgoing
    neighbours of [from] and among the incoming neighbours of [to], adds
    no other edge and removes none; it creates no node, so the size of
    the graph and [has_node] are unchanged; a graph whose two neighbour
    maps agree keeps them in agreement. *)
Theorem add_edge_both_directions (g : InstructionGraph) (from to : Z) :
  let g' := add_edge from to g in
  (forall f t, out_edge g' f t <-> (f = from /\ t = to) \/ out_edge g f t) /\
  (forall f t, in_edge g' f t <-> (f = from /\ t = to) \/ in_edge g f t) /\
  (edges_symmetric g -> edges_symmetric g') /\
  graph_size g' = graph_size g /\
  (forall p, has_node g' p = has_node g p) /\
  0 < outgoing_nodes_size g' from /\ 0 < incoming_nodes_size g' to.
Proof.
  intros g'.
  assert (Hout : forall f t, out_edge g' f t <-> (f = from /\ t = to) \/ out_edge g f t).
  { intros f t. unfold out_edge, outgoing_nodes. subst g'. simpl.
    destruct (decide (from = f)) as [<-|Hne].
    - rewrite lookup_insert_eq. split.
      + intros (s & [= <-] & Hin). apply elem_of_union in Hin as [Hin|Hin].
        * left. apply elem_of_singleton in Hin. auto.
        * right. destruct (_outgoing_nodes g !! from) as [s|]; simpl in Hin.
          -- exists s. auto.
          -- apply not_elem_of_empty in Hin. contradiction.
      + intros [[_ ->]|(s & Hs & Hin)]; eexists; (split; [reflexivity|]).
        * apply elem_of_union_l, elem_of_singleton. reflexivity.
        * rewrite Hs. simpl. apply elem_of_union_r. exact Hin.
    - rewrite lookup_insert_ne by assumption. split.
      + intros H. right. exact H.
      + intros [[Hf _]|H]; [congruence|exact H]. }
  assert (Hin : forall f t, in_edge g' f t <-> (f = from /\ t = to) \/ in_edge g f t).
  { intros f t. unfold in_edge, incoming_nodes. subst g'. simpl.
    destruct (decide (to = t)) as [<-|Hne].
    - rewrite lookup_insert_eq. split.
      + intros (s & [= <-] & Hmem). apply elem_of_union in Hmem as [Hmem|Hmem].
        * left. apply elem_of_singleton in Hmem. auto.
        * right. destruct (_incoming_nodes g !! to) as [s|]; simpl in Hmem.
          -- exists s. auto.
          -- apply not_elem_of_empty in Hmem. contradiction.
      + intros [[-> _]|(s & Hs & Hmem)]; eexists; (split; [reflexivity|]).
        * apply elem_of_union_l, elem_of_singleton. reflexivity.
        * rewrite Hs. simpl. apply elem_of_union_r. exact Hmem.
    - rewrite lookup_insert_ne by assumption. split.
      + intros H. right. exact H.
      + intros [[_ Ht]|H]; [congruence|exact H]. }
  split; [exact Hout|]. split; [exact Hin|]. split.
  { intros Hsym f t. rewrite Hout, Hin, (Hsym f t). reflexivity. }
  split; [reflexivity|]. split; [reflexivity|].
  unfold outgoing_nodes_size, incoming_nodes_size. subst g'. simpl.
  rewrite !lookup_insert_eq.
  split.
  - assert (size ({[to]} ∪ default ∅ (_outgoing_nodes g !! from) : gset Z) <> 0%nat).
    { apply size_non_empty_iff. intros Hempty.
      assert (to ∈ ({[to]} ∪ default ∅ (_outgoing_nodes g !! from) : gset Z))
        as Hmem by (apply elem_of_union_l, elem_of_singleton; reflexivity).
      rewrite Hempty in Hmem. apply not_elem_of_empty in Hmem. exact Hmem. }
    lia.
  - assert (size ({[from]} ∪ default ∅ (_incoming_nodes g !! to) : gset Z) <> 0%nat).
    { apply size_non_empty_iff. intros Hempty.
      assert (from ∈ ({[from]} ∪ default ∅ (_incoming_nodes g !! to) : gset Z))
        as Hmem by (apply elem_of_union_l, elem_of_singleton; reflexivity).
      rewrite Hempty in Hmem. apply not_elem_of_empty in Hmem. exact Hmem. }
    lia.
Qed.

(** X20: [add_node] and the node look-ups.  After [add_node(pc, inst)]
    the graph has the node, [node(pc)] returns [inst] (replacing what was
    there), every other PC is as before, the edges are untouched, and
    the size grows by one exactly when the PC was new; on a PC without a
    node, [node] throws while [has_node] answers [false]. *)
Theorem add_node_lookup (g : InstructionGraph) (p : Z) (inst : Instruction) :
  let g' := add_node p inst g in
  has_node g' p = true /\ node g' p = Some inst /\
  (forall q, q <> p -> node g' q = node g q /\ has_node g' q = has_node g q) /\
  (forall q, has_node g q = false <-> node g q = None) /\
  graph_size g' = (if has_node g p then graph_size g else graph_size g + 1) /\
  (forall f t, out_edge g' f t <-> out_edge g f t) /\
  (forall f t, in_edge g' f t <-> in_edge g f t).
Proof.
  intros g'. subst g'. unfold has_node, node, graph_size, add_node. simpl.
  split; [apply bool_decide_eq_true_2; rewrite lookup_insert_eq; eexists; reflexivity|].
  split; [apply lookup_insert_eq|]. split.
  { intros q Hne. rewrite lookup_insert_ne by congruence. split; reflexivity. }
  split.
  { intros q. rewrite bool_decide_eq_false, <- eq_None_not_Some. reflexivity. }
  split; [|split; reflexivity].
  destruct (_nodes g !! p) as [old|] eqn:Hp.
  - rewrite bool_decide_eq_true_2 by (eexists; reflexivity).
    rewrite <- (insert_delete_id (_nodes g) p old Hp) at 2.
    rewrite <- (insert_delete_eq (_nodes g)).
    rewrite !map_size_insert_None by apply lookup_delete_eq. reflexivity.
  - rewrite bool_decide_eq_false_2 by (intros [x Hx]; discriminate).
    rewrite map_size_insert_None by assumption. lia.
Qed.

(** ** Comparison operators *)

Lemma DataType_to_Z_inj (a b : DataType) : DataType_to_Z a = DataType_to_Z b -> a = b.
Proof. destruct a, b; simpl; intros H; try reflexivity; discriminate. Qed.

(** X21: [AccessKind::operator<] is a strict total order (irreflexive,
    transitive, and any two different kinds are ordered one way), so
    kinds can key an ordered map without two different kinds falling
    together. *)
Theorem AccessKind_lt_strict_total : strict_total_order AccessKind_lt.
Proof.
  unfold strict_total_order, AccessKind_lt. split; [|split].
  - intros a. rewrite !Z.eqb_refl. apply Z.ltb_irrefl.
  - intros a b c.
    destruct (vec_size a =? vec_size b) eqn:Hab, (vec_size b =? vec_size c) eqn:Hbc,
             (vec_size a =? vec_size c) eqn:Hac,
             (unit_size a =? unit_size b) eqn:Uab, (unit_size b =? unit_size c) eqn:Ubc,
             (unit_size a =? unit_size c) eqn:Uac;
      rewrite ?Z.eqb_eq, ?Z.eqb_neq, ?Z.ltb_lt in *; lia.
  - intros [va ua ta] [vb ub tb]. simpl.
    destruct (Z.lt_trichotomy va vb) as [Hv|[<-|Hv]].
    + left. rewrite (proj2 (Z.eqb_neq va vb)) by lia. apply Z.ltb_lt, Hv.
    + rewrite !Z.eqb_refl.
      destruct (Z.lt_trichotomy ua ub) as [Hu|[<-|Hu]].
      * left. rewrite (proj2 (Z.eqb_neq ua ub)) by lia. apply Z.ltb_lt, Hu.
      * rewrite !Z.eqb_refl.
        destruct (Z.lt_trichotomy (DataType_to_Z ta) (DataType_to_Z tb)) as [Ht|[Ht|Ht]].
        -- left. apply Z.ltb_lt, Ht.
        -- right. left. apply DataType_to_Z_inj in Ht. congruence.
        -- right. right. apply Z.ltb_lt, Ht.
      * right. right. rewrite (proj2 (Z.eqb_neq ub ua)) by lia. apply Z.ltb_lt, Hu.
    + right. right. rewrite (proj2 (Z.eqb_neq vb va)) by lia. apply Z.ltb_lt, Hv.
Qed.

(** X22: [ThreadId::operator<] is a strict total order, and
    [ThreadId::operator==] holds exactly for equal thread ids, which is
    also exactly when neither id is below the other. *)
Theorem ThreadId_lt_strict_total :
  strict_total_order ThreadId_lt /\
  (forall a b, ThreadId_eq a b = true <-> a = b) /\
  (forall a b, ThreadId_eq a b = negb (ThreadId_lt a b) && negb (ThreadId_lt b a)).
Proof.
  unfold strict_total_order, ThreadId_lt, ThreadId_eq. split; [split; [|split]|split].
  - intros a. rewrite !Z.ltb_irrefl, Z.eqb_refl. reflexivity.
  - intros a b c.
    rewrite !orb_true_iff, !andb_true_iff, !Z.ltb_lt, !Z.eqb_eq. lia.
  - intros [ba ta] [bb tb]. simpl.
    rewrite !orb_true_iff, !andb_true_iff, !Z.ltb_lt, !Z.eqb_eq.
    destruct (Z.lt_trichotomy ba bb) as [H|[<-|H]]; [lia| |lia].
    destruct (Z.lt_trichotomy ta tb) as [H|[<-|H]]; [lia| |lia].
    right. left. reflexivity.
  - intros [ba ta] [bb tb]. simpl. rewrite andb_true_iff, !Z.eqb_eq. split.
    + intros [-> ->]. reflexivity.
    + intros [= -> ->]. auto.
  - intros [ba ta] [bb tb]. simpl.
    destruct (Z.lt_trichotomy ba bb) as [H|[<-|H]];
      destruct (Z.lt_trichotomy ta tb) as [H'|[<-|H']];
      repeat match goal with
             | |- context [?x =? ?y] =>
                 first [rewrite (Z.eqb_refl x)
                       | rewrite (proj2 (Z.eqb_neq x y)) by lia]
             | |- context [?x <? ?y] =>
                 first [rewrite (proj2 (Z.ltb_lt x y)) by lia
                       | rewrite (proj2 (Z.ltb_ge x y)) by lia]
             end; reflexivity.
Qed.

(** X23: [RealPC::operator<] is a strict total order on
    (cubin id, function index, PC offset). *)
Theorem RealPC_lt_strict_total : strict_total_order RealPC_lt.
Proof.
  unfold strict_total_order, RealPC_lt. split; [|split].
  - intros a. rewrite !Z.eqb_refl. apply Z.ltb_irrefl.
  - intros a b c.
    destruct (real_cubin_id a =? real_cubin_id b) eqn:Hab,
             (real_cubin_id b =? real_cubin_id c) eqn:Hbc,
             (real_cubin_id a =? real_cubin_id c) eqn:Hac,
             (real_function_index a =? real_function_index b) eqn:Uab,
             (real_function_index b =? real_function_index c) eqn:Ubc,
             (real_function_index a =? real_function_index c) eqn:Uac;
      rewrite ?Z.eqb_eq, ?Z.eqb_neq, ?Z.ltb_lt in *; lia.
  - intros [ca fa pa] [cb fb pb]. simpl.
    destruct (Z.lt_trichotomy ca cb) as [Hc|[<-|Hc]].
    + left. rewrite (proj2 (Z.eqb_neq ca cb)) by lia. apply Z.ltb_lt, Hc.
    + rewrite !Z.eqb_refl.
      destruct (Z.lt_trichotomy fa fb) as [Hf|[<-|Hf]].
      * left. rewrite (proj2 (Z.eqb_neq fa fb)) by lia. apply Z.ltb_lt, Hf.
      * rewrite !Z.eqb_refl.
        destruct (Z.lt_trichotomy pa pb) as [Hp|[<-|Hp]].
        -- left. apply Z.ltb_lt, Hp.
        -- right. left. reflexivity.
        -- right. right. apply Z.ltb_lt, Hp.
      * right. right. rewrite (proj2 (Z.eqb_neq fb fa)) by lia. apply Z.ltb_lt, Hf.
    + right. right. rewrite (proj2 (Z.eqb_neq cb ca)) by lia. apply Z.ltb_lt, Hc.
Qed.

(** ** The two variants of [compute_memcpy_redundancy] *)

Lemma memcpy_loops_agree (src : list Byte.byte) : forall (n i : nat)
    (dst dst' : list Byte.byte) (same : Z),
  (forall j, (i <= j)%nat -> dst !! j = dst' !! j) ->
  (memcpy_redundancy_loop n i dst src same).1 = memcpy_compare_loop n i dst' src same.
Proof.
  induction n as [|n IH]; intros i dst dst' same Hagree; [reflexivity|].
  cbn [memcpy_redundancy_loop memcpy_compare_loop].
  rewrite <- (Hagree i (Nat.le_refl i)).
  destruct (dst !! i) as [d|]; [|reflexivity].
  destruct (src !! i) as [s|]; [|reflexivity].
  destruct (Byte.eqb d s).
  - apply IH. intros j Hj. apply Hagree. lia.
  - apply IH. intros j Hj. rewrite list_lookup_insert_ne by lia. apply Hagree. lia.
Qed.

Lemma filter_True_all (l : list nat) : filter (fun _ : nat => True) l = l.
Proof.
  induction l as [|x l IH]; [reflexivity|].
  rewrite filter_cons_True by exact I. congruence.
Qed.

Lemma filter_all_of_length (P : nat -> Prop) `{!forall i, Decision (P i)} (l : list nat) :
  length (filter P l) = length l -> filter P l = l.
Proof.
  induction l as [|x l IH]; [reflexivity|].
  destruct (decide (P x)) as [HP|HP].
  - rewrite filter_cons_True by exact HP. simpl. intros [= Hlen]. rewrite IH by exact Hlen.
    reflexivity.
  - rewrite filter_cons_False by exact HP. simpl. intros Hlen.
    pose proof (length_filter P l). lia.
Qed.

Lemma memcpy_loops_agree_top (dst src : list Byte.byte) (len : nat) :
  (compute_memcpy_redundancy_true dst src len).1 =
  compute_memcpy_redundancy_false dst src len.
Proof.
  unfold compute_memcpy_redundancy_true, compute_memcpy_redundancy_false.
  apply memcpy_loops_agree. reflexivity.
Qed.

Lemma memcpy_loops_agree_at (dst_start src_start : nat) : forall (n i : nat)
    (memory memory' : list Byte.byte) (same : Z),
  (dst_start <= src_start \/ src_start + (i + n) <= dst_start)%nat ->
  (forall a, (dst_start + i <= a)%nat -> memory !! a = memory' !! a) ->
  (forall j, (i <= j < i + n)%nat ->
     memory !! (src_start + j)%nat = memory' !! (src_start + j)%nat) ->
  (memcpy_redundancy_loop_at n i dst_start src_start memory same).1 =
  memcpy_compare_loop_at n i dst_start src_start memory' same.
Proof.
  induction n as [|n IH]; intros i memory memory' same Hplace Hdst Hsrc; [reflexivity|].
  cbn [memcpy_redundancy_loop_at memcpy_compare_loop_at].
  rewrite <- (Hdst (dst_start + i)%nat) by lia.
  rewrite <- (Hsrc i) by lia.
  destruct (memory !! (dst_start + i)%nat) as [d|]; [|reflexivity].
  destruct (memory !! (src_start + i)%nat) as [s|]; [|reflexivity].
  destruct (Byte.eqb d s).
  - apply IH.
    + lia.
    + intros a Ha. apply Hdst. lia.
    + intros j Hj. apply Hsrc. lia.
  - apply IH.
    + lia.
    + intros a Ha. rewrite list_lookup_insert_ne by lia. apply Hdst. lia.
    + intros j Hj. rewrite list_lookup_insert_ne by lia. apply Hsrc. lia.
Qed.

(** X24: the copying variant and the comparing variant of
    [compute_memcpy_redundancy] return the same count on the same memory
    and the same two ranges whenever the destination does not start
    inside the source range after its first byte: [dst_start <=
    src_start] (overlapping or not), or the source range ends at or
    before [dst_start]. *)
Theorem memcpy_variants_agree (memory : list Byte.byte) (dst_start src_start len : nat) :
  (dst_start <= src_start \/ src_start + len <= dst_start)%nat ->
  (compute_memcpy_redundancy_true_at memory dst_start src_start len).1 =
  compute_memcpy_redundancy_false_at memory dst_start src_start len.
Proof.
  intros Hplace.
  unfold compute_memcpy_redundancy_true_at, compute_memcpy_redundancy_false_at.
  apply memcpy_loops_agree_at.
  - simpl. exact Hplace.
  - reflexivity.
  - reflexivity.
Qed.

Lemma memcpy_variants_agree_witness :
  (compute_memcpy_redundancy_true_at [x01; x02; x02; x03]%byte 0 1 3).1 = 1 /\
  compute_memcpy_redundancy_false_at [x01; x02; x02; x03]%byte 0 1 3 = 1.
Proof.
  pose proof (memcpy_variants_agree [x01; x02; x02; x03]%byte 0 1 3) as Hagree.
  split.
  - rewrite Hagree by (left; lia). reflexivity.
  - reflexivity.
Defined.

(** With the destination starting inside the source range the two
    variants can differ: on the memory [1; 2; 1] with [dst_start = 1],
    [src_start = 0] and [len = 2] the first iteration stores 1 at
    address 1, which the second iteration reads back as the source. *)
Example memcpy_counts_differ_on_overlap :
  (compute_memcpy_redundancy_true_at [x01; x02; x01]%byte 1 0 2).1 = 1 /\
  compute_memcpy_redundancy_false_at [x01; x02; x01]%byte 1 0 2 = 0.
Proof. split; reflexivity. Qed.

(** X25: [compute_memcpy_redundancy<false>] on two buffers of [len]
    bytes, [len <= 2 ^ 53], returns the number of indices at which they
    agree; in particular it returns [len] exactly when the buffers are
    equal. *)
Theorem memcpy_compare_counts (dst src : list Byte.byte) (len : nat) :
  length dst = len -> length src = len -> Z.of_nat len <= 2 ^ 53 ->
  compute_memcpy_redundancy_false dst src len = Z.of_nat (equal_bytes dst src len) /\
  (compute_memcpy_redundancy_false dst src len = Z.of_nat len <-> dst = src).
Proof.
  intros Hdst Hsrc Hfit.
  assert (Hcount : compute_memcpy_redundancy_false dst src len =
                   Z.of_nat (equal_bytes dst src len)).
  { rewrite <- (memcpy_loops_agree_top dst src len). unfold compute_memcpy_redundancy_true, equal_bytes.
    rewrite (memcpy_redundancy_loop_spec src len 0 dst 0) by lia. reflexivity. }
  split; [exact Hcount|]. rewrite Hcount. unfold equal_bytes. split.
  - intros Hall. apply Nat2Z.inj in Hall.
    apply list_eq. intros i.
    destruct (decide (i < len)%nat) as [Hi|Hi].
    + assert (i ∈ filter (fun i => dst !! i = src !! i) (seq 0 len)) as Hin.
      { rewrite (filter_all_of_length (fun i => dst !! i = src !! i) (seq 0 len))
          by (rewrite length_seq; exact Hall).
        apply elem_of_seq. lia. }
      apply list_elem_of_filter in Hin as [Heq _]. exact Heq.
    + rewrite !lookup_ge_None_2 by lia. reflexivity.
  - intros ->. f_equal.
    rewrite (filter_length_ext _ (fun _ => True) (seq 0 len)) by (intros; tauto).
    rewrite filter_True_all, length_seq. reflexivity.
Qed.

Lemma memcpy_compare_counts_witness :
  compute_memcpy_redundancy_false [x01; x02; x03]%byte [x01; x07; x03]%byte 3 = 2.
Proof.
  destruct (memcpy_compare_counts [x01; x02; x03]%byte [x01; x07; x03]%byte 3)
    as [Hcount _]; [reflexivity|reflexivity|simpl; lia|].
  exact Hcount.
Defined.

Lemma memcpy_redundancy_loop_at_effect (dst_start src_start len : nat) :
  (dst_start + len <= src_start \/ src_start + len <= dst_start)%nat ->
  forall (n i : nat) (memory : list Byte.byte) (same : Z),
  (i + n <= len)%nat ->
  (dst_start + len <= length memory)%nat -> (src_start + len <= length memory)%nat ->
  let memory' := (memcpy_redundancy_loop_at n i dst_start src_start memory same).2 in
  length memory' = length memory /\
  (forall a, ~ (dst_start + i <= a < dst_start + i + n)%nat ->
     memory' !! a = memory !! a) /\
  (forall j, (i <= j < i + n)%nat ->
     memory' !! (dst_start + j)%nat = memory !! (src_start + j)%nat).
Proof.
  intros Hapart. induction n as [|n IH]; intros i memory same Hin Hdst Hsrc.
  - simpl. split; [reflexivity|]. split; [reflexivity|]. intros j Hj. lia.
  - cbn [memcpy_redundancy_loop_at].
    destruct (lookup_lt_is_Some_2 memory (dst_start + i)%nat ltac:(lia)) as [d Hd].
    destruct (lookup_lt_is_Some_2 memory (src_start + i)%nat ltac:(lia)) as [s Hs].
    rewrite Hd, Hs.
    destruct (Byte.eqb d s) eqn:Heq.
    + apply byte_dec_bl in Heq. subst s.
      destruct (IH (S i) memory (double_add_one same) ltac:(lia) Hdst Hsrc)
        as (Hlen & Hframe & Hcopy).
      split; [exact Hlen|]. split.
      * intros a Ha. apply Hframe. lia.
      * intros j Hj. destruct (decide (j = i)) as [->|Hne].
        -- rewrite Hframe by lia. congruence.
        -- apply Hcopy. lia.
    + destruct (IH (S i) (<[(dst_start + i)%nat := s]> memory) same ltac:(lia)
                  ltac:(rewrite length_insert; exact Hdst)
                  ltac:(rewrite length_insert; exact Hsrc))
        as (Hlen & Hframe & Hcopy).
      rewrite length_insert in Hlen.
      split; [exact Hlen|]. split.
      * intros a Ha. rewrite Hframe by lia. apply list_lookup_insert_ne. lia.
      * intros j Hj. destruct (decide (j = i)) as [->|Hne].
        -- rewrite Hframe by lia. rewrite list_lookup_insert_eq by lia. congruence.
        -- rewrite Hcopy by lia. apply list_lookup_insert_ne. lia.
Qed.

Lemma memcpy_redundancy_loop_at_equal (dst_start src_start : nat) :
  forall (n i : nat) (memory : list Byte.byte) (same : Z),
  (dst_start + (i + n) <= length memory)%nat ->
  (forall j, (i <= j < i + n)%nat ->
     memory !! (dst_start + j)%nat = memory !! (src_start + j)%nat) ->
  same + Z.of_nat n <= 2 ^ 53 ->
  memcpy_redundancy_loop_at n i dst_start src_start memory same =
    (same + Z.of_nat n, memory).
Proof.
  induction n as [|n IH]; intros i memory same Hdst Hsame Hfit.
  - simpl. rewrite Z.add_0_r. reflexivity.
  - cbn [memcpy_redundancy_loop_at].
    destruct (lookup_lt_is_Some_2 memory (dst_start + i)%nat ltac:(lia)) as [d Hd].
    rewrite <- (Hsame i) by lia. rewrite Hd.
    rewrite (byte_dec_lb (eq_refl d)).
    rewrite double_add_one_exact by lia.
    rewrite IH.
    + f_equal. lia.
    + lia.
    + intros j Hj. apply Hsame. lia.
    + lia.
Qed.

(** X26: copying twice.  For two ranges of [len] bytes, [len <= 2 ^ 53],
    that lie in the memory and do not overlap:
    [compute_memcpy_redundancy<true>] leaves in the destination range
    the bytes of the source range and changes no byte outside the
    destination range, so a second call finds all [len] bytes redundant
    and changes nothing. *)
Theorem memcpy_redundancy_twice (memory : list Byte.byte) (dst_start src_start len : nat) :
  (dst_start + len <= src_start \/ src_start + len <= dst_start)%nat ->
  (dst_start + len <= length memory)%nat -> (src_start + len <= length memory)%nat ->
  Z.of_nat len <= 2 ^ 53 ->
  let memory' := (compute_memcpy_redundancy_true_at memory dst_start src_start len).2 in
  (forall j, (j < len)%nat ->
     memory' !! (dst_start + j)%nat = memory !! (src_start + j)%nat) /\
  (forall a, ~ (dst_start <= a < dst_start + len)%nat -> memory' !! a = memory !! a) /\
  compute_memcpy_redundancy_true_at memory' dst_start src_start len =
    (Z.of_nat len, memory').
Proof.
  intros Hapart Hdst Hsrc Hfit memory'. subst memory'.
  unfold compute_memcpy_redundancy_true_at.
  destruct (memcpy_redundancy_loop_at_effect dst_start src_start len Hapart len 0
              memory 0 ltac:(lia) Hdst Hsrc) as (Hlen & Hframe & Hcopy).
  set (memory' := (memcpy_redundancy_loop_at len 0 dst_start src_start memory 0).2) in *.
  split; [intros j Hj; apply Hcopy; lia|].
  split; [intros a Ha; apply Hframe; lia|].
  rewrite (memcpy_redundancy_loop_at_equal dst_start src_start len 0 memory' 0).
  - reflexivity.
  - lia.
  - intros j Hj. rewrite Hcopy by lia. symmetry. apply Hframe. lia.
  - lia.
Qed.

Lemma memcpy_redundancy_twice_witness :
  let memory' :=
    (compute_memcpy_redundancy_true_at [x01; x02; x09; x01; x07]%byte 0 3 2).2 in
  memory' = [x01; x07; x09; x01; x07]%byte /\
  compute_memcpy_redundancy_true_at memory' 0 3 2 = (2, memory').
Proof.
  intros memory'.
  destruct (memcpy_redundancy_twice [x01; x02; x09; x01; x07]%byte 0 3 2)
    as (_ & _ & Hagain); [left; simpl; lia|simpl; lia|simpl; lia|simpl; lia|].
  split; [reflexivity|exact Hagain].
Defined.

(** On overlapping ranges the second call can still find differences: on
    the memory [1; 2; 3] with [dst_start = 0], [src_start = 1] and
    [len = 2] the first call leaves [2; 3; 3], whose source range
    [3; 3] is no longer what was copied. *)
Example memcpy_second_call_on_overlap :
  let memory' := (compute_memcpy_redundancy_true_at [x01; x02; x03]%byte 0 1 2).2 in
  memory' = [x02; x03; x03]%byte /\
  compute_memcpy_redundancy_true_at memory' 0 1 2 = (1, [x03; x03; x03]%byte).
Proof. split; reflexivity. Qed.

(** ** The approximation level *)

(** X27: [redshow_approx_level_config] either fails with
    [NO_SUCH_APPROX], which it does for a level that is none of the six
    enumerators and for no other, and then changes nothing; or it
    succeeds, which it does for a level that is one of the six
    enumerators and for no other, and changes only the two digit counts,
    to a pair with [8 <= f32 <= 23] in which the double loses twice as
    many mantissa bits as the float ([52 - f64 = 2 * (23 - f32)]);
    configuring the same level again changes nothing more, and level
    [NONE] gives the initial digits. *)
Theorem approx_level_config_outcome (L : approx_levels) (level : Z) (st : State) :
  let r := redshow_approx_level_config L level st in
  (r.1 = REDSHOW_ERROR_NO_SUCH_APPROX /\ r.2 = st /\
   level <> REDSHOW_APPROX_NONE L /\ level <> REDSHOW_APPROX_MIN L /\
   level <> REDSHOW_APPROX_LOW L /\ level <> REDSHOW_APPROX_MID L /\
   level <> REDSHOW_APPROX_HIGH L /\ level <> REDSHOW_APPROX_MAX L) \/
  (r.1 = REDSHOW_SUCCESS /\
   (level = REDSHOW_APPROX_NONE L \/ level = REDSHOW_APPROX_MIN L \/
    level = REDSHOW_APPROX_LOW L \/ level = REDSHOW_APPROX_MID L \/
    level = REDSHOW_APPROX_HIGH L \/ level = REDSHOW_APPROX_MAX L) /\
   r.2 = with_decimal_degrees (decimal_degree_f32 r.2) (decimal_degree_f64 r.2) st /\
   8 <= decimal_degree_f32 r.2 <= 23 /\
   52 - decimal_degree_f64 r.2 = 2 * (23 - decimal_degree_f32 r.2) /\
   (level = REDSHOW_APPROX_NONE L ->
    decimal_degree_f32 r.2 = decimal_degree_f32 initial_state /\
    decimal_degree_f64 r.2 = decimal_degree_f64 initial_state) /\
   redshow_approx_level_config L level r.2 = r).
Proof.
  intros r. subst r. unfold redshow_approx_level_config.
  destruct (level =? REDSHOW_APPROX_NONE L) eqn:H0.
  { right. cbn [fst snd]. unfold VALID_FLOAT_DIGITS, VALID_DOUBLE_DIGITS.
    split; [reflexivity|]. split; [apply Z.eqb_eq in H0; tauto|].
    repeat split; simpl; try lia; try reflexivity. }
  destruct (level =? REDSHOW_APPROX_MIN L) eqn:H1.
  { right. cbn [fst snd]. apply Z.eqb_neq in H0.
    split; [reflexivity|]. split; [apply Z.eqb_eq in H1; tauto|].
    repeat split; simpl; try lia; try contradiction; try reflexivity. }
  destruct (level =? REDSHOW_APPROX_LOW L) eqn:H2.
  { right. cbn [fst snd]. apply Z.eqb_neq in H0.
    split; [reflexivity|]. split; [apply Z.eqb_eq in H2; tauto|].
    repeat split; simpl; try lia; try contradiction; try reflexivity. }
  destruct (level =? REDSHOW_APPROX_MID L) eqn:H3.
  { right. cbn [fst snd]. apply Z.eqb_neq in H0.
    split; [reflexivity|]. split; [apply Z.eqb_eq in H3; tauto|].
    repeat split; simpl; try lia; try contradiction; try reflexivity. }
  destruct (level =? REDSHOW_APPROX_HIGH L) eqn:H4.
  { right. cbn [fst snd]. apply Z.eqb_neq in H0.
    split; [reflexivity|]. split; [apply Z.eqb_eq in H4; tauto|].
    repeat split; simpl; try lia; try contradiction; try reflexivity. }
  destruct (level =? REDSHOW_APPROX_MAX L) eqn:H5.
  { right. cbn [fst snd]. apply Z.eqb_neq in H0.
    split; [reflexivity|]. split; [apply Z.eqb_eq in H5; tauto|].
    repeat split; simpl; try lia; try contradiction; try reflexivity. }
  left. rewrite !Z.eqb_neq in *. simpl. repeat split; assumption.
Qed.

(** ** Where the [.inst] file is looked for *)

Lemma string_size_cons (a : ascii) (s : string) :
  string_size (String a s) = 1 + string_size s.
Proof. unfold string_size. simpl String.length. lia. Qed.

Lemma append_cons (x : ascii) (a b : string) :
  String.append (String x a) b = String x (String.append a b).
Proof. reflexivity. Qed.

Lemma append_nil (b : string) : String.append EmptyString b = b.
Proof. reflexivity. Qed.

Lemma string_size_app (a b : string) :
  string_size (String.append a b) = string_size a + string_size b.
Proof.
  induction a as [|x a IH]; [reflexivity|].
  rewrite append_cons, !string_size_cons, IH. lia.
Qed.

Lemma string_size_nonneg (s : string) : 0 <= string_size s.
Proof. unfold string_size. lia. Qed.

Lemma rfind_aux_app (c : ascii) (a b : string) : forall i pos acc,
  rfind_aux c (String.append a b) i pos acc =
  rfind_aux c b (i + string_size a) pos (rfind_aux c a i pos acc).
Proof.
  induction a as [|x a IH]; intros i pos acc.
  - rewrite append_nil. cbn [rfind_aux]. change (string_size EmptyString) with 0.
    rewrite Z.add_0_r. reflexivity.
  - rewrite append_cons. cbn [rfind_aux]. rewrite IH, string_size_cons.
    f_equal. lia.
Qed.

Lemma rfind_aux_absent (c : ascii) (s : string) : forall i pos acc,
  string_has c s = false -> rfind_aux c s i pos acc = acc.
Proof.
  induction s as [|x s IH]; intros i pos acc Habsent; [reflexivity|].
  simpl in Habsent. apply orb_false_iff in Habsent as [Hx Hs].
  cbn [rfind_aux]. rewrite Hx, andb_false_r. apply IH, Hs.
Qed.

Lemma rfind_aux_slash_seen (s : string) (i pos acc : Z) :
  i <= pos ->
  rfind_aux "/" (String "/" s) i pos acc = rfind_aux "/" s (i + 1) pos i.
Proof.
  intros Hle. cbn [rfind_aux].
  rewrite (proj2 (Z.leb_le i pos) Hle). reflexivity.
Qed.

Lemma rfind_aux_slash_beyond (s : string) (i pos acc : Z) :
  pos < i ->
  rfind_aux "/" (String "/" s) i pos acc = rfind_aux "/" s (i + 1) pos acc.
Proof.
  intros Hlt. cbn [rfind_aux].
  rewrite (proj2 (Z.leb_gt i pos) Hlt). reflexivity.
Qed.

Lemma substring_app_prefix (a b : string) :
  substring 0 (String.length a) (String.append a b) = a.
Proof.
  induction a as [|x a IH].
  - rewrite append_nil. destruct b; reflexivity.
  - rewrite append_cons. cbn [String.length substring]. rewrite IH. reflexivity.
Qed.

Lemma substring_app_skip (a b : string) (n : nat) :
  substring (String.length a) n (String.append a b) = substring 0 n b.
Proof.
  induction a as [|x a IH]; [reflexivity|].
  rewrite append_cons. cbn [String.length substring]. exact IH.
Qed.

Lemma substring_all (b : string) : substring 0 (String.length b) b = b.
Proof.
  induction b as [|x b IH]; [reflexivity|].
  cbn [String.length substring]. rewrite IH. reflexivity.
Qed.

Lemma substr_prefix (a b : string) :
  substr (String.append a b) 0 (string_size a) = a.
Proof.
  unfold substr. rewrite string_size_app, Z.sub_0_r.
  rewrite Z.min_l by (pose proof (string_size_nonneg b); lia).
  unfold string_size. rewrite Nat2Z.id. apply substring_app_prefix.
Qed.

Lemma substr_suffix (a b : string) (n : Z) :
  string_size b <= n ->
  substr (String.append a b) (string_size a) n = b.
Proof.
  intros Hn. unfold substr. rewrite string_size_app.
  rewrite Z.min_r by lia.
  replace (string_size a + string_size b - string_size a) with (string_size b) by lia.
  unfold string_size. rewrite !Nat2Z.id, substring_app_skip. apply substring_all.
Qed.

Lemma substr_suffix_at (s a b : string) (p n : Z) :
  s = String.append a b -> p = string_size a -> string_size b <= n ->
  substr s p n = b.
Proof. intros -> -> Hn. apply substr_suffix, Hn. Qed.

Lemma substr_whole (s : string) :
  string_size s <= npos -> substr s 0 npos = s.
Proof.
  intros Hfit. unfold substr. rewrite Z.sub_0_r, Z.min_r by exact Hfit.
  unfold string_size. rewrite Nat2Z.id. apply substring_all.
Qed.

Lemma append_assoc (a b c : string) :
  String.append (String.append a b) c = String.append a (String.append b c).
Proof.
  induction a as [|x a IH]; [reflexivity|].
  rewrite !append_cons, IH. reflexivity.
Qed.

(** X28: the [.inst] file of a cubin.  For a path [d/m/n] whose last two
    components [m] and [n] hold no slash, [cubin_analyze] looks for
    [d/structs/nvidia/n.inst] and for no other file: without it the
    answer is [NO_SUCH_FILE], with it the parser is run on that file.
    For a path [m/n] with a single slash and [m] not empty, the whole
    path is taken as the directory: the file looked for is
    [m/n/structs/nvidia/n.inst]. *)
Theorem inst_path_rule (E : collaborators) (d m n : string) (v : list Symbol)
    (g : InstructionGraph) :
  string_has "/" m = false -> string_has "/" n = false ->
  let tail := String.append m (String "/" n) in
  let path_ := String.append d (String "/" tail) in
  let inst := String.append d
                (String.append "/structs/nvidia/" (String.append n ".inst")) in
  let inst1 := String.append tail
                 (String.append "/structs/nvidia/" (String.append n ".inst")) in
  (string_size path_ <= npos ->
   inst_path_of path_ (rfind path_ "/" npos) = inst /\
   cubin_analyze E path_ v g =
     (if inst_file_good E inst
      then (let '(ok, v', g') := parse_instructions E inst v g in
            if ok then (REDSHOW_SUCCESS, v', g')
            else (REDSHOW_ERROR_FAILED_ANALYZE_CUBIN, v', g'))
      else (REDSHOW_ERROR_NO_SUCH_FILE, v, g))) /\
  (string_size tail <= npos -> 0 < string_size m ->
   inst_path_of tail (rfind tail "/" npos) = inst1).
Proof.
  intros Hm Hn tail path_ inst inst1.
  pose proof (string_size_nonneg d) as Hd0.
  pose proof (string_size_nonneg m) as Hm0.
  pose proof (string_size_nonneg n) as Hn0.
  assert (Htail : string_size tail = string_size m + 1 + string_size n).
  { subst tail. rewrite string_size_app, string_size_cons. lia. }
  assert (Hpath : string_size path_ = string_size d + 1 + string_size tail).
  { subst path_. rewrite string_size_app, string_size_cons. lia. }
  split.
  - intros Hfit.
    assert (Hiter : rfind path_ "/" npos = string_size d + 1 + string_size m).
    { unfold rfind. subst path_ tail. rewrite rfind_aux_app.
      rewrite rfind_aux_slash_seen by lia.
      rewrite rfind_aux_app, (rfind_aux_absent "/" m) by exact Hm.
      rewrite rfind_aux_slash_seen by lia.
      rewrite (rfind_aux_absent "/" n) by exact Hn. lia. }
    assert (Hiter' : rfind path_ "/" (wrap64 (rfind path_ "/" npos - 1)) = string_size d).
    { rewrite Hiter. unfold wrap64. rewrite Z.mod_small by (unfold npos in *; lia).
      unfold rfind. subst path_ tail. rewrite rfind_aux_app.
      rewrite rfind_aux_slash_seen by lia.
      rewrite rfind_aux_app, (rfind_aux_absent "/" m) by exact Hm.
      rewrite rfind_aux_slash_beyond by lia.
      rewrite (rfind_aux_absent "/" n) by exact Hn. lia. }
    assert (Hinst : inst_path_of path_ (rfind path_ "/" npos) = inst).
    { unfold inst_path_of. rewrite Hiter'. rewrite Hiter at 1 2.
      assert (substr path_ (string_size d + 1 + string_size m + 1)
                (string_size path_ - (string_size d + 1 + string_size m)) = n) as ->.
      { apply (substr_suffix_at _ (String.append d (String "/" (String.append m "/")))).
        - subst path_ tail. rewrite append_assoc, append_cons, append_assoc.
          reflexivity.
        - rewrite string_size_app, string_size_cons, string_size_app.
          change (string_size "/") with 1. lia.
        - rewrite Hpath, Htail. lia. }
      subst path_. rewrite substr_prefix. reflexivity. }
    split; [exact Hinst|].
    unfold cubin_analyze. rewrite Hinst, Hiter.
    rewrite (proj2 (Z.eqb_neq _ _)) by (unfold npos in *; lia).
    destruct (inst_file_good E inst); reflexivity.
  - intros Hfit Hpos.
    assert (Hiter : rfind tail "/" npos = string_size m).
    { unfold rfind. subst tail. rewrite rfind_aux_app.
      rewrite (rfind_aux_absent "/" m) by exact Hm.
      rewrite rfind_aux_slash_seen by lia.
      rewrite (rfind_aux_absent "/" n) by exact Hn. lia. }
    assert (Hiter' : rfind tail "/" (wrap64 (rfind tail "/" npos - 1)) = npos).
    { rewrite Hiter. unfold wrap64. rewrite Z.mod_small by (unfold npos in *; lia).
      unfold rfind. subst tail. rewrite rfind_aux_app.
      rewrite (rfind_aux_absent "/" m) by exact Hm.
      rewrite rfind_aux_slash_beyond by lia.
      apply rfind_aux_absent, Hn. }
    unfold inst_path_of. rewrite Hiter', substr_whole by exact Hfit. rewrite Hiter.
    assert (substr tail (string_size m + 1) (string_size tail - string_size m) = n) as ->.
    { apply (substr_suffix_at _ (String.append m "/")).
      - subst tail. rewrite append_assoc. reflexivity.
      - rewrite string_size_app. change (string_size "/") with 1. lia.
      - rewrite Htail. lia. }
    reflexivity.
Qed.

Lemma inst_path_rule_witness :
  inst_path_of "/tmp/cubins/a.cubin" (rfind "/tmp/cubins/a.cubin" "/" npos) =
    "/tmp/structs/nvidia/a.cubin.inst"%string.
Proof.
  destruct (inst_path_rule absent_inst_files "/tmp" "cubins" "a.cubin" []
              InstructionGraph_empty) as [Hrule _]; [reflexivity|reflexivity|].
  destruct Hrule as [Hinst _]; [vm_compute; discriminate|].
  exact Hinst.
Defined.
